(** * Forwarding state of the "free one, only over ISLs" algorithm

    A shallow embedding of
    [satgenpy/satgen/dynamic_state/algorithm_free_one_only_over_isls.py]
    and the properties of the forwarding table it computes.

    Modelling conventions.
    - Node identifiers are natural numbers: satellites are [0 .. S-1],
      ground stations [S .. S+G-1].  Negative ids, which numpy would
      take as indices counted from the end, are not modelled.  Interface
      numbers and the components of a forwarding entry are integers,
      since the drop entry is [(-1,-1,-1)].
    - Distances are Python floats in the source.  They are modelled as
      exact integers extended with [+inf]; rounding, overflow and NaN
      are outside the model.
    - Python dictionaries are [gmap]s, Python lists are lists, a failed
      subscript raises the exception Python raises.
    - The graph is the adjacency of networkx in insertion order;
      [nx.floyd_warshall_numpy] is modelled after networkx: the rows and
      columns of its matrix follow the order in which the nodes were
      added.
    - The two files written by the function are the [World]; what was
      written before an exception stays written.
    - [print] calls under [enable_verbose_logs] have no effect on the
      results and are left out.

    The file has the embedding first, then the definitions used to state
    the properties and the example inputs, then the properties. *)

From Stdlib Require Import ZArith Lia.
From stdpp Require Import base option list sorting gmap strings.

Open Scope Z_scope.
Open Scope nat_scope.

(** ** Distances: floats with [float("inf")] *)

Inductive Dist := Fin (d : Z) | Inf.

#[global] Instance Dist_eq_dec : EqDecision Dist.
Proof. solve_decision. Defined.

Module DistOps.

(** [math.isinf] *)
Definition isinf (x : Dist) : bool :=
  match x with Inf => true | Fin _ => false end.

(** [x + y] *)
Definition add (x y : Dist) : Dist :=
  match x, y with
  | Fin a, Fin b => Fin (a + b)
  | _, _ => Inf
  end.

(** [x < y] *)
Definition ltb (x y : Dist) : bool :=
  match x, y with
  | Fin a, Fin b => (a <? b)%Z
  | Fin _, Inf => true
  | Inf, _ => false
  end.

(** [x <= y] *)
Definition leb (x y : Dist) : bool :=
  match x, y with
  | Fin a, Fin b => (a <=? b)%Z
  | _, Inf => true
  | Inf, Fin _ => false
  end.

(** [np.minimum(x, y)] *)
Definition min (x y : Dist) : Dist := if ltb y x then y else x.

End DistOps.

(** ** Python built-ins used by the algorithm *)

(** A candidate is the tuple [(total cost, satellite id)]. *)
Abbreviation Candidate := (Dist * nat)%type.

(** Python's [<] on these tuples: the first components that differ
    decide, otherwise the second components do. *)
Definition tuple_lt (x y : Candidate) : bool :=
  if decide (x.1 = y.1) then x.2 <? y.2 else DistOps.ltb x.1 y.1.

Fixpoint sorted_insert (x : Candidate) (l : list Candidate) : list Candidate :=
  match l with
  | [] => [x]
  | y :: l' => if tuple_lt y x then y :: sorted_insert x l' else x :: y :: l'
  end.

(** [sorted(possibilities)]: a stable sort by [<]. *)
Fixpoint sorted (l : list Candidate) : list Candidate :=
  match l with
  | [] => []
  | x :: l' => sorted_insert x (sorted l')
  end.

(** ** Exceptions, results *)

Inductive Key := KeyPair (a b : nat) | KeyStr (s : string).

Inductive Exception :=
| ValueError (msg : string)
| NetworkXError (n : nat)
| IndexError
| KeyError (k : Key).

Inductive Result (A : Type) :=
| Ok (a : A)
| Err (e : Exception).
Arguments Ok {A} a.
Arguments Err {A} e.

#[global] Instance Result_ret : MRet Result := fun A a => Ok a.
#[global] Instance Result_bind : MBind Result := fun A B f r =>
  match r with
  | Ok a => f a
  | Err e => Err e
  end.

(** A subscript [o] that raises [e] when it fails. *)
Definition subscript {A} (o : option A) (e : Exception) : Result A :=
  match o with
  | Some a => Ok a
  | None => Err e
  end.

(** [for x in l: st = body x st], in the exception monad. *)
Fixpoint for_each {A St : Type} (l : list A) (body : A -> St -> Result St) (st : St)
  : Result St :=
  match l with
  | [] => Ok st
  | x :: l' => st' ← body x st; for_each l' body st'
  end.

(** ** The networkx graph *)

(** [G._adj]: every node with its neighbours and the weight of the edge,
    both in insertion order. *)
Abbreviation Graph := (list (nat * list (nat * Z)))%type.

Fixpoint assoc {V} (k : nat) (l : list (nat * V)) : option V :=
  match l with
  | [] => None
  | (k', v) :: l' => if decide (k = k') then Some v else assoc k l'
  end.

Definition number_of_nodes (g : Graph) : nat := length g.

(** [G.neighbors(n)]; networkx raises when [n] is not a node. *)
Definition neighbors (g : Graph) (n : nat) : Result (list nat) :=
  adj ← subscript (assoc n g) (NetworkXError n);
  Ok (adj.*1).

(** *** [nx.floyd_warshall_numpy] *)

Abbreviation Matrix := (list (list Dist))%type.

(** [A[(i, j)]] *)
Definition matrix_get (A : Matrix) (i j : nat) : Result Dist :=
  row ← subscript (A !! i) IndexError;
  subscript (row !! j) IndexError.

Definition edge_weight (g : Graph) (u v : nat) : Dist :=
  match assoc u g with
  | Some adj => match assoc v adj with Some w => Fin w | None => Inf end
  | None => Inf
  end.

(** [nx.to_numpy_array(G, nonedge=np.inf)]: rows and columns follow
    [list(G)]. *)
Definition to_numpy_array (g : Graph) : Matrix :=
  let nodelist := g.*1 in
  map (fun u => map (fun v => edge_weight g u v) nodelist) nodelist.

(** [np.fill_diagonal(A, 0)] *)
Definition fill_diagonal (A : Matrix) : Matrix :=
  imap (fun i row => <[i := Fin 0]> row) A.

(** [A = np.minimum(A, A[i, :][np.newaxis, :] + A[:, i][:, np.newaxis])] *)
Definition floyd_warshall_step (A : Matrix) (i : nat) : Matrix :=
  let row_i := default [] (A !! i) in
  map (fun row_j =>
         let a_ji := default Inf (row_j !! i) in
         zip_with (fun a_jk a_ik => DistOps.min a_jk (DistOps.add a_ik a_ji))
                  row_j row_i) A.

Definition floyd_warshall_numpy (g : Graph) : Matrix :=
  foldl floyd_warshall_step (fill_diagonal (to_numpy_array g))
        (seq 0 (number_of_nodes g)).

(** ** Files written by the algorithm *)

(** A forwarding entry [(next hop, egress interface, ingress interface)]. *)
Abbreviation Entry := (Z * Z * Z)%type.

(** [(-1, -1, -1)]: the packet is dropped. *)
Definition drop : Entry := (-1, -1, -1)%Z.

(** A line ["%d,%d,%d,%d,%d\n"] of [fstate_<t>.txt]. *)
Abbreviation FstateLine := ((nat * nat) * Entry)%type.

(** A line ["%d,%d,%f\n"] of [gsl_if_bandwidth_<t>.txt]. *)
Abbreviation BandwidthLine := (nat * Z * Z)%type.

(** The two files of this epoch; [None] while a file has not been opened. *)
Record World := {
  gsl_if_bandwidth_file : option (list BandwidthLine);
  fstate_file : option (list FstateLine)
}.

Definition no_files : World :=
  {| gsl_if_bandwidth_file := None; fstate_file := None |}.

(** State and exceptions: the world survives an exception. *)
Definition M (A : Type) : Type := World -> World * Result A.

#[global] Instance M_ret : MRet M := fun A a w => (w, Ok a).
#[global] Instance M_bind : MBind M := fun A B f m w =>
  match m w with
  | (w', Ok a) => f a w'
  | (w', Err e) => (w', Err e)
  end.

Definition lift {A} (r : Result A) : M A := fun w => (w, r).

(** [open(output_filename, "w+")] *)
Definition open_gsl_if_bandwidth : M unit := fun w =>
  ({| gsl_if_bandwidth_file := Some []; fstate_file := fstate_file w |}, Ok tt).

Definition open_fstate : M unit := fun w =>
  ({| gsl_if_bandwidth_file := gsl_if_bandwidth_file w; fstate_file := Some [] |},
   Ok tt).

(** [f_out.write(...)], on a file that is open. *)
Definition write_gsl_if_bandwidth (line : BandwidthLine) : M unit := fun w =>
  ({| gsl_if_bandwidth_file := (fun f => f ++ [line]) <$> gsl_if_bandwidth_file w;
      fstate_file := fstate_file w |}, Ok tt).

Definition write_fstate (line : FstateLine) : M unit := fun w =>
  ({| gsl_if_bandwidth_file := gsl_if_bandwidth_file w;
      fstate_file := (fun f => f ++ [line]) <$> fstate_file w |}, Ok tt).

Fixpoint for_eachM {A St : Type} (l : list A) (body : A -> St -> M St) (st : St)
  : M St :=
  match l with
  | [] => mret st
  | x :: l' => st' ← body x st; for_eachM l' body st'
  end.

(** ** The algorithm *)

Abbreviation Fstate := (gmap (nat * nat) Entry).

(** The dictionary [{"fstate": fstate}] returned by an epoch. *)
Record Output := { fstate : Fstate }.

Record Input := {
  time_since_epoch_ns : Z;
  (** [len(satellites)] and [len(ground_stations)]: the algorithm uses
      nothing else of these two lists. *)
  len_satellites : nat;
  len_ground_stations : nat;
  sat_net_graph_without_gs : Graph;
  (** per ground station, the tuples [(distance, satellite id)] *)
  ground_station_satellites_in_range : list (list (Dist * nat));
  num_isls_per_sat : list Z;
  sat_neighbor_to_if : gmap (nat * nat) Z;
  (** per node, the dictionary of its GSL interface *)
  list_gsl_interfaces_info : list (gmap string Z);
  prev_output : option Output
}.

(** The two messages of the check of the graph. *)
Definition node_count_msg : string :=
  "Number of nodes in the graph does not match the number of satellites".

Definition gs_link_msg : string :=
  "Graph cannot contain satellite-to-ground-station links".

(** Lines 70-75: the check of the graph. *)
Definition check_graph (g : Graph) (n_sat : nat) : Result unit :=
  if decide (number_of_nodes g ≠ n_sat) then
    Err (ValueError node_count_msg)
  else
    for_each (seq 0 n_sat) (fun sid _ =>
      nbrs ← neighbors g sid;
      for_each nbrs (fun n _ =>
        if decide (n_sat ≤ n) then
          Err (ValueError gs_link_msg)
        else Ok tt) tt) tt.

(** Lines 82-93: the bandwidth state. *)
Definition aggregate_max_bandwidth (inp : Input) (node_id : nat) : Result Z :=
  info ← subscript (list_gsl_interfaces_info inp !! node_id) IndexError;
  subscript (info !! "aggregate_max_bandwidth")
            (KeyError (KeyStr "aggregate_max_bandwidth")).

Definition bandwidth_state (inp : Input) : M unit :=
  open_gsl_if_bandwidth;;
  if decide (time_since_epoch_ns inp = 0%Z) then
    for_eachM (seq 0 (len_satellites inp)) (fun node_id _ =>
      line ← lift (n ← subscript (num_isls_per_sat inp !! node_id) IndexError;
                   bw ← aggregate_max_bandwidth inp node_id;
                   Ok (node_id, n, bw));
      write_gsl_if_bandwidth line) tt;;
    for_eachM (seq (len_satellites inp) (len_ground_stations inp)) (fun node_id _ =>
      line ← lift (bw ← aggregate_max_bandwidth inp node_id;
                   Ok (node_id, 0%Z, bw));
      write_gsl_if_bandwidth line) tt
  else mret tt.

(** Line 151: the bound the search for a next hop starts from. *)
Definition best_dist_init : Dist := Fin 1000000000000000.

Section Decisions.

Variable inp : Input.
Variable dist_sat_net_without_gs : Matrix.

(** Lines 127-136: the satellites in range of the destination that
    [curr] reaches, with the length of the path over them. *)
Definition possibilities_sat_to_gs (curr : nat)
    (possible_dst_sats : list (Dist * nat)) : Result (list Candidate) :=
  possibilities ← for_each possible_dst_sats (fun b possibilities =>
    d ← matrix_get dist_sat_net_without_gs curr b.2;
    if negb (DistOps.isinf d) then
      Ok (possibilities ++ [(DistOps.add d b.1, b.2)])
    else Ok possibilities) [];
  Ok (sorted possibilities).

(** Lines 151-155: one turn of the loop over the neighbours of [curr]. *)
Definition next_hop_step (curr dst_sat n : nat) (st : Entry * Dist)
  : Result (Entry * Dist) :=
  d_curr_n ← matrix_get dist_sat_net_without_gs curr n;
  d_n_dst ← matrix_get dist_sat_net_without_gs n dst_sat;
  if DistOps.ltb (DistOps.add d_curr_n d_n_dst) st.2 then
    if_out ← subscript (sat_neighbor_to_if inp !! (curr, n))
                       (KeyError (KeyPair curr n));
    if_in ← subscript (sat_neighbor_to_if inp !! (n, curr))
                      (KeyError (KeyPair n curr));
    Ok ((Z.of_nat n, if_out, if_in), DistOps.add d_curr_n d_n_dst)
  else Ok st.

(** Lines 126-159: the decision of satellite [curr] for ground station
    [dst_gs], and the distance it promises. *)
Definition sat_to_gs_decision (curr dst_gs : nat) : Result (Entry * Dist) :=
  let dst_gs_node_id := len_satellites inp + dst_gs in
  possible_dst_sats ←
    subscript (ground_station_satellites_in_range inp !! dst_gs) IndexError;
  possibilities ← possibilities_sat_to_gs curr possible_dst_sats;
  match possibilities with
  | [] => Ok (drop, Inf)
  | (distance_to_ground_station_m, dst_sat) :: _ =>
      if decide (curr ≠ dst_sat) then
        nbrs ← neighbors (sat_net_graph_without_gs inp) curr;
        '(next_hop_decision, _) ←
          for_each nbrs (next_hop_step curr dst_sat) (drop, best_dist_init);
        Ok (next_hop_decision, distance_to_ground_station_m)
      else
        n_isls ← subscript (num_isls_per_sat inp !! dst_sat) IndexError;
        Ok ((Z.of_nat dst_gs_node_id, n_isls, 0%Z), distance_to_ground_station_m)
  end.

Variable dist_satellite_to_ground_station : gmap (nat * nat) Dist.

(** Lines 177-188. *)
Definition possibilities_gs_to_gs (dst_gs_node_id : nat)
    (possible_src_sats : list (Dist * nat)) : Result (list Candidate) :=
  possibilities ← for_each possible_src_sats (fun a possibilities =>
    best_distance_offered_m ←
      subscript (dist_satellite_to_ground_station !! (a.2, dst_gs_node_id))
                (KeyError (KeyPair a.2 dst_gs_node_id));
    if negb (DistOps.isinf best_distance_offered_m) then
      Ok (possibilities ++ [(DistOps.add a.1 best_distance_offered_m, a.2)])
    else Ok possibilities) [];
  Ok (sorted possibilities).

(** Lines 174-195: the decision of ground station [src_gid] for ground
    station [dst_gid]. *)
Definition gs_to_gs_decision (src_gid dst_gid : nat) : Result Entry :=
  let dst_gs_node_id := len_satellites inp + dst_gid in
  possible_src_sats ←
    subscript (ground_station_satellites_in_range inp !! src_gid) IndexError;
  possibilities ← possibilities_gs_to_gs dst_gs_node_id possible_src_sats;
  match possibilities with
  | [] => Ok drop
  | (_, src_sat_id) :: _ =>
      n_isls ← subscript (num_isls_per_sat inp !! src_sat_id) IndexError;
      Ok (Z.of_nat src_sat_id, 0%Z, n_isls)
  end.

End Decisions.

(** Lines 163 and 198:
    [not prev_fstate or prev_fstate[key] != next_hop_decision].
    [not prev_fstate] holds for [None] and for the empty dictionary. *)
Definition changed (prev_fstate : option Fstate) (key : nat * nat)
    (next_hop_decision : Entry) : Result bool :=
  match prev_fstate with
  | None => Ok true
  | Some prev =>
      if decide (prev = ∅) then Ok true
      else
        old ← subscript (prev !! key) (KeyError (KeyPair key.1 key.2));
        Ok (bool_decide (old ≠ next_hop_decision))
  end.

(** Lines 163-167 and 198-202: write the entry when it changed, keep it
    in [fstate] in any case. *)
Definition update_fstate (prev_fstate : option Fstate) (key : nat * nat)
    (next_hop_decision : Entry) (fs : Fstate) : M Fstate :=
  c ← lift (changed prev_fstate key next_hop_decision);
  (if c : bool then write_fstate (key, next_hop_decision) else mret tt);;
  mret (<[key := next_hop_decision]> fs).

Section Stages.

Variable inp : Input.
Variable dist_sat_net_without_gs : Matrix.
Variable prev_fstate : option Fstate.

(** Lines 123-167: one turn of the loops over the satellites and the
    ground stations. *)
Definition sat_to_gs_turn (curr dst_gs : nat)
    (st : Fstate * gmap (nat * nat) Dist) : M (Fstate * gmap (nat * nat) Dist) :=
  let '(fs, dist_satellite_to_ground_station) := st in
  let dst_gs_node_id := len_satellites inp + dst_gs in
  '(next_hop_decision, distance_to_ground_station_m) ←
    lift (sat_to_gs_decision inp dist_sat_net_without_gs curr dst_gs);
  let dist_satellite_to_ground_station :=
    <[(curr, dst_gs_node_id) := distance_to_ground_station_m]>
      dist_satellite_to_ground_station in
  fs ← update_fstate prev_fstate (curr, dst_gs_node_id) next_hop_decision fs;
  mret (fs, dist_satellite_to_ground_station).

(** Lines 120-167: satellites to ground stations. *)
Definition satellites_to_ground_stations
  : M (Fstate * gmap (nat * nat) Dist) :=
  for_eachM (seq 0 (len_satellites inp)) (fun curr st =>
    for_eachM (seq 0 (len_ground_stations inp)) (sat_to_gs_turn curr) st)
    (∅, ∅).

Variable dist_satellite_to_ground_station : gmap (nat * nat) Dist.

(** Lines 173-202: one turn of the loops over the pairs of ground
    stations. *)
Definition gs_to_gs_turn (src_gid dst_gid : nat) (fs : Fstate) : M Fstate :=
  if decide (src_gid <> dst_gid) then
    let src_gs_node_id := len_satellites inp + src_gid in
    let dst_gs_node_id := len_satellites inp + dst_gid in
    next_hop_decision ←
      lift (gs_to_gs_decision inp dist_satellite_to_ground_station
                              src_gid dst_gid);
    update_fstate prev_fstate (src_gs_node_id, dst_gs_node_id)
                  next_hop_decision fs
  else mret fs.

(** Lines 171-202: ground stations to ground stations. *)
Definition ground_stations_to_ground_stations (fs : Fstate) : M Fstate :=
  for_eachM (seq 0 (len_ground_stations inp)) (fun src_gid fs =>
    for_eachM (seq 0 (len_ground_stations inp)) (gs_to_gs_turn src_gid) fs) fs.

End Stages.

(** The forwarding state of one epoch, lines 99-209, with the distances
    cached for the second stage. *)
Definition forwarding_state (inp : Input)
  : M (Fstate * gmap (nat * nat) Dist) :=
  let dist_sat_net_without_gs :=
    floyd_warshall_numpy (sat_net_graph_without_gs inp) in
  let prev_fstate := fstate <$> prev_output inp in
  open_fstate;;
  '(fs, dist_satellite_to_ground_station) ←
    satellites_to_ground_stations inp dist_sat_net_without_gs prev_fstate;
  fs ← ground_stations_to_ground_stations inp prev_fstate
         dist_satellite_to_ground_station fs;
  mret (fs, dist_satellite_to_ground_station).

Definition algorithm_free_one_only_over_isls (inp : Input) : M Output :=
  lift (check_graph (sat_net_graph_without_gs inp) (len_satellites inp));;
  bandwidth_state inp;;
  '(fs, _) ← forwarding_state inp;
  mret {| fstate := fs |}.

(** ** Definitions used to state the properties *)

(** [x <= y] on candidates, as [not (y < x)]. *)
Definition tuple_le (x y : Candidate) : Prop := tuple_lt y x = false.


(** The forwarding-state file of [w] with [lines] appended. *)
Definition write_lines (lines : list FstateLine) (w : World) : World :=
  {| gsl_if_bandwidth_file := gsl_if_bandwidth_file w;
     fstate_file := (fun f => f ++ lines) <$> fstate_file w |}.

(** The entry of [kv] is new or differs from the previous one. *)
Definition is_changed (prev_fstate : option Fstate) (kv : FstateLine) : Prop :=
  match prev_fstate with
  | None => True
  | Some prev => prev !! kv.1 <> Some kv.2
  end.

#[global] Instance is_changed_dec prev_fstate kv : Decision (is_changed prev_fstate kv).
Proof. destruct prev_fstate; apply _. Defined.

(** All pairs [(x, y)] with [x] from [l1] and [y] from [f x], in the order
    of two nested loops. *)
Definition pairs {A B : Type} (l1 : list A) (f : A -> list B) : list (A * B) :=
  x ← l1; pair x <$> f x.

(** One turn of a loop that computes the entry of [key x] and hands it to
    [update_fstate]. *)
Definition table_body {A : Type} (prev_fstate : option Fstate) (key : A -> nat * nat)
    (decision : A -> Result Entry) (x : A) (fs : Fstate) : M Fstate :=
  next_hop_decision ← lift (decision x);
  update_fstate prev_fstate (key x) next_hop_decision fs.

(** The entry computed by [decision], when it does not raise. *)
Definition entry_of {A : Type} (decision : A -> Result Entry) (x : A) : Entry :=
  match decision x with Ok e => e | Err _ => drop end.

Definition entries {A : Type} (key : A -> nat * nat) (decision : A -> Result Entry)
    (items : list A) : list FstateLine :=
  (fun x => (key x, entry_of decision x)) <$> items.

(** An item whose turn of the loop raises nothing. *)
Definition item_ok {A : Type} (prev_fstate : option Fstate) (key : A -> nat * nat)
    (decision : A -> Result Entry) (x : A) : Prop :=
  exists v b, decision x = Ok v /\ changed prev_fstate (key x) v = Ok b.

(** [fs] after the assignments [fs[k] = v] for the lines [(k, v)] of [ds],
    in order. *)
Definition insert_all {V : Type} (ds : list ((nat * nat) * V))
    (fs : gmap (nat * nat) V) : gmap (nat * nat) V :=
  foldl (fun m kv => <[kv.1 := kv.2]> m) fs ds.

(** The pairs of the two stages, in the order of the loops, and their keys. *)
Definition sat_gs_items (inp : Input) : list (nat * nat) :=
  pairs (seq 0 (len_satellites inp)) (fun _ => seq 0 (len_ground_stations inp)).

Definition gs_gs_items (inp : Input) : list (nat * nat) :=
  pairs (seq 0 (len_ground_stations inp))
        (fun src_gid => filter (fun dst_gid => src_gid <> dst_gid)
                               (seq 0 (len_ground_stations inp))).

Definition sat_gs_key (inp : Input) (x : nat * nat) : nat * nat :=
  (x.1, len_satellites inp + x.2).

Definition gs_gs_key (inp : Input) (x : nat * nat) : nat * nat :=
  (len_satellites inp + x.1, len_satellites inp + x.2).

(** The two results of [sat_to_gs_decision], taken apart. *)
Definition sat_to_gs_entry (inp : Input) (dist : Matrix) (x : nat * nat)
  : Result Entry :=
  '(e, _) ← sat_to_gs_decision inp dist x.1 x.2; Ok e.

Definition sat_to_gs_distance (inp : Input) (dist : Matrix) (x : nat * nat)
  : Dist :=
  match sat_to_gs_decision inp dist x.1 x.2 with
  | Ok (_, d) => d
  | Err _ => Inf
  end.

Definition gs_to_gs_entry (inp : Input) (cache : gmap (nat * nat) Dist)
    (x : nat * nat) : Result Entry :=
  gs_to_gs_decision inp cache x.1 x.2.

(** The assignments to [dist_satellite_to_ground_station] for [items]. *)
Definition sat_gs_distances (inp : Input) (dist : Matrix)
    (items : list (nat * nat)) : list ((nat * nat) * Dist) :=
  (fun x => (sat_gs_key inp x, sat_to_gs_distance inp dist x)) <$> items.

(** What an epoch computes, as functions of the input. *)
Definition dist_of (inp : Input) : Matrix :=
  floyd_warshall_numpy (sat_net_graph_without_gs inp).

Definition prev_fstate_of (inp : Input) : option Fstate :=
  fstate <$> prev_output inp.

(** [dist_satellite_to_ground_station] after the first stage. *)
Definition cache_of (inp : Input) : gmap (nat * nat) Dist :=
  insert_all (sat_gs_distances inp (dist_of inp) (sat_gs_items inp)) ∅.

(** The computed pairs with their entries, in the order of computation. *)
Definition sat_gs_lines (inp : Input) : list FstateLine :=
  entries (sat_gs_key inp) (sat_to_gs_entry inp (dist_of inp)) (sat_gs_items inp).

Definition gs_gs_lines (inp : Input) : list FstateLine :=
  entries (gs_gs_key inp) (gs_to_gs_entry inp (cache_of inp)) (gs_gs_items inp).

Definition table_lines (inp : Input) : list FstateLine :=
  sat_gs_lines inp ++ gs_gs_lines inp.

(** No turn of the two stages raises. *)
Definition all_items_ok (inp : Input) : Prop :=
  Forall (item_ok (prev_fstate_of inp) (sat_gs_key inp)
                  (sat_to_gs_entry inp (dist_of inp))) (sat_gs_items inp) /\
  Forall (item_ok (prev_fstate_of inp) (gs_gs_key inp)
                  (gs_to_gs_entry inp (cache_of inp))) (gs_gs_items inp).

(** No decision of the two stages raises. *)
Definition decisions_ok (inp : Input) : Prop :=
  Forall (fun x => exists v, sat_to_gs_entry inp (dist_of inp) x = Ok v)
         (sat_gs_items inp) /\
  Forall (fun x => exists v, gs_to_gs_entry inp (cache_of inp) x = Ok v)
         (gs_gs_items inp).

(** The candidates of the first stage in the order of the visibility
    list: every satellite in range at a finite distance from [curr], with
    the length of the path over it. *)
Definition candidates_sat_to_gs (dist : Matrix) (curr : nat)
    (possible_dst_sats : list (Dist * nat)) : list Candidate :=
  b ← possible_dst_sats;
  match matrix_get dist curr b.2 with
  | Ok (Fin d) => [(DistOps.add (Fin d) b.1, b.2)]
  | _ => []
  end.

(** The candidates of the second stage: every satellite in range of the
    source with a finite cached distance to the destination. *)
Definition candidates_gs_to_gs (cache : gmap (nat * nat) Dist)
    (dst_gs_node_id : nat) (possible_src_sats : list (Dist * nat))
  : list Candidate :=
  a ← possible_src_sats;
  match cache !! (a.2, dst_gs_node_id) with
  | Some (Fin d) => [(DistOps.add a.1 (Fin d), a.2)]
  | _ => []
  end.

(** [possibilities[0]] of the first stage (lines 143-144), when there is
    one: the distance to the ground station and the satellite chosen. *)
Definition selected_sat_to_gs (inp : Input) (dist : Matrix) (curr dst_gs : nat)
  : option Candidate :=
  match ground_station_satellites_in_range inp !! dst_gs with
  | Some possible_dst_sats =>
      match possibilities_sat_to_gs dist curr possible_dst_sats with
      | Ok (c :: _) => Some c
      | _ => None
      end
  | None => None
  end.

(** The length of the way from [curr] to [dst_sat] over the neighbour [n],
    as line 153 computes it. *)
Definition path_via (dist : Matrix) (curr dst_sat n : nat) : Dist :=
  match matrix_get dist curr n, matrix_get dist n dst_sat with
  | Ok d_curr_n, Ok d_n_dst => DistOps.add d_curr_n d_n_dst
  | _, _ => Inf
  end.

(** The selection as "whichever candidate is encountered first when
    scanning the visibility list": of the candidates of least total cost,
    the first in the order of the list. *)
Fixpoint first_least (l : list Candidate) : option Candidate :=
  match l with
  | [] => None
  | x :: l' =>
      match first_least l' with
      | Some y => if DistOps.ltb y.1 x.1 then Some y else Some x
      | None => Some x
      end
  end.

(** The same input with another previous output. *)
Definition with_prev_output (inp : Input) (prev : option Output) : Input :=
  {| time_since_epoch_ns := time_since_epoch_ns inp;
     len_satellites := len_satellites inp;
     len_ground_stations := len_ground_stations inp;
     sat_net_graph_without_gs := sat_net_graph_without_gs inp;
     ground_station_satellites_in_range := ground_station_satellites_in_range inp;
     num_isls_per_sat := num_isls_per_sat inp;
     sat_neighbor_to_if := sat_neighbor_to_if inp;
     list_gsl_interfaces_info := list_gsl_interfaces_info inp;
     prev_output := prev |}.

(** Satellite [sid] has a link to a node that is not a satellite. *)
Definition has_gs_link (g : Graph) (n_sat sid : nat) : Prop :=
  exists adj n, assoc sid g = Some adj /\ n ∈ adj.*1 /\ n_sat <= n.

(** Computations that raise only exceptions in [P]. *)
Definition raises_only {A : Type} (P : Exception -> Prop) (r : Result A) : Prop :=
  forall e, r = Err e -> P e.

Definition raisesM_only {A : Type} (P : Exception -> Prop) (m : M A) : Prop :=
  forall w w' e, m w = (w', Err e) -> P e.

Definition not_ValueError (e : Exception) : Prop :=
  match e with ValueError _ => False | _ => True end.

(** ** Inputs on which an epoch raises nothing *)

(** A matrix of [n] rows and [n] columns. *)
Definition square (n : nat) (A : Matrix) : Prop :=
  length A = n /\ Forall (fun row => length row = n) A.

Record well_formed (inp : Input) : Prop := {
  (** the nodes of the graph are the satellites *)
  wf_number_of_nodes :
    number_of_nodes (sat_net_graph_without_gs inp) = len_satellites inp;
  wf_nodes :
    forall sid, sid < len_satellites inp ->
                is_Some (assoc sid (sat_net_graph_without_gs inp));
  (** every link joins two satellites and has its two interfaces *)
  wf_links :
    forall sid adj n,
      sid < len_satellites inp ->
      assoc sid (sat_net_graph_without_gs inp) = Some adj -> n ∈ adj.*1 ->
      n < len_satellites inp /\
      is_Some (sat_neighbor_to_if inp !! (sid, n)) /\
      is_Some (sat_neighbor_to_if inp !! (n, sid));
  (** every ground station has a visibility list, of satellites *)
  wf_visibility :
    forall g, g < len_ground_stations inp ->
              exists vis, ground_station_satellites_in_range inp !! g = Some vis /\
                          forall a s, (a, s) ∈ vis -> s < len_satellites inp;
  wf_num_isls :
    forall sid, sid < len_satellites inp ->
                is_Some (num_isls_per_sat inp !! sid);
  (** every node has its bandwidth *)
  wf_bandwidth :
    forall node_id, node_id < len_satellites inp + len_ground_stations inp ->
                    exists info bw,
                      list_gsl_interfaces_info inp !! node_id = Some info /\
                      info !! "aggregate_max_bandwidth" = Some bw;
  (** the previous table, if it is not empty, has every computed key *)
  wf_prev_output :
    forall prev, prev_output inp = Some prev -> fstate prev <> ∅ ->
                 forall k v, (k, v) ∈ table_lines inp -> is_Some (fstate prev !! k)
}.

(** ** The distance matrix of a graph of satellites *)

(** The entry [A[i][j]], [+inf] outside the matrix. *)
Definition matrix_at (A : Matrix) (i j : nat) : Dist :=
  match matrix_get A i j with
  | Ok d => d
  | Err _ => Inf
  end.

(** The nodes were added in the order of their ids, so that row and
    column [i] of the distance matrix are those of node [i]. *)
Definition nodes_in_order (g : Graph) : Prop :=
  g.*1 = seq 0 (number_of_nodes g).

(** No link has a negative length. *)
Definition nonneg_weights (g : Graph) : Prop :=
  forall u v, match edge_weight g u v with
              | Fin w => (0 <= w)%Z
              | Inf => True
              end.

(** The state of the matrix between two turns of the loop of
    [floyd_warshall_numpy], against the matrix [A0] it starts from. *)
Definition floyd_warshall_inv (n : nat) (A0 A : Matrix) : Prop :=
  square n A /\
  forall i j, i < n -> j < n ->
    DistOps.leb (Fin 0) (matrix_at A i j) = true /\
    matrix_at A i i = Fin 0 /\
    DistOps.leb (matrix_at A i j) (matrix_at A0 i j) = true /\
    (i <> j -> matrix_at A i j <> Inf ->
     exists m, m < n /\ m <> i /\ matrix_at A0 i m <> Inf /\
               DistOps.leb (DistOps.add (matrix_at A0 i m) (matrix_at A m j))
                           (matrix_at A i j) = true).

(** Every finite distance between satellites is below the bound of the
    search for a next hop. *)
Definition below_bound (inp : Input) : Prop :=
  forall i j, DistOps.ltb (matrix_at (dist_of inp) i j) best_dist_init = true \/
              matrix_at (dist_of inp) i j = Inf.

(** ** Shortest paths in the graph of satellites *)

(** The length of the walk that leaves [u] and visits the nodes of [p] in
    turn: the sum of the lengths of its links, [+inf] when one of them is
    not a link of the graph. *)
Fixpoint walk_length (g : Graph) (u : nat) (p : list nat) : Dist :=
  match p with
  | [] => Fin 0
  | v :: p' => DistOps.add (edge_weight g u v) (walk_length g v p')
  end.



(** ** Definitions for further properties of the epoch *)

(** The previous table, empty when there is none. *)
Definition previous_table (inp : Input) : Fstate :=
  default ∅ (prev_fstate_of inp).

(** The order of the keys [(source, destination)] as pairs of numbers. *)
Definition key_lt (a b : nat * nat) : Prop :=
  a.1 < b.1 \/ (a.1 = b.1 /\ a.2 < b.2).

(** Every link has a positive length, and no node is linked to itself. *)
Definition positive_weights (g : Graph) : Prop :=
  forall u v, match edge_weight g u v with
              | Fin w => (0 < w)%Z
              | Inf => True
              end.

Definition no_self_loops (g : Graph) : Prop :=
  forall u, edge_weight g u u = Inf.

(** ** Example inputs *)

Definition gsl_info (bandwidth : Z) : gmap string Z :=
  {[ "aggregate_max_bandwidth" := bandwidth ]}.

(** Three satellites in a line, 0 - 1 - 2, every link of length 1; ground
    station 3 sees satellite 0 at distance 5, ground station 4 sees
    satellite 2 at distance 5. *)
Definition example_line : Input :=
  {| time_since_epoch_ns := 0;
     len_satellites := 3;
     len_ground_stations := 2;
     sat_net_graph_without_gs :=
       [(0, [(1, 1%Z)]); (1, [(0, 1%Z); (2, 1%Z)]); (2, [(1, 1%Z)])];
     ground_station_satellites_in_range := [[(Fin 5, 0)]; [(Fin 5, 2)]];
     num_isls_per_sat := [1; 2; 1]%Z;
     sat_neighbor_to_if :=
       list_to_map [((0, 1), 0%Z); ((1, 0), 0%Z); ((1, 2), 1%Z); ((2, 1), 0%Z)];
     list_gsl_interfaces_info := replicate 5 (gsl_info 10);
     prev_output := None |}.

(** Two satellites joined by a link of length 2 * 10^15; ground station 2
    sees satellite 1 at distance 5. *)
Definition example_far : Input :=
  {| time_since_epoch_ns := 0;
     len_satellites := 2;
     len_ground_stations := 1;
     sat_net_graph_without_gs :=
       [(0, [(1, 2000000000000000%Z)]); (1, [(0, 2000000000000000%Z)])];
     ground_station_satellites_in_range := [[(Fin 5, 1)]];
     num_isls_per_sat := [1; 1]%Z;
     sat_neighbor_to_if := list_to_map [((0, 1), 0%Z); ((1, 0), 0%Z)];
     list_gsl_interfaces_info := replicate 3 (gsl_info 10);
     prev_output := None |}.

(** Two satellites joined by a link of length 1; ground station 2 sees
    satellite 1 at distance 4 and satellite 0 at distance 5, in this
    order. *)
Definition example_tie : Input :=
  {| time_since_epoch_ns := 0;
     len_satellites := 2;
     len_ground_stations := 1;
     sat_net_graph_without_gs := [(0, [(1, 1%Z)]); (1, [(0, 1%Z)])];
     ground_station_satellites_in_range := [[(Fin 4, 1); (Fin 5, 0)]];
     num_isls_per_sat := [1; 1]%Z;
     sat_neighbor_to_if := list_to_map [((0, 1), 0%Z); ((1, 0), 0%Z)];
     list_gsl_interfaces_info := replicate 3 (gsl_info 10);
     prev_output := None |}.

(** A graph of two nodes, 1 and 5, joined by a link, given as the graph of
    two satellites. *)
Definition example_gap : Input :=
  {| time_since_epoch_ns := 0;
     len_satellites := 2;
     len_ground_stations := 1;
     sat_net_graph_without_gs := [(1, [(5, 1%Z)]); (5, [(1, 1%Z)])];
     ground_station_satellites_in_range := [[]];
     num_isls_per_sat := [1; 1]%Z;
     sat_neighbor_to_if := ∅;
     list_gsl_interfaces_info := replicate 3 (gsl_info 10);
     prev_output := None |}.

(** The run of [example_line] from no files. *)
Definition example_line_world : World :=
  Eval vm_compute in (forwarding_state example_line no_files).1.

Definition example_line_fstate : Fstate :=
  Eval vm_compute in
    match (forwarding_state example_line no_files).2 with
    | Ok (fs, _) => fs
    | Err _ => ∅
    end.

Definition example_line_cache : gmap (nat * nat) Dist :=
  Eval vm_compute in
    match (forwarding_state example_line no_files).2 with
    | Ok (_, cache) => cache
    | Err _ => ∅
    end.

(** The files after the epoch of [example_line]. *)
Definition example_line_files : World :=
  Eval vm_compute in (algorithm_free_one_only_over_isls example_line no_files).1.

(** [example_line] with a visibility list that names satellite 7. *)
Definition example_bad_visibility : Input :=
  {| time_since_epoch_ns := 0;
     len_satellites := 3;
     len_ground_stations := 2;
     sat_net_graph_without_gs :=
       [(0, [(1, 1%Z)]); (1, [(0, 1%Z); (2, 1%Z)]); (2, [(1, 1%Z)])];
     ground_station_satellites_in_range := [[(Fin 5, 0)]; [(Fin 5, 7)]];
     num_isls_per_sat := [1; 2; 1]%Z;
     sat_neighbor_to_if :=
       list_to_map [((0, 1), 0%Z); ((1, 0), 0%Z); ((1, 2), 1%Z); ((2, 1), 0%Z)];
     list_gsl_interfaces_info := replicate 5 (gsl_info 10);
     prev_output := None |}.

(** [example_line] with ground station 4 out of range of every satellite. *)
Definition example_out_of_range : Input :=
  {| time_since_epoch_ns := 0;
     len_satellites := 3;
     len_ground_stations := 2;
     sat_net_graph_without_gs :=
       [(0, [(1, 1%Z)]); (1, [(0, 1%Z); (2, 1%Z)]); (2, [(1, 1%Z)])];
     ground_station_satellites_in_range := [[(Fin 5, 0)]; []];
     num_isls_per_sat := [1; 2; 1]%Z;
     sat_neighbor_to_if :=
       list_to_map [((0, 1), 0%Z); ((1, 0), 0%Z); ((1, 2), 1%Z); ((2, 1), 0%Z)];
     list_gsl_interfaces_info := replicate 5 (gsl_info 10);
     prev_output := None |}.

(** A previous table for [example_line] that differs from the one computed
    in the entry of satellite 0 for ground station 3. *)
Definition example_line_stale : Fstate :=
  <[(0, 3) := drop]> example_line_fstate.

(** [example_line] without the bandwidth of its last node. *)
Definition example_no_bandwidth : Input :=
  {| time_since_epoch_ns := 0;
     len_satellites := 3;
     len_ground_stations := 2;
     sat_net_graph_without_gs :=
       [(0, [(1, 1%Z)]); (1, [(0, 1%Z); (2, 1%Z)]); (2, [(1, 1%Z)])];
     ground_station_satellites_in_range := [[(Fin 5, 0)]; [(Fin 5, 2)]];
     num_isls_per_sat := [1; 2; 1]%Z;
     sat_neighbor_to_if :=
       list_to_map [((0, 1), 0%Z); ((1, 0), 0%Z); ((1, 2), 1%Z); ((2, 1), 0%Z)];
     list_gsl_interfaces_info := replicate 4 (gsl_info 10);
     prev_output := None |}.


(** * Properties *)

(** ** The order of candidates and [sorted] *)

Lemma tuple_le_spec (x y : Candidate) :
  tuple_le x y <->
  (DistOps.ltb x.1 y.1 = true \/ (x.1 = y.1 /\ x.2 <= y.2)).
Proof.
  unfold tuple_le, tuple_lt.
  destruct x as [x n], y as [y m]; cbn [fst snd].
  destruct (decide (y = x)) as [->|Hne].
  - rewrite Nat.ltb_ge. split; [by right|].
    intros [H|[_ H]]; [|done].
    destruct x; simpl in H; [lia|done].
  - split.
    + intros H. left. destruct x, y; simpl in *; try done.
      assert (d <> d0) by congruence. lia.
    + intros [H|[H _]]; [|congruence].
      destruct x, y; simpl in *; try done. lia.
Qed.

Lemma tuple_le_refl (x : Candidate) : tuple_le x x.
Proof. apply tuple_le_spec. right. split; [done|lia]. Qed.

Lemma tuple_le_total (x y : Candidate) : tuple_lt x y = true -> tuple_le x y.
Proof.
  intros H. apply tuple_le_spec. revert H. unfold tuple_lt.
  destruct (decide (x.1 = y.1)) as [E|_].
  - rewrite Nat.ltb_lt. intros. right. split; [done|lia].
  - intros H. by left.
Qed.

Lemma tuple_le_trans (x y z : Candidate) :
  tuple_le x y -> tuple_le y z -> tuple_le x z.
Proof.
  rewrite !tuple_le_spec.
  destruct x as [x n], y as [y m], z as [z k]; cbn [fst snd].
  intros [H1|[-> H1]] [H2|[-> H2]].
  - left. destruct x, y, z; simpl in *; try done. lia.
  - by left.
  - by left.
  - right. split; [done|lia].
Qed.

Lemma sorted_insert_perm (x : Candidate) (l : list Candidate) :
  sorted_insert x l ≡ₚ x :: l.
Proof.
  induction l as [|y l IH]; simpl; [done|].
  destruct (tuple_lt y x); [|done].
  rewrite IH. apply Permutation_swap.
Qed.

Lemma sorted_perm (l : list Candidate) : sorted l ≡ₚ l.
Proof.
  induction l as [|x l IH]; simpl; [done|].
  by rewrite sorted_insert_perm, IH.
Qed.

Lemma sorted_insert_StronglySorted (x : Candidate) (l : list Candidate) :
  StronglySorted tuple_le l -> StronglySorted tuple_le (sorted_insert x l).
Proof.
  induction 1 as [|y l Hl IH Hy]; simpl.
  - repeat constructor.
  - destruct (tuple_lt y x) eqn:E.
    + constructor; [done|].
      rewrite sorted_insert_perm. constructor; [|done].
      by apply tuple_le_total.
    + constructor; [by constructor|].
      constructor; [done|].
      eapply Forall_impl; [exact Hy|].
      intros z Hz. by eapply tuple_le_trans.
Qed.

Lemma sorted_StronglySorted (l : list Candidate) :
  StronglySorted tuple_le (sorted l).
Proof.
  induction l; simpl; [constructor|by apply sorted_insert_StronglySorted].
Qed.

(** The first element of [sorted l] is a least element of [l]. *)
Lemma sorted_head_least (l : list Candidate) (x : Candidate) (t : list Candidate) :
  sorted l = x :: t -> x ∈ l /\ forall y, y ∈ l -> tuple_le x y.
Proof.
  intros E. pose proof (sorted_StronglySorted l) as HS.
  pose proof (sorted_perm l) as HP. rewrite E in HS, HP.
  split.
  - rewrite <- HP. by left.
  - intros y Hy. rewrite <- HP in Hy.
    apply StronglySorted_inv in HS as [_ HF].
    apply elem_of_cons in Hy as [->|Hy]; [apply tuple_le_refl|].
    by eapply Forall_forall in HF.
Qed.

Lemma sorted_nil_inv (l : list Candidate) : sorted l = [] -> l = [].
Proof.
  intros E. apply Permutation_nil_r. rewrite <- E. by rewrite sorted_perm.
Qed.

(** ** The monads *)

Lemma Result_bind_Ok {A B : Type} (r : Result A) (f : A -> Result B) (b : B) :
  r ≫= f = Ok b <-> exists a, r = Ok a /\ f a = Ok b.
Proof.
  destruct r as [a|e]; simpl; split.
  - intros H. by exists a.
  - by intros (? & [= <-] & ?).
  - done.
  - by intros (? & ? & _).
Qed.

Lemma subscript_Ok {A : Type} (o : option A) (e : Exception) (a : A) :
  subscript o e = Ok a <-> o = Some a.
Proof. destruct o; simpl; split; congruence. Qed.

Lemma M_bind_Ok {A B : Type} (m : M A) (f : A -> M B) (w w' : World) (b : B) :
  (m ≫= f) w = (w', Ok b) <->
  exists a w1, m w = (w1, Ok a) /\ f a w1 = (w', Ok b).
Proof.
  unfold mbind, M_bind. destruct (m w) as [w1 [a|e]]; split.
  - intros H. by exists a, w1.
  - by intros (? & ? & [= <- <-] & ?).
  - done.
  - by intros (? & ? & ? & _).
Qed.

Lemma M_bind_Err {A B : Type} (m : M A) (f : A -> M B) (w w' : World) (e : Exception) :
  (m ≫= f) w = (w', Err e) <->
  m w = (w', Err e) \/ exists a w1, m w = (w1, Ok a) /\ f a w1 = (w', Err e).
Proof.
  unfold mbind, M_bind. destruct (m w) as [w1 [a|e1]]; split.
  - intros H. right. by exists a, w1.
  - intros [?|(? & ? & ? & ?)]; by simplify_eq.
  - intros H. simplify_eq. by left.
  - intros [?|(? & ? & ? & _)]; by simplify_eq.
Qed.

Lemma for_eachM_ext {A St : Type} (l : list A) (body body' : A -> St -> M St) st w :
  (forall x st w, body x st w = body' x st w) ->
  for_eachM l body st w = for_eachM l body' st w.
Proof.
  intros E. revert st w. induction l as [|x l IH]; intros st w; simpl; [done|].
  unfold mbind, M_bind. rewrite E. destruct (body' x st w) as [w1 [st1|e]]; [|done].
  apply IH.
Qed.

Lemma for_eachM_app {A St : Type} (l l' : list A) (body : A -> St -> M St) st w :
  for_eachM (l ++ l') body st w = (for_eachM l body st ≫= for_eachM l' body) w.
Proof.
  revert st w. induction l as [|x l IH]; intros st w; simpl; [done|].
  unfold mbind, M_bind in *.
  destruct (body x st w) as [w1 [st1|e]]; [|done]. apply IH.
Qed.

Lemma for_eachM_fmap {A B St : Type} (g : A -> B) (l : list A) (body : B -> St -> M St) st w :
  for_eachM (g <$> l) body st w = for_eachM l (fun x => body (g x)) st w.
Proof.
  revert st w. induction l as [|x l IH]; intros st w; simpl; [done|].
  unfold mbind, M_bind. destruct (body (g x) st w) as [w1 [st1|e]]; [|done].
  apply IH.
Qed.

(** Two nested loops are one loop over the pairs. *)
Lemma for_eachM_pairs {A B St : Type} (l1 : list A) (f : A -> list B)
    (body : A -> B -> St -> M St) st w :
  for_eachM l1 (fun x st => for_eachM (f x) (body x) st) st w =
  for_eachM (pairs l1 f) (fun p => body p.1 p.2) st w.
Proof.
  unfold pairs. revert st w.
  induction l1 as [|x l1 IH]; intros st w; [done|].
  rewrite bind_cons, for_eachM_app.
  cbn [for_eachM]. unfold mbind at 1 2, M_bind.
  rewrite for_eachM_fmap. cbn [fst snd].
  destruct (for_eachM (f x) (body x) st w) as [w1 [st1|e]]; [|done].
  apply IH.
Qed.

(** A loop that skips the elements outside [P] is a loop over the
    elements in [P]. *)
Lemma for_eachM_filter {A St : Type} (P : A -> Prop) `{!forall x, Decision (P x)}
    (l : list A) (body : A -> St -> M St) st w :
  for_eachM l (fun x st => if decide (P x) then body x st else mret st) st w =
  for_eachM (filter P l) body st w.
Proof.
  revert st w. induction l as [|x l IH]; intros st w; simpl; [done|].
  rewrite filter_cons. unfold mbind at 1, M_bind.
  destruct (decide (P x)); simpl.
  - unfold mbind, M_bind. destruct (body x st w) as [w1 [st1|e]]; [|done].
    apply IH.
  - apply IH.
Qed.

Lemma write_lines_nil (w : World) : write_lines [] w = w.
Proof.
  destruct w as [b [f|]]; unfold write_lines; simpl; [|done].
  by rewrite app_nil_r.
Qed.

Lemma write_lines_app (l1 l2 : list FstateLine) (w : World) :
  write_lines l2 (write_lines l1 w) = write_lines (l1 ++ l2) w.
Proof.
  destruct w as [b [f|]]; unfold write_lines; simpl; [|done].
  by rewrite app_assoc.
Qed.

(** ** Writing one entry *)

Lemma changed_Ok prev k v b :
  changed prev k v = Ok b -> b = bool_decide (is_changed prev (k, v)).
Proof.
  unfold changed, is_changed. destruct prev as [p|]; simpl.
  - destruct (decide (p = ∅)) as [->|Hne].
    + intros [= <-]. rewrite lookup_empty. by rewrite bool_decide_eq_true_2.
    + destruct (p !! k) as [old|] eqn:E; simpl; [|done].
      intros [= <-]. apply bool_decide_ext. split; congruence.
  - intros [= <-]. done.
Qed.

Lemma changed_Err prev k v e :
  changed prev k v = Err e ->
  exists p, prev = Some p /\ p <> ∅ /\ p !! k = None /\
            e = KeyError (KeyPair k.1 k.2).
Proof.
  unfold changed. destruct prev as [p|]; [|done].
  destruct (decide (p = ∅)) as [->|Hne]; [done|].
  destruct (p !! k) as [old|] eqn:E; simpl; [done|].
  intros [= <-]. by exists p.
Qed.

Lemma changed_lookup p k v old :
  p !! k = Some old ->
  changed (Some p) k v = Ok (bool_decide (old <> v)).
Proof.
  intros E. unfold changed.
  destruct (decide (p = ∅)) as [->|Hne]; [by rewrite lookup_empty in E|].
  by rewrite E.
Qed.

Lemma changed_missing p k v :
  p <> ∅ -> p !! k = None ->
  changed (Some p) k v = Err (KeyError (KeyPair k.1 k.2)).
Proof.
  intros Hne E. unfold changed. destruct (decide (p = ∅)); [done|]. by rewrite E.
Qed.

Lemma update_fstate_eq prev k v fs w :
  update_fstate prev k v fs w =
  match changed prev k v with
  | Ok b => (if b then write_lines [(k, v)] w else w, Ok (<[k := v]> fs))
  | Err e => (w, Err e)
  end.
Proof.
  unfold update_fstate, mbind, M_bind, lift.
  destruct (changed prev k v) as [[|]|e]; done.
Qed.

Section TableLoop.

Context {A : Type}.
Variable prev : option Fstate.
Variable key : A -> nat * nat.
Variable decision : A -> Result Entry.

Lemma table_body_eq x fs w :
  table_body prev key decision x fs w =
  match decision x with
  | Ok v => update_fstate prev (key x) v fs w
  | Err e => (w, Err e)
  end.
Proof.
  unfold table_body, mbind, M_bind, lift. by destruct (decision x).
Qed.

Lemma table_body_ok x fs w :
  item_ok prev key decision x ->
  table_body prev key decision x fs w =
  (write_lines (filter (is_changed prev) (entries key decision [x])) w,
   Ok (insert_all (entries key decision [x]) fs)).
Proof.
  intros (v & b & Hd & Hc).
  rewrite table_body_eq, Hd, update_fstate_eq, Hc.
  unfold entries, entry_of. simpl. rewrite Hd.
  apply changed_Ok in Hc as ->. rewrite filter_cons, filter_nil.
  unfold insert_all. simpl.
  destruct (decide (is_changed prev (key x, v))).
  - by rewrite bool_decide_eq_true_2.
  - by rewrite bool_decide_eq_false_2, write_lines_nil.
Qed.

Lemma table_body_Ok_inv x fs w w' fs' :
  table_body prev key decision x fs w = (w', Ok fs') -> item_ok prev key decision x.
Proof.
  rewrite table_body_eq. destruct (decision x) as [v|] eqn:Hd; [|done].
  rewrite update_fstate_eq. destruct (changed prev (key x) v) as [b|] eqn:Hc; [|done].
  intros _. by exists v, b.
Qed.

(** The loop over [items] succeeds exactly when every turn does; it then
    assigns every entry and writes the changed ones. *)
Lemma table_loop_Ok items fs w w' fs' :
  for_eachM items (table_body prev key decision) fs w = (w', Ok fs') <->
  Forall (item_ok prev key decision) items /\
  fs' = insert_all (entries key decision items) fs /\
  w' = write_lines (filter (is_changed prev) (entries key decision items)) w.
Proof.
  revert fs w. induction items as [|x items IH]; intros fs w; cbn [for_eachM].
  - unfold mret, M_ret. rewrite write_lines_nil. split.
    + intros [= <- <-]. by split.
    + by intros (_ & -> & ->).
  - rewrite M_bind_Ok. split.
    + intros (fs1 & w1 & Hx & Hl).
      pose proof (table_body_Ok_inv _ _ _ _ _ Hx) as Hok.
      rewrite (table_body_ok _ _ _ Hok) in Hx. injection Hx as <- <-.
      apply IH in Hl as (HF & -> & ->). split; [by constructor|].
      split; [done|].
      change (entries key decision (x :: items))
        with (entries key decision [x] ++ entries key decision items).
      by rewrite filter_app, write_lines_app.
    + intros (HF & -> & ->). apply Forall_cons in HF as [Hok HF].
      eexists _, _. split; [by apply table_body_ok|].
      apply IH. split; [done|]. split; [done|].
      change (entries key decision (x :: items))
        with (entries key decision [x] ++ entries key decision items).
      by rewrite filter_app, write_lines_app.
Qed.

End TableLoop.

(** ** Tables built by assignments *)

Section InsertAll.

Context {V : Type}.
Implicit Types (ds : list ((nat * nat) * V)) (fs : gmap (nat * nat) V).

Lemma insert_all_app ds1 ds2 fs :
  insert_all (ds1 ++ ds2) fs = insert_all ds2 (insert_all ds1 fs).
Proof. unfold insert_all. by rewrite foldl_app. Qed.

Lemma insert_all_lookup_notin ds fs k :
  k ∉ ds.*1 -> insert_all ds fs !! k = fs !! k.
Proof.
  revert fs. induction ds as [|[k' v'] ds IH]; intros fs Hk; [done|].
  rewrite fmap_cons, not_elem_of_cons in Hk. destruct Hk as [Hne Hk].
  unfold insert_all in *. cbn [foldl fst snd].
  rewrite IH by done. by rewrite lookup_insert_ne.
Qed.

Lemma insert_all_lookup ds fs k v :
  NoDup ds.*1 -> (k, v) ∈ ds -> insert_all ds fs !! k = Some v.
Proof.
  revert fs. induction ds as [|[k' v'] ds IH]; intros fs Hnd Hin.
  - by apply elem_of_nil in Hin.
  - rewrite fmap_cons in Hnd. apply NoDup_cons in Hnd as [Hk' Hnd].
    apply elem_of_cons in Hin as [[= <- <-]|Hin].
    + change (insert_all ((k, v) :: ds) fs) with (insert_all ds (<[k := v]> fs)).
      rewrite insert_all_lookup_notin by done. by rewrite lookup_insert_eq.
    + by apply IH.
Qed.

Lemma insert_all_lookup_Some ds k v :
  insert_all ds ∅ !! k = Some v -> (k, v) ∈ ds.
Proof.
  induction ds as [|[k' v'] ds IH] using rev_ind.
  - unfold insert_all. simpl. by rewrite lookup_empty.
  - rewrite insert_all_app. unfold insert_all at 1. cbn [foldl fst snd].
    destruct (decide (k' = k)) as [->|Hne].
    + rewrite lookup_insert_eq. intros [= ->]. apply elem_of_app. right. by left.
    + rewrite lookup_insert_ne by done. intros H. apply elem_of_app. left. by apply IH.
Qed.

Lemma dom_insert_all ds fs :
  dom (insert_all ds fs) = list_to_set ds.*1 ∪ dom fs.
Proof.
  revert fs. induction ds as [|[k v] ds IH]; intros fs.
  - simpl. by rewrite union_empty_l_L.
  - change (insert_all ((k, v) :: ds) fs) with (insert_all ds (<[k := v]> fs)).
    rewrite IH, dom_insert_L, fmap_cons. simpl.
    by rewrite (assoc_L (∪)), (comm_L (∪) (list_to_set ds.*1) {[k]}).
Qed.

End InsertAll.

(** ** The two stages as loops over their pairs *)

Section StageLoops.

Variable inp : Input.
Variable dist : Matrix.
Variable prev : option Fstate.

(** The first stage is a table loop that also fills the cache. *)
Lemma sat_to_gs_loop items fs cache w :
  for_eachM items (fun p => sat_to_gs_turn inp dist prev p.1 p.2) (fs, cache) w =
  match for_eachM items
          (table_body prev (sat_gs_key inp) (sat_to_gs_entry inp dist)) fs w with
  | (w', Ok fs') => (w', Ok (fs', insert_all (sat_gs_distances inp dist items) cache))
  | (w', Err e) => (w', Err e)
  end.
Proof.
  revert fs cache w. induction items as [|[curr g] items IH]; intros fs cache w.
  - done.
  - cbn [for_eachM]. unfold mbind at 1 2, M_bind.
    rewrite table_body_eq. unfold sat_to_gs_turn at 1. cbn [fst snd].
    unfold mbind at 1, M_bind, lift at 1.
    unfold sat_to_gs_entry at 1. cbn [fst snd].
    destruct (sat_to_gs_decision inp dist curr g) as [[e d]|err] eqn:Hd;
      cbn [mbind Result_bind]. 2:{ reflexivity. }
    unfold mbind at 1, M_bind.
    change (sat_gs_key inp (curr, g)) with (curr, len_satellites inp + g).
    destruct (update_fstate prev (curr, len_satellites inp + g) e fs w)
      as [w1 [fs1|err]]; [|done].
    unfold mret at 1, M_ret. rewrite IH.
    destruct (for_eachM items _ fs1 w1) as [w2 [fs2|err]]; [|done].
    do 2 f_equal. f_equal.
    unfold sat_gs_distances. rewrite fmap_cons.
    unfold insert_all. cbn [foldl fst snd].
    unfold sat_to_gs_distance at 2, sat_gs_key at 2. cbn [fst snd].
    by rewrite Hd.
Qed.

Lemma satellites_to_ground_stations_eq w :
  satellites_to_ground_stations inp dist prev w =
  match for_eachM (sat_gs_items inp)
          (table_body prev (sat_gs_key inp) (sat_to_gs_entry inp dist)) ∅ w with
  | (w', Ok fs') =>
      (w', Ok (fs', insert_all (sat_gs_distances inp dist (sat_gs_items inp)) ∅))
  | (w', Err e) => (w', Err e)
  end.
Proof.
  unfold satellites_to_ground_stations.
  rewrite (for_eachM_pairs _ (fun _ => seq 0 (len_ground_stations inp))
             (sat_to_gs_turn inp dist prev)).
  apply sat_to_gs_loop.
Qed.

Variable cache : gmap (nat * nat) Dist.

Lemma ground_stations_to_ground_stations_eq fs w :
  ground_stations_to_ground_stations inp prev cache fs w =
  for_eachM (gs_gs_items inp)
    (table_body prev (gs_gs_key inp) (gs_to_gs_entry inp cache)) fs w.
Proof.
  unfold ground_stations_to_ground_stations, gs_gs_items.
  rewrite <- (for_eachM_pairs _ _
    (fun s d => table_body prev (gs_gs_key inp) (gs_to_gs_entry inp cache) (s, d))).
  apply for_eachM_ext. intros s fs1 w1.
  rewrite <- for_eachM_filter. apply for_eachM_ext. intros d fs2 w2.
  unfold gs_to_gs_turn. by destruct (decide (s <> d)).
Qed.

End StageLoops.

(** ** The forwarding state of an epoch *)

Lemma forwarding_state_Ok inp w w' fs cache :
  forwarding_state inp w = (w', Ok (fs, cache)) <->
  all_items_ok inp /\
  fs = insert_all (table_lines inp) ∅ /\
  cache = cache_of inp /\
  w' = {| gsl_if_bandwidth_file := gsl_if_bandwidth_file w;
          fstate_file := Some (filter (is_changed (prev_fstate_of inp))
                                      (table_lines inp)) |}.
Proof.
  unfold forwarding_state, all_items_ok, table_lines.
  fold (dist_of inp). fold (prev_fstate_of inp).
  unfold mbind at 1, M_bind. unfold open_fstate at 1.
  unfold mbind at 1, M_bind.
  rewrite satellites_to_ground_stations_eq. fold (cache_of inp).
  set (w0 := {| gsl_if_bandwidth_file := gsl_if_bandwidth_file w;
                fstate_file := Some [] |}).
  destruct (for_eachM (sat_gs_items inp) _ ∅ w0) as [w1 [fs1|e]] eqn:H1.
  - apply table_loop_Ok in H1 as (HF1 & -> & ->).
    unfold mbind at 1, M_bind.
    rewrite ground_stations_to_ground_stations_eq.
    destruct (for_eachM (gs_gs_items inp) _ _ _) as [w2 [fs2|e]] eqn:H2.
    + apply table_loop_Ok in H2 as (HF2 & -> & ->).
      unfold mret, M_ret. rewrite write_lines_app, <- filter_app, <- insert_all_app.
      fold (sat_gs_lines inp). fold (gs_gs_lines inp).
      split.
      * intros [= <- <- <-]. done.
      * intros (_ & -> & -> & ->). done.
    + split; [done|]. intros ([_ HF2] & _).
      assert (for_eachM (gs_gs_items inp)
                (table_body (prev_fstate_of inp) (gs_gs_key inp)
                   (gs_to_gs_entry inp (cache_of inp)))
                (insert_all (sat_gs_lines inp) ∅)
                (write_lines (filter (is_changed (prev_fstate_of inp))
                                     (sat_gs_lines inp)) w0)
              = (write_lines (filter (is_changed (prev_fstate_of inp))
                                     (gs_gs_lines inp))
                   (write_lines (filter (is_changed (prev_fstate_of inp))
                                     (sat_gs_lines inp)) w0),
                 Ok (insert_all (gs_gs_lines inp) (insert_all (sat_gs_lines inp) ∅))))
        as E by (by apply table_loop_Ok).
      unfold sat_gs_lines, gs_gs_lines in E. rewrite E in H2. done.
  - split; [done|]. intros ([HF1 _] & _).
    assert (for_eachM (sat_gs_items inp)
              (table_body (prev_fstate_of inp) (sat_gs_key inp)
                 (sat_to_gs_entry inp (dist_of inp))) ∅ w0
            = (write_lines (filter (is_changed (prev_fstate_of inp))
                                   (sat_gs_lines inp)) w0,
               Ok (insert_all (sat_gs_lines inp) ∅)))
      as E by (by apply table_loop_Ok).
    unfold sat_gs_lines in E. rewrite E in H1. done.
Qed.

(** ** The bandwidth state *)

(** A loop that writes one bandwidth line per element appends lines to
    the bandwidth file and touches nothing else; lines and outcome do not
    depend on the files. *)
Lemma bandwidth_loop (mk : nat -> Result BandwidthLine) (l : list nat) :
  exists lines r, forall w,
    for_eachM l (fun node_id (_ : unit) =>
                   line ← lift (mk node_id); write_gsl_if_bandwidth line) tt w =
    ({| gsl_if_bandwidth_file := (fun f => f ++ lines) <$> gsl_if_bandwidth_file w;
        fstate_file := fstate_file w |}, r).
Proof.
  induction l as [|x l (lines & r & IH)].
  - exists [], (Ok tt). intros [[b|] f]; simpl; unfold mret, M_ret; simpl;
      by rewrite ?app_nil_r.
  - destruct (mk x) as [line|e] eqn:E.
    + exists (line :: lines), r. intros w. cbn [for_eachM].
      unfold mbind, M_bind, lift. rewrite E.
      unfold write_gsl_if_bandwidth at 1. rewrite IH. simpl.
      destruct (gsl_if_bandwidth_file w); simpl; [|done].
      by rewrite <- app_assoc.
    + exists [], (Err e). intros [[b|] f]; cbn [for_eachM];
        unfold mbind, M_bind, lift; rewrite E; simpl; by rewrite ?app_nil_r.
Qed.

Lemma bandwidth_state_spec inp :
  exists lines r, forall w,
    bandwidth_state inp w =
    ({| gsl_if_bandwidth_file := Some lines; fstate_file := fstate_file w |}, r).
Proof.
  unfold bandwidth_state.
  destruct (decide (time_since_epoch_ns inp = 0%Z)) as [_|_].
  - destruct (bandwidth_loop
                (fun node_id =>
                   n ← subscript (num_isls_per_sat inp !! node_id) IndexError;
                   bw ← aggregate_max_bandwidth inp node_id;
                   Ok (node_id, n, bw))
                (seq 0 (len_satellites inp))) as (l1 & r1 & H1).
    destruct (bandwidth_loop
                (fun node_id =>
                   bw ← aggregate_max_bandwidth inp node_id;
                   Ok (node_id, 0%Z, bw))
                (seq (len_satellites inp) (len_ground_stations inp)))
      as (l2 & r2 & H2).
    destruct r1 as [[]|e1].
    + exists (l1 ++ l2), r2. intros w.
      unfold mbind at 1, M_bind. unfold open_gsl_if_bandwidth at 1.
      unfold mbind at 1, M_bind. rewrite H1. rewrite H2. simpl. done.
    + exists l1, (Err e1). intros w.
      unfold mbind at 1, M_bind. unfold open_gsl_if_bandwidth at 1.
      unfold mbind at 1, M_bind. rewrite H1. done.
  - exists [], (Ok tt). intros w. done.
Qed.

(** ** The whole epoch *)

Lemma algorithm_Ok inp w w' out :
  algorithm_free_one_only_over_isls inp w = (w', Ok out) <->
  check_graph (sat_net_graph_without_gs inp) (len_satellites inp) = Ok tt /\
  exists w1, bandwidth_state inp w = (w1, Ok tt) /\
             forwarding_state inp w1 = (w', Ok (fstate out, cache_of inp)).
Proof.
  unfold algorithm_free_one_only_over_isls.
  unfold mbind at 1, M_bind. unfold lift at 1.
  destruct (check_graph _ _) as [[]|e].
  2:{ split; [done|]. by intros [? _]. }
  unfold mbind at 1, M_bind.
  destruct (bandwidth_state inp w) as [w1 [[]|e]].
  2:{ split; [done|]. by intros (_ & ? & ? & _). }
  unfold mbind at 1, M_bind.
  destruct (forwarding_state inp w1) as [w2 [[fs cache]|e]] eqn:E.
  - pose proof E as E'. apply forwarding_state_Ok in E' as (_ & _ & -> & _).
    unfold mret, M_ret. split.
    + intros [= <- <-]. split; [done|]. by exists w1.
    + intros (_ & ? & ? & H0). simplify_eq. rewrite E in H0.
      simplify_eq. by destruct out.
  - split; [done|]. intros (_ & ? & ? & H0). simplify_eq.
    rewrite E in H0. by simplify_eq.
Qed.

(** What a successful epoch returns and writes. *)
Lemma algorithm_Ok_spec inp w w' out :
  algorithm_free_one_only_over_isls inp w = (w', Ok out) ->
  all_items_ok inp /\
  fstate out = insert_all (table_lines inp) ∅ /\
  fstate_file w' = Some (filter (is_changed (prev_fstate_of inp)) (table_lines inp)).
Proof.
  intros (_ & w1 & _ & H)%algorithm_Ok.
  apply forwarding_state_Ok in H as (Hok & Hfs & _ & ->). done.
Qed.

(** ** The computed pairs *)

Lemma elem_of_pairs {A B : Type} (l : list A) (f : A -> list B) (p : A * B) :
  p ∈ pairs l f <-> p.1 ∈ l /\ p.2 ∈ f p.1.
Proof.
  unfold pairs. rewrite list_elem_of_bind. destruct p as [x y]. simpl. split.
  - intros (x' & Hy & Hx). apply list_elem_of_fmap in Hy as (y' & [= -> ->] & Hy).
    done.
  - intros [Hx Hy]. exists x. split; [|done]. by apply list_elem_of_fmap_2.
Qed.

Lemma NoDup_pairs {A B : Type} (l : list A) (f : A -> list B) :
  NoDup l -> (forall x, x ∈ l -> NoDup (f x)) -> NoDup (pairs l f).
Proof.
  intros Hl Hf. unfold pairs. apply NoDup_bind; [| |done].
  - intros x1 x2 [x y] _ _ H1 H2.
    apply list_elem_of_fmap in H1 as (? & [= -> _] & _).
    apply list_elem_of_fmap in H2 as (? & [= -> _] & _). done.
  - intros x Hx. apply NoDup_fmap_2; [|by apply Hf].
    by intros ?? [= ->].
Qed.

Lemma length_pairs {A B : Type} (l : list A) (f : A -> list B) (n : nat) :
  (forall x, x ∈ l -> length (f x) = n) -> length (pairs l f) = length l * n.
Proof.
  unfold pairs. induction l as [|x l IH]; intros Hf; [done|].
  rewrite bind_cons, length_app, length_fmap, Hf by left.
  rewrite IH; [simpl; lia|]. intros y Hy. apply Hf. by right.
Qed.

Lemma elem_of_sat_gs_items inp curr g :
  (curr, g) ∈ sat_gs_items inp <->
  curr < len_satellites inp /\ g < len_ground_stations inp.
Proof.
  unfold sat_gs_items. rewrite elem_of_pairs, !elem_of_seq. simpl. lia.
Qed.

Lemma elem_of_gs_gs_items inp s d :
  (s, d) ∈ gs_gs_items inp <->
  s < len_ground_stations inp /\ d < len_ground_stations inp /\ s <> d.
Proof.
  unfold gs_gs_items.
  rewrite elem_of_pairs, list_elem_of_filter, !elem_of_seq. simpl. lia.
Qed.

Lemma NoDup_sat_gs_items inp : NoDup (sat_gs_items inp).
Proof. apply NoDup_pairs; [apply NoDup_seq|]. intros. apply NoDup_seq. Qed.

Lemma NoDup_gs_gs_items inp : NoDup (gs_gs_items inp).
Proof.
  apply NoDup_pairs; [apply NoDup_seq|]. intros.
  apply NoDup_filter, NoDup_seq.
Qed.

Lemma length_sat_gs_items inp :
  length (sat_gs_items inp) = len_satellites inp * len_ground_stations inp.
Proof.
  unfold sat_gs_items.
  rewrite (length_pairs _ _ (len_ground_stations inp)); rewrite ?length_seq; done.
Qed.

(** A row of the second stage leaves out exactly its own ground station. *)
Lemma length_filter_ne (s n : nat) :
  s < n -> length (filter (fun d => s <> d) (seq 0 n)) = n - 1.
Proof.
  intros Hs.
  replace n with (s + (1 + (n - s - 1))) at 1 by lia.
  rewrite !seq_app, !filter_app, !length_app. simpl seq.
  rewrite filter_cons, decide_False by (intros H; by apply H).
  rewrite filter_nil.
  assert (forall a k, (forall d, d ∈ seq a k -> s <> d) ->
                      filter (fun d => s <> d) (seq a k) = seq a k) as Hall.
  { intros a k H. induction (seq a k) as [|y l IH]; [done|].
    rewrite filter_cons, decide_True by (apply H; by left).
    f_equal. apply IH. intros d Hd. apply H. by right. }
  rewrite !Hall, !length_seq; [simpl; lia|..];
    intros d Hd%elem_of_seq; lia.
Qed.

Lemma length_gs_gs_items inp :
  length (gs_gs_items inp) =
  len_ground_stations inp * (len_ground_stations inp - 1).
Proof.
  unfold gs_gs_items.
  rewrite (length_pairs _ _ (len_ground_stations inp - 1)).
  - by rewrite length_seq.
  - intros s Hs%elem_of_seq. apply length_filter_ne. lia.
Qed.

Lemma entries_keys {A : Type} (key : A -> nat * nat) decision (items : list A) :
  (entries key decision items).*1 = key <$> items.
Proof. unfold entries. rewrite <- list_fmap_compose. done. Qed.

Lemma table_lines_keys inp :
  (table_lines inp).*1 =
  (sat_gs_key inp <$> sat_gs_items inp) ++ (gs_gs_key inp <$> gs_gs_items inp).
Proof.
  unfold table_lines, sat_gs_lines, gs_gs_lines.
  by rewrite fmap_app, !entries_keys.
Qed.

Lemma elem_of_sat_gs_keys inp k :
  k ∈ sat_gs_key inp <$> sat_gs_items inp <->
  exists curr g, curr < len_satellites inp /\ g < len_ground_stations inp /\
                 k = (curr, len_satellites inp + g).
Proof.
  rewrite list_elem_of_fmap. split.
  - intros ([curr g] & -> & H%elem_of_sat_gs_items). exists curr, g. tauto.
  - intros (curr & g & ? & ? & ->). exists (curr, g).
    split; [done|]. by apply elem_of_sat_gs_items.
Qed.

Lemma elem_of_gs_gs_keys inp k :
  k ∈ gs_gs_key inp <$> gs_gs_items inp <->
  exists s d, s < len_ground_stations inp /\ d < len_ground_stations inp /\
              s <> d /\ k = (len_satellites inp + s, len_satellites inp + d).
Proof.
  rewrite list_elem_of_fmap. split.
  - intros ([s d] & -> & H%elem_of_gs_gs_items). exists s, d. tauto.
  - intros (s & d & ? & ? & ? & ->). exists (s, d).
    split; [done|]. by apply elem_of_gs_gs_items.
Qed.

Lemma NoDup_table_lines_keys inp : NoDup (table_lines inp).*1.
Proof.
  rewrite table_lines_keys. apply NoDup_app. split_and!.
  - apply NoDup_fmap_2_strong; [|apply NoDup_sat_gs_items].
    intros [a b] [c d] _ _. unfold sat_gs_key. simpl. intros [= -> ?].
    f_equal. lia.
  - intros k (curr & g & Hc & _ & ->)%elem_of_sat_gs_keys
             (s & d & _ & _ & _ & [= -> _])%elem_of_gs_gs_keys. lia.
  - apply NoDup_fmap_2_strong; [|apply NoDup_gs_gs_items].
    intros [a b] [c d] _ _. unfold gs_gs_key. simpl. intros [= ? ?].
    f_equal; lia.
Qed.

Lemma length_table_lines inp :
  length (table_lines inp) =
  len_satellites inp * len_ground_stations inp +
  len_ground_stations inp * (len_ground_stations inp - 1).
Proof.
  unfold table_lines, sat_gs_lines, gs_gs_lines, entries.
  by rewrite length_app, !length_fmap, length_sat_gs_items, length_gs_gs_items.
Qed.

(** The entry of a computed pair in the table. *)
Lemma table_lookup_sat_gs inp curr g :
  curr < len_satellites inp -> g < len_ground_stations inp ->
  insert_all (table_lines inp) ∅ !! (curr, len_satellites inp + g) =
  Some (entry_of (sat_to_gs_entry inp (dist_of inp)) (curr, g)).
Proof.
  intros Hc Hg. apply insert_all_lookup; [apply NoDup_table_lines_keys|].
  unfold table_lines. apply elem_of_app. left.
  unfold sat_gs_lines, entries. apply list_elem_of_fmap.
  exists (curr, g). split; [done|]. by apply elem_of_sat_gs_items.
Qed.

Lemma table_lookup_gs_gs inp s d :
  s < len_ground_stations inp -> d < len_ground_stations inp -> s <> d ->
  insert_all (table_lines inp) ∅ !! (len_satellites inp + s, len_satellites inp + d) =
  Some (entry_of (gs_to_gs_entry inp (cache_of inp)) (s, d)).
Proof.
  intros Hs Hd Hne. apply insert_all_lookup; [apply NoDup_table_lines_keys|].
  unfold table_lines. apply elem_of_app. right.
  unfold gs_gs_lines, entries. apply list_elem_of_fmap.
  exists (s, d). split; [done|]. by apply elem_of_gs_gs_items.
Qed.

Lemma cache_lookup inp curr g :
  curr < len_satellites inp -> g < len_ground_stations inp ->
  cache_of inp !! (curr, len_satellites inp + g) =
  Some (sat_to_gs_distance inp (dist_of inp) (curr, g)).
Proof.
  intros Hc Hg. apply insert_all_lookup.
  - unfold sat_gs_distances. rewrite <- list_fmap_compose.
    apply NoDup_fmap_2_strong; [|apply NoDup_sat_gs_items].
    intros [a b] [c d] _ _. simpl. intros [= -> ?]. f_equal. lia.
  - unfold sat_gs_distances. apply list_elem_of_fmap.
    exists (curr, g). split; [done|]. by apply elem_of_sat_gs_items.
Qed.

(** ** The candidate lists *)

Lemma possibilities_loop (lookup : Dist * nat -> Result Dist)
    (cost : Dist * nat -> Dist -> Dist) (l : list (Dist * nat))
    (acc ps : list Candidate) :
  for_each l (fun b possibilities =>
                d ← lookup b;
                if negb (DistOps.isinf d)
                then Ok (possibilities ++ [(cost b d, b.2)])
                else Ok possibilities) acc = Ok ps <->
  Forall (fun b => exists d, lookup b = Ok d) l /\
  ps = acc ++ (b ← l; match lookup b with
                      | Ok (Fin d) => [(cost b (Fin d), b.2)]
                      | _ => []
                      end).
Proof.
  revert acc. induction l as [|b l IH]; intros acc; cbn [for_each].
  - rewrite app_nil_r. split; [intros [= <-]; by split|by intros [_ ->]].
  - rewrite bind_cons. destruct (lookup b) as [[d|]|e] eqn:E; cbn.
    + rewrite IH, <- app_assoc, Forall_cons. split; [|tauto].
      intros [? ?]. split; [|done]. split; [by eexists|done].
    + rewrite IH, Forall_cons. split; [|tauto].
      intros [? ?]. split; [|done]. split; [by eexists|done].
    + split; [done|]. intros [[[d Hd] _]%Forall_cons _]. congruence.
Qed.

Lemma possibilities_sat_to_gs_Ok dist curr vis ps :
  possibilities_sat_to_gs dist curr vis = Ok ps <->
  Forall (fun b => exists d, matrix_get dist curr b.2 = Ok d) vis /\
  ps = sorted (candidates_sat_to_gs dist curr vis).
Proof.
  unfold possibilities_sat_to_gs. rewrite Result_bind_Ok. split.
  - intros (l & Hl & [= <-]).
    apply (possibilities_loop (fun b => matrix_get dist curr b.2)
             (fun b d => DistOps.add d b.1)) in Hl as [HF ->]. done.
  - intros [HF ->]. eexists. split; [|done].
    by apply (possibilities_loop (fun b => matrix_get dist curr b.2)
                (fun b d => DistOps.add d b.1)).
Qed.

Lemma possibilities_gs_to_gs_Ok cache dst vis ps :
  possibilities_gs_to_gs cache dst vis = Ok ps <->
  Forall (fun a => is_Some (cache !! (a.2, dst))) vis /\
  ps = sorted (candidates_gs_to_gs cache dst vis).
Proof.
  unfold possibilities_gs_to_gs. rewrite Result_bind_Ok.
  assert (forall l : list (Dist * nat), (b ← l; match subscript (cache !! (b.2, dst))
                                    (KeyError (KeyPair b.2 dst)) with
                           | Ok (Fin d) => [(DistOps.add b.1 (Fin d), b.2)]
                           | _ => []
                           end) = candidates_gs_to_gs cache dst l) as Hc.
  { intros l. unfold candidates_gs_to_gs. apply list_bind_ext; [|done].
    intros a. by destruct (cache !! (a.2, dst)) as [[|]|]. }
  assert (forall l : list (Dist * nat), Forall (fun b => exists d,
                      subscript (cache !! (b.2, dst))
                                (KeyError (KeyPair b.2 dst)) = Ok d) l <->
                    Forall (fun a => is_Some (cache !! (a.2, dst))) l) as HF.
  { intros l. apply Forall_proper; [|done]. intros a. unfold is_Some.
    by setoid_rewrite subscript_Ok. }
  split.
  - intros (l & Hl & [= <-]).
    apply (possibilities_loop
             (fun a => subscript (cache !! (a.2, dst)) (KeyError (KeyPair a.2 dst)))
             (fun a d => DistOps.add a.1 d)) in Hl as [HF' ->].
    rewrite Hc. by rewrite <- HF.
  - intros [HF' ->]. eexists. split; [|done].
    apply (possibilities_loop
             (fun a => subscript (cache !! (a.2, dst)) (KeyError (KeyPair a.2 dst)))
             (fun a d => DistOps.add a.1 d)).
    rewrite Hc. by rewrite HF.
Qed.

Lemma elem_of_candidates_sat_to_gs dist curr vis c :
  c ∈ candidates_sat_to_gs dist curr vis <->
  exists a d, (a, c.2) ∈ vis /\ matrix_get dist curr c.2 = Ok (Fin d) /\
              c.1 = DistOps.add (Fin d) a.
Proof.
  unfold candidates_sat_to_gs. rewrite list_elem_of_bind. split.
  - intros ([a s] & Hc & Hb). cbn [fst snd] in Hc.
    destruct (matrix_get dist curr s) as [[d|]|] eqn:E;
      try by apply elem_of_nil in Hc.
    apply list_elem_of_singleton in Hc as ->. by exists a, d.
  - intros (a & d & Hin & E & Hc). exists (a, c.2). split; [|done].
    cbn [fst snd]. rewrite E. apply list_elem_of_singleton.
    destruct c as [c s]. simpl in *. by subst.
Qed.

Lemma elem_of_candidates_gs_to_gs cache dst vis c :
  c ∈ candidates_gs_to_gs cache dst vis <->
  exists a d, (a, c.2) ∈ vis /\ cache !! (c.2, dst) = Some (Fin d) /\
              c.1 = DistOps.add a (Fin d).
Proof.
  unfold candidates_gs_to_gs. rewrite list_elem_of_bind. split.
  - intros ([a s] & Hc & Hb). cbn [fst snd] in Hc.
    destruct (cache !! (s, dst)) as [[d|]|] eqn:E;
      try by apply elem_of_nil in Hc.
    apply list_elem_of_singleton in Hc as ->. by exists a, d.
  - intros (a & d & Hin & E & Hc). exists (a, c.2). split; [|done].
    cbn [fst snd]. rewrite E. apply list_elem_of_singleton.
    destruct c as [c s]. simpl in *. by subst.
Qed.

Lemma tuple_le_cost (x y : Candidate) :
  tuple_le x y -> DistOps.leb x.1 y.1 = true.
Proof.
  intros [H|[-> _]]%tuple_le_spec.
  - destruct x.1, y.1; simpl in *; try done. lia.
  - destruct y.1; simpl; [lia|done].
Qed.

(** ** The decision of a satellite *)

Lemma sat_to_gs_decision_Ok inp dist curr g e d :
  sat_to_gs_decision inp dist curr g = Ok (e, d) ->
  exists vis,
    ground_station_satellites_in_range inp !! g = Some vis /\
    Forall (fun b => exists d, matrix_get dist curr b.2 = Ok d) vis /\
    match sorted (candidates_sat_to_gs dist curr vis) with
    | [] => e = drop /\ d = Inf
    | (c, s) :: _ =>
        d = c /\
        if decide (curr <> s) then
          exists nbrs best,
            neighbors (sat_net_graph_without_gs inp) curr = Ok nbrs /\
            for_each nbrs (next_hop_step inp dist curr s) (drop, best_dist_init)
            = Ok (e, best)
        else
          exists n, num_isls_per_sat inp !! s = Some n /\
                    e = (Z.of_nat (len_satellites inp + g), n, 0%Z)
    end.
Proof.
  unfold sat_to_gs_decision.
  intros (vis & Hvis%subscript_Ok & H)%Result_bind_Ok.
  apply Result_bind_Ok in H as (ps & [HF ->]%possibilities_sat_to_gs_Ok & H).
  exists vis. split; [done|]. split; [done|].
  destruct (sorted _) as [|[c s] t].
  - by injection H as <- <-.
  - destruct (decide (curr <> s)) as [Hne|Heq].
    + apply Result_bind_Ok in H as (nbrs & Hn & H).
      apply Result_bind_Ok in H as ([e' best] & Hl & [= <- <-]).
      split; [done|]. by exists nbrs, best.
    + apply Result_bind_Ok in H as (n & Hn%subscript_Ok & [= <- <-]).
      split; [done|]. by exists n.
Qed.

Lemma selected_sat_to_gs_eq inp dist curr g e d :
  sat_to_gs_decision inp dist curr g = Ok (e, d) ->
  exists vis,
    ground_station_satellites_in_range inp !! g = Some vis /\
    selected_sat_to_gs inp dist curr g =
    head (sorted (candidates_sat_to_gs dist curr vis)).
Proof.
  intros (vis & Hvis & HF & _)%sat_to_gs_decision_Ok.
  exists vis. split; [done|]. unfold selected_sat_to_gs. rewrite Hvis.
  assert (possibilities_sat_to_gs dist curr vis
          = Ok (sorted (candidates_sat_to_gs dist curr vis))) as ->
    by (by apply possibilities_sat_to_gs_Ok).
  by destruct (sorted _).
Qed.

(** *** The search for the next hop *)

Ltac dist_order :=
  repeat match goal with x : Dist |- _ => destruct x end;
  simpl in *; rewrite ?Z.ltb_lt, ?Z.ltb_ge in *; try done; try lia.

Lemma ltb_trans (a b c : Dist) :
  DistOps.ltb a b = true -> DistOps.ltb b c = true -> DistOps.ltb a c = true.
Proof. dist_order. Qed.

Lemma ltb_ge_trans (a b c : Dist) :
  DistOps.ltb a b = true -> DistOps.ltb c b = false -> DistOps.ltb a c = true.
Proof. dist_order. Qed.

Lemma ltb_asym (a b : Dist) : DistOps.ltb a b = true -> DistOps.ltb b a = false.
Proof. dist_order. Qed.

Lemma ltb_irrefl (a : Dist) : DistOps.ltb a a = false.
Proof. dist_order. Qed.

Section NextHop.

Variable inp : Input.
Variable dist : Matrix.
Variables curr dst_sat : nat.

Lemma next_hop_step_Ok n st st' :
  next_hop_step inp dist curr dst_sat n st = Ok st' ->
  (exists d1 d2, matrix_get dist curr n = Ok d1 /\
                 matrix_get dist n dst_sat = Ok d2) /\
  if DistOps.ltb (path_via dist curr dst_sat n) st.2 then
    exists if_out if_in,
      sat_neighbor_to_if inp !! (curr, n) = Some if_out /\
      sat_neighbor_to_if inp !! (n, curr) = Some if_in /\
      st' = ((Z.of_nat n, if_out, if_in), path_via dist curr dst_sat n)
  else st' = st.
Proof.
  unfold next_hop_step, path_via.
  intros (d1 & H1 & H)%Result_bind_Ok.
  apply Result_bind_Ok in H as (d2 & H2 & H). rewrite H1, H2.
  split; [by exists d1, d2|].
  destruct (DistOps.ltb _ _).
  - apply Result_bind_Ok in H as (i1 & Hi1%subscript_Ok & H).
    apply Result_bind_Ok in H as (i2 & Hi2%subscript_Ok & [= <-]).
    by exists i1, i2.
  - by injection H.
Qed.

(** The loop keeps the first neighbour with the least length below the
    bound it started from, if there is one. *)
Lemma next_hop_loop nbrs e0 b0 e b :
  for_each nbrs (next_hop_step inp dist curr dst_sat) (e0, b0) = Ok (e, b) ->
  (e = e0 /\ b = b0 /\
   forall n, n ∈ nbrs -> DistOps.ltb (path_via dist curr dst_sat n) b0 = false)
  \/
  (exists i n if_out if_in,
      nbrs !! i = Some n /\
      sat_neighbor_to_if inp !! (curr, n) = Some if_out /\
      sat_neighbor_to_if inp !! (n, curr) = Some if_in /\
      e = (Z.of_nat n, if_out, if_in) /\
      b = path_via dist curr dst_sat n /\
      DistOps.ltb b b0 = true /\
      (forall j m, j < i -> nbrs !! j = Some m ->
                   DistOps.ltb b (path_via dist curr dst_sat m) = true) /\
      (forall m, m ∈ nbrs ->
                 DistOps.ltb (path_via dist curr dst_sat m) b = false)).
Proof.
  revert e0 b0. induction nbrs as [|n nbrs IH]; intros e0 b0; cbn [for_each].
  - intros [= <- <-]. left. split_and!; [done..|]. by intros n ?%elem_of_nil.
  - intros (st1 & Hs & Hl)%Result_bind_Ok.
    apply next_hop_step_Ok in Hs as [_ Hs]. cbn [snd] in Hs.
    destruct (DistOps.ltb (path_via dist curr dst_sat n) b0) eqn:Hlt.
    + destruct Hs as (i1 & i2 & Hi1 & Hi2 & ->).
      right. apply IH in Hl as [(-> & -> & Hall)|Hw].
      * exists 0, n, i1, i2. split_and!; try done.
        -- intros j m Hj. lia.
        -- intros m [->|Hm]%elem_of_cons; [apply ltb_irrefl|by apply Hall].
      * destruct Hw as (i & m & o1 & o2 & Hi & Ho1 & Ho2 & -> & -> & Hb & Hfirst & Hleast).
        exists (S i), m, o1, o2. split_and!; try done.
        -- by eapply ltb_trans.
        -- intros [|j] k Hj Hk; simpl in Hk.
           ++ by injection Hk as <-.
           ++ eapply Hfirst; [|done]. lia.
        -- intros k [->|Hk]%elem_of_cons; [by apply ltb_asym|by apply Hleast].
    + subst st1. apply IH in Hl as [(-> & -> & Hall)|Hw].
      * left. split_and!; try done.
        intros m [->|Hm]%elem_of_cons; [done|by apply Hall].
      * destruct Hw as (i & m & o1 & o2 & Hi & Ho1 & Ho2 & -> & -> & Hb & Hfirst & Hleast).
        right. exists (S i), m, o1, o2. split_and!; try done.
        -- intros [|j] k Hj Hk; simpl in Hk.
           ++ injection Hk as <-. by eapply ltb_ge_trans.
           ++ eapply Hfirst; [|done]. lia.
        -- intros k [->|Hk]%elem_of_cons; [|by apply Hleast].
           apply ltb_asym. by eapply ltb_ge_trans.
Qed.

End NextHop.

(** ** The entries of a successful epoch *)

Lemma sat_gs_item_decision inp w w' fs cache curr g :
  forwarding_state inp w = (w', Ok (fs, cache)) ->
  curr < len_satellites inp -> g < len_ground_stations inp ->
  exists e d,
    sat_to_gs_decision inp (dist_of inp) curr g = Ok (e, d) /\
    fs !! (curr, len_satellites inp + g) = Some e /\
    cache !! (curr, len_satellites inp + g) = Some d.
Proof.
  intros ([HF _] & -> & -> & _)%forwarding_state_Ok Hc Hg.
  rewrite Forall_forall in HF.
  destruct (HF (curr, g)) as (v & b & Hv & _); [by apply elem_of_sat_gs_items|].
  unfold sat_to_gs_entry in Hv. cbn [fst snd] in Hv.
  apply Result_bind_Ok in Hv as ([e d] & Hd & [= ->]).
  exists v, d. split; [done|].
  rewrite table_lookup_sat_gs, cache_lookup by done.
  unfold entry_of, sat_to_gs_entry, sat_to_gs_distance. cbn [fst snd].
  by rewrite Hd.
Qed.

Lemma gs_gs_item_decision inp w w' fs cache s d :
  forwarding_state inp w = (w', Ok (fs, cache)) ->
  s < len_ground_stations inp -> d < len_ground_stations inp -> s <> d ->
  exists e,
    gs_to_gs_decision inp cache s d = Ok e /\
    fs !! (len_satellites inp + s, len_satellites inp + d) = Some e.
Proof.
  intros ([_ HF] & -> & -> & _)%forwarding_state_Ok Hs Hd Hne.
  rewrite Forall_forall in HF.
  destruct (HF (s, d)) as (v & b & Hv & _); [by apply elem_of_gs_gs_items|].
  exists v. split; [done|].
  rewrite table_lookup_gs_gs by done.
  unfold entry_of. by rewrite Hv.
Qed.

(** What the first stage selects: nothing when no satellite in range is at
    a finite distance, otherwise a candidate of least total cost. *)
Lemma selected_sat_to_gs_cases inp dist curr g e d :
  sat_to_gs_decision inp dist curr g = Ok (e, d) ->
  exists vis,
    ground_station_satellites_in_range inp !! g = Some vis /\
    match selected_sat_to_gs inp dist curr g with
    | None =>
        d = Inf /\
        forall a s, (a, s) ∈ vis -> matrix_get dist curr s = Ok Inf
    | Some (c, s) =>
        d = c /\
        (exists a d', (a, s) ∈ vis /\
                      matrix_get dist curr s = Ok (Fin d') /\
                      c = DistOps.add (Fin d') a) /\
        (forall a' s' d',
            (a', s') ∈ vis ->
            matrix_get dist curr s' = Ok (Fin d') ->
            DistOps.leb c (DistOps.add (Fin d') a') = true)
    end.
Proof.
  intros Hd.
  destruct (selected_sat_to_gs_eq _ _ _ _ _ _ Hd) as (vis & Hvis & ->).
  apply sat_to_gs_decision_Ok in Hd as (vis' & Hvis' & HF & Hd).
  assert (vis' = vis) as -> by congruence.
  exists vis. split; [done|].
  destruct (sorted _) as [|[c s] t] eqn:Es; cbn [head].
  - destruct Hd as [_ ->]. split; [done|].
    intros a s Hin. apply sorted_nil_inv in Es.
    rewrite Forall_forall in HF. destruct (HF _ Hin) as [[d'|] Hd']; [|done].
    exfalso. cbn [snd] in Hd'.
    assert ((DistOps.add (Fin d') a, s) ∈ candidates_sat_to_gs dist curr vis)
      as Hin' by (apply elem_of_candidates_sat_to_gs; by exists a, d').
    rewrite Es in Hin'. by apply elem_of_nil in Hin'.
  - destruct Hd as [-> _]. split; [done|].
    apply sorted_head_least in Es as [Hin Hleast]. split.
    + by apply elem_of_candidates_sat_to_gs in Hin.
    + intros a' s' d' Hin' Hd'.
      apply (tuple_le_cost (c, s) (DistOps.add (Fin d') a', s')).
      apply Hleast, elem_of_candidates_sat_to_gs. by exists a', d'.
Qed.

(** ** The decision of a ground station *)

Lemma gs_to_gs_decision_Ok inp cache s d e :
  gs_to_gs_decision inp cache s d = Ok e ->
  exists vis,
    ground_station_satellites_in_range inp !! s = Some vis /\
    Forall (fun a => is_Some (cache !! (a.2, len_satellites inp + d))) vis /\
    match sorted (candidates_gs_to_gs cache (len_satellites inp + d) vis) with
    | [] => e = drop
    | (_, src_sat_id) :: _ =>
        exists n, num_isls_per_sat inp !! src_sat_id = Some n /\
                  e = (Z.of_nat src_sat_id, 0%Z, n)
    end.
Proof.
  unfold gs_to_gs_decision.
  intros (vis & Hvis%subscript_Ok & H)%Result_bind_Ok.
  apply Result_bind_Ok in H as (ps & [HF ->]%possibilities_gs_to_gs_Ok & H).
  exists vis. split; [done|]. split; [done|].
  destruct (sorted _) as [|[c sat] t].
  - by injection H as <-.
  - apply Result_bind_Ok in H as (n & Hn%subscript_Ok & [= <-]). by exists n.
Qed.

(** C3. For two distinct ground stations [g1] and [g2], the entry is the
    drop entry exactly when no satellite in range of [g1] has a finite
    cached distance to [g2]; otherwise it is [(s, 0, num_isls_per_sat[s])]
    for a satellite [s] in range of [g1] that minimises the access distance
    to [s] plus the cached distance from [s] to [g2]. *)
Theorem gs_to_gs_entry_spec inp w w' fs cache g1 g2 :
  forwarding_state inp w = (w', Ok (fs, cache)) ->
  g1 < len_ground_stations inp -> g2 < len_ground_stations inp -> g1 <> g2 ->
  let key := (len_satellites inp + g1, len_satellites inp + g2) in
  exists vis,
    ground_station_satellites_in_range inp !! g1 = Some vis /\
    (fs !! key = Some drop <->
     forall a s, (a, s) ∈ vis ->
                 cache !! (s, len_satellites inp + g2) = Some Inf) /\
    (fs !! key <> Some drop ->
     exists a s d n,
       (a, s) ∈ vis /\
       cache !! (s, len_satellites inp + g2) = Some (Fin d) /\
       num_isls_per_sat inp !! s = Some n /\
       fs !! key = Some (Z.of_nat s, 0%Z, n) /\
       forall a' s' d',
         (a', s') ∈ vis ->
         cache !! (s', len_satellites inp + g2) = Some d' ->
         DistOps.leb (DistOps.add a (Fin d)) (DistOps.add a' d') = true).
Proof.
  intros Hrun H1 H2 Hne key.
  destruct (gs_gs_item_decision _ _ _ _ _ _ _ Hrun H1 H2 Hne) as (e & Hd & Hfs).
  apply gs_to_gs_decision_Ok in Hd as (vis & Hvis & HF & Hd).
  exists vis. split; [done|]. subst key. rewrite Hfs.
  rewrite Forall_forall in HF.
  destruct (sorted _) as [|[c sat] t] eqn:Es.
  - subst e. split; [|done]. split; [|done]. intros _ a s Hin.
    apply sorted_nil_inv in Es.
    destruct (HF _ Hin) as [[d'|] Hd']; [|done]. exfalso. cbn [snd] in Hd'.
    assert ((DistOps.add a (Fin d'), s)
              ∈ candidates_gs_to_gs cache (len_satellites inp + g2) vis)
      as Hin' by (apply elem_of_candidates_gs_to_gs; by exists a, d').
    rewrite Es in Hin'. by apply elem_of_nil in Hin'.
  - destruct Hd as (n & Hn & ->).
    apply sorted_head_least in Es as [Hin Hleast].
    apply elem_of_candidates_gs_to_gs in Hin as (a & d & Hin & Hc & Hcost).
    cbn [fst snd] in *. split.
    + split; [done|]. intros Hall. specialize (Hall _ _ Hin). congruence.
    + intros _. exists a, sat, d, n. split_and!; try done.
      intros a' s' d' Hin' Hd'. subst c. destruct d' as [d'|].
      * apply (tuple_le_cost (DistOps.add a (Fin d), sat)
                             (DistOps.add a' (Fin d'), s')).
        apply Hleast, elem_of_candidates_gs_to_gs. by exists a', d'.
      * by destruct a', (DistOps.add a (Fin d)).
Qed.

Lemma gs_to_gs_entry_spec_witness :
  let key := (len_satellites example_line + 0, len_satellites example_line + 1) in
  exists vis,
    ground_station_satellites_in_range example_line !! 0 = Some vis /\
    (example_line_fstate !! key = Some drop <->
     forall a s, (a, s) ∈ vis ->
                 example_line_cache !! (s, len_satellites example_line + 1) = Some Inf) /\
    (example_line_fstate !! key <> Some drop ->
     exists a s d n,
       (a, s) ∈ vis /\
       example_line_cache !! (s, len_satellites example_line + 1) = Some (Fin d) /\
       num_isls_per_sat example_line !! s = Some n /\
       example_line_fstate !! key = Some (Z.of_nat s, 0%Z, n) /\
       forall a' s' d',
         (a', s') ∈ vis ->
         example_line_cache !! (s', len_satellites example_line + 1) = Some d' ->
         DistOps.leb (DistOps.add a (Fin d)) (DistOps.add a' d') = true).
Proof.
  apply (gs_to_gs_entry_spec example_line no_files example_line_world
           example_line_fstate example_line_cache 0 1).
  - vm_compute. reflexivity.
  - simpl. lia.
  - simpl. lia.
  - discriminate.
Defined.

(** ** Ties between candidates *)

(** C5, as amended. When several candidates of the first stage have the
    least total cost, the one selected is the one with the lowest satellite
    id, whatever their order in the visibility list: the candidates are
    sorted as tuples [(cost, satellite id)]. *)
Theorem selected_lowest_id_among_ties inp w w' fs cache curr g vis c s :
  forwarding_state inp w = (w', Ok (fs, cache)) ->
  curr < len_satellites inp -> g < len_ground_stations inp ->
  ground_station_satellites_in_range inp !! g = Some vis ->
  selected_sat_to_gs inp (dist_of inp) curr g = Some (c, s) ->
  forall a' s' d',
    (a', s') ∈ vis ->
    matrix_get (dist_of inp) curr s' = Ok (Fin d') ->
    DistOps.add (Fin d') a' = c ->
    s <= s'.
Proof.
  intros Hrun Hc Hg Hvis Hsel a' s' d' Hin Hd' Hcost.
  destruct (sat_gs_item_decision _ _ _ _ _ _ _ Hrun Hc Hg) as (e & d & Hd & _).
  destruct (selected_sat_to_gs_eq _ _ _ _ _ _ Hd) as (vis' & Hvis' & Hsel').
  assert (vis' = vis) as -> by congruence.
  rewrite Hsel in Hsel'.
  destruct (sorted _) as [|x t] eqn:Es; [done|]. injection Hsel' as <-.
  apply sorted_head_least in Es as [_ Hleast].
  assert (tuple_le (c, s) (c, s')) as Hle.
  { apply Hleast, elem_of_candidates_sat_to_gs. exists a', d'. by rewrite Hcost. }
  apply tuple_le_spec in Hle as [Hlt|[_ Hle]]; [|done].
  cbn [fst] in Hlt. by rewrite ltb_irrefl in Hlt.
Qed.

Lemma selected_lowest_id_among_ties_witness :
  selected_sat_to_gs example_tie (dist_of example_tie) 0 0 = Some (Fin 5, 0) /\
  (Fin 4, 1) ∈ [(Fin 4, 1); (Fin 5, 0)] /\
  matrix_get (dist_of example_tie) 0 1 = Ok (Fin 1) /\
  DistOps.add (Fin 1) (Fin 4) = Fin 5 /\
  0 <= 1.
Proof.
  split_and!; [vm_compute; reflexivity|by left|vm_compute; reflexivity|done|].
  eapply (selected_lowest_id_among_ties example_tie no_files _ _ _ 0 0
            [(Fin 4, 1); (Fin 5, 0)] (Fin 5) 0) with (a' := Fin 4) (d' := 1%Z).
  - vm_compute. reflexivity.
  - simpl. lia.
  - simpl. lia.
  - reflexivity.
  - vm_compute. reflexivity.
  - by left.
  - vm_compute. reflexivity.
  - reflexivity.
Defined.

(** C5, as stated, fails on [example_tie]: for satellite 0 the two
    satellites in range tie at total cost 5; satellite 1 is encountered
    first in the visibility list, but satellite 0 is selected, and the
    entry delivers to the ground station directly. *)
Lemma selection_not_first_encountered :
  ground_station_satellites_in_range example_tie !! 0
    = Some [(Fin 4, 1); (Fin 5, 0)] /\
  candidates_sat_to_gs (dist_of example_tie) 0 [(Fin 4, 1); (Fin 5, 0)]
    = [(Fin 5, 1); (Fin 5, 0)] /\
  first_least [(Fin 5, 1); (Fin 5, 0)] = Some (Fin 5, 1) /\
  selected_sat_to_gs example_tie (dist_of example_tie) 0 0 = Some (Fin 5, 0) /\
  selected_sat_to_gs example_tie (dist_of example_tie) 0 0
    <> first_least (candidates_sat_to_gs (dist_of example_tie) 0
                                         [(Fin 4, 1); (Fin 5, 0)]) /\
  exists w' out,
    algorithm_free_one_only_over_isls example_tie no_files = (w', Ok out) /\
    fstate out !! (0, 2) = Some (2, 1, 0)%Z.
Proof.
  split_and!; try (vm_compute; reflexivity).
  - vm_compute. discriminate.
  - eexists _, _. split; vm_compute; reflexivity.
Qed.


(** ** The bound of the search for the next hop *)

(** The entry of a satellite is the drop entry exactly when no candidate
    was found, or when the selected satellite is another one and no
    neighbour offers a way shorter than the bound of line 151. *)
Lemma sat_to_gs_drop_iff inp w w' fs cache curr g :
  forwarding_state inp w = (w', Ok (fs, cache)) ->
  curr < len_satellites inp -> g < len_ground_stations inp ->
  fs !! (curr, len_satellites inp + g) = Some drop <->
  match selected_sat_to_gs inp (dist_of inp) curr g with
  | None => True
  | Some (_, dst_sat) =>
      curr <> dst_sat /\
      forall nbrs n,
        neighbors (sat_net_graph_without_gs inp) curr = Ok nbrs -> n ∈ nbrs ->
        DistOps.ltb (path_via (dist_of inp) curr dst_sat n) best_dist_init = false
  end.
Proof.
  intros Hrun Hc Hg.
  destruct (sat_gs_item_decision _ _ _ _ _ _ _ Hrun Hc Hg) as (e & d & Hd & -> & _).
  destruct (selected_sat_to_gs_eq _ _ _ _ _ _ Hd) as (vis & Hvis & ->).
  apply sat_to_gs_decision_Ok in Hd as (vis' & Hvis' & _ & Hd).
  assert (vis' = vis) as -> by congruence.
  destruct (sorted _) as [|[c s] t]; cbn [head].
  - by destruct Hd as [-> _].
  - destruct Hd as [_ Hd]. destruct (decide (curr <> s)) as [Hne|Heq].
    + destruct Hd as (nbrs & best & Hn & Hl).
      apply next_hop_loop in Hl as [(-> & _ & Hall)|Hw].
      * split; [|done]. intros _. split; [done|].
        intros nbrs' n Hn'. rewrite Hn in Hn'. injection Hn' as <-. apply Hall.
      * destruct Hw as (i & n & o1 & o2 & Hi & _ & _ & -> & -> & Hb & _).
        split; [intros [= H]; lia|]. intros [_ Hall].
        apply list_elem_of_lookup_2 in Hi. rewrite (Hall _ _ Hn Hi) in Hb. done.
    + destruct Hd as (n & _ & ->). split; [done|]. intros [? _]. done.
Qed.

(** When some neighbour offers a way shorter than the bound, the next hop
    is the first neighbour, in the order of enumeration, whose way is the
    shortest; the interfaces are those of the link between the two. *)
Lemma sat_to_gs_next_hop inp w w' fs cache curr g c dst_sat nbrs n0 :
  forwarding_state inp w = (w', Ok (fs, cache)) ->
  curr < len_satellites inp -> g < len_ground_stations inp ->
  selected_sat_to_gs inp (dist_of inp) curr g = Some (c, dst_sat) ->
  curr <> dst_sat ->
  neighbors (sat_net_graph_without_gs inp) curr = Ok nbrs ->
  n0 ∈ nbrs ->
  DistOps.ltb (path_via (dist_of inp) curr dst_sat n0) best_dist_init = true ->
  exists i n if_out if_in,
    nbrs !! i = Some n /\
    sat_neighbor_to_if inp !! (curr, n) = Some if_out /\
    sat_neighbor_to_if inp !! (n, curr) = Some if_in /\
    fs !! (curr, len_satellites inp + g) = Some (Z.of_nat n, if_out, if_in) /\
    (forall j m, j < i -> nbrs !! j = Some m ->
                 DistOps.ltb (path_via (dist_of inp) curr dst_sat n)
                             (path_via (dist_of inp) curr dst_sat m) = true) /\
    (forall m, m ∈ nbrs ->
               DistOps.ltb (path_via (dist_of inp) curr dst_sat m)
                           (path_via (dist_of inp) curr dst_sat n) = false).
Proof.
  intros Hrun Hc Hg Hsel Hne Hn Hn0 Hlt.
  destruct (sat_gs_item_decision _ _ _ _ _ _ _ Hrun Hc Hg) as (e & d & Hd & Hfs & _).
  destruct (selected_sat_to_gs_eq _ _ _ _ _ _ Hd) as (vis & Hvis & Hsel').
  rewrite Hsel in Hsel'.
  apply sat_to_gs_decision_Ok in Hd as (vis' & Hvis' & _ & Hd).
  assert (vis' = vis) as -> by congruence.
  destruct (sorted _) as [|[c' s] t]; [done|]. injection Hsel' as <- <-.
  destruct Hd as [_ Hd]. rewrite decide_True in Hd by done.
  destruct Hd as (nbrs' & best & Hn' & Hl).
  rewrite Hn in Hn'. injection Hn' as <-.
  apply next_hop_loop in Hl as [(_ & _ & Hall)|Hw].
  - by rewrite (Hall _ Hn0) in Hlt.
  - destruct Hw as (i & n & o1 & o2 & Hi & Ho1 & Ho2 & -> & -> & _ & Hfirst & Hleast).
    by exists i, n, o1, o2.
Qed.

(** C1 on [example_far]. Satellite 1 is in range of the ground station and
    at the finite distance 2 * 10^15 from satellite 0, yet the entry of
    satellite 0 for the ground station is the drop entry. *)
Theorem drop_although_reachable :
  ground_station_satellites_in_range example_far !! 0 = Some [(Fin 5, 1)] /\
  matrix_get (dist_of example_far) 0 1 = Ok (Fin 2000000000000000) /\
  exists w' out,
    algorithm_free_one_only_over_isls example_far no_files = (w', Ok out) /\
    fstate out !! (0, 2) = Some drop.
Proof.
  split_and!; try (vm_compute; reflexivity).
  eexists _, _. split; vm_compute; reflexivity.
Qed.

(** C4 on [example_far]. For satellite 0 the selected satellite is 1, its
    only neighbour is satellite 1, over which the way has length
    2 * 10^15; the entry has no next hop. *)
Theorem no_next_hop_beyond_bound :
  selected_sat_to_gs example_far (dist_of example_far) 0 0
    = Some (Fin 2000000000000005, 1) /\
  neighbors (sat_net_graph_without_gs example_far) 0 = Ok [1] /\
  path_via (dist_of example_far) 0 1 1 = Fin 2000000000000000 /\
  sat_neighbor_to_if example_far !! (0, 1) = Some 0%Z /\
  sat_neighbor_to_if example_far !! (1, 0) = Some 0%Z /\
  exists w' out,
    algorithm_free_one_only_over_isls example_far no_files = (w', Ok out) /\
    fstate out !! (0, 2) = Some drop /\
    fstate out !! (0, 2) <> Some (1, 0, 0)%Z.
Proof.
  split_and!; try (vm_compute; reflexivity).
  eexists _, _. split_and!; try (vm_compute; reflexivity).
  vm_compute. discriminate.
Qed.

(** ** The table and the emitted lines *)

Lemma elem_of_table_lines inp k v :
  (k, v) ∈ table_lines inp <-> insert_all (table_lines inp) ∅ !! k = Some v.
Proof.
  split.
  - apply insert_all_lookup, NoDup_table_lines_keys.
  - apply insert_all_lookup_Some.
Qed.

Lemma is_Some_table_lookup inp k :
  is_Some (insert_all (table_lines inp) ∅ !! k) <->
  (exists curr g, curr < len_satellites inp /\ g < len_ground_stations inp /\
                  k = (curr, len_satellites inp + g)) \/
  (exists s d, s < len_ground_stations inp /\ d < len_ground_stations inp /\
               s <> d /\ k = (len_satellites inp + s, len_satellites inp + d)).
Proof.
  rewrite <- elem_of_dom, dom_insert_all, dom_empty_L.
  rewrite elem_of_union, elem_of_list_to_set, elem_of_empty.
  rewrite table_lines_keys, elem_of_app, elem_of_sat_gs_keys, elem_of_gs_gs_keys.
  tauto.
Qed.



(** C9. The keys of the returned table are exactly the pairs (satellite,
    ground station) and the ordered pairs of distinct ground stations,
    [S * G + G * (G - 1)] in all; no pair of a ground station with itself
    and no pair with a satellite as destination has an entry, and every
    line written is the line of a key of the table. *)
Theorem table_keys inp w w' out :
  algorithm_free_one_only_over_isls inp w = (w', Ok out) ->
  (forall k,
      is_Some (fstate out !! k) <->
      (exists curr g, curr < len_satellites inp /\ g < len_ground_stations inp /\
                      k = (curr, len_satellites inp + g)) \/
      (exists s d, s < len_ground_stations inp /\ d < len_ground_stations inp /\
                   s <> d /\ k = (len_satellites inp + s, len_satellites inp + d))) /\
  size (fstate out) =
    len_satellites inp * len_ground_stations inp +
    len_ground_stations inp * (len_ground_stations inp - 1) /\
  (forall g, fstate out !! (len_satellites inp + g, len_satellites inp + g) = None) /\
  (forall src dst, dst < len_satellites inp -> fstate out !! (src, dst) = None) /\
  exists lines,
    fstate_file w' = Some lines /\
    forall line, line ∈ lines -> fstate out !! line.1 = Some line.2.
Proof.
  intros (_ & Hfs & Hw)%algorithm_Ok_spec. rewrite Hfs.
  assert (forall k, insert_all (table_lines inp) ∅ !! k = None <->
                    ~ is_Some (insert_all (table_lines inp) ∅ !! k)) as Hnone.
  { intros k. rewrite eq_None_not_Some. done. }
  split_and!.
  - apply is_Some_table_lookup.
  - rewrite <- size_dom, dom_insert_all, dom_empty_L, union_empty_r_L.
    rewrite size_list_to_set by apply NoDup_table_lines_keys.
    rewrite length_fmap. apply length_table_lines.
  - intros g. rewrite Hnone, is_Some_table_lookup.
    intros [(curr & g' & ? & ? & [= ? ?])|(s & d & ? & ? & ? & [= ? ?])]; lia.
  - intros src dst Hdst. rewrite Hnone, is_Some_table_lookup.
    intros [(curr & g' & ? & ? & [= ? ?])|(s & d & ? & ? & ? & [= ? ?])]; lia.
  - eexists. split; [exact Hw|]. intros [k v] [_ Hin]%list_elem_of_filter.
    by apply elem_of_table_lines.
Qed.

Lemma table_keys_witness :
  size example_line_fstate =
    len_satellites example_line * len_ground_stations example_line +
    len_ground_stations example_line * (len_ground_stations example_line - 1).
Proof.
  apply (table_keys example_line
           no_files example_line_files {| fstate := example_line_fstate |}).
  vm_compute. reflexivity.
Defined.

(** ** Running an epoch again *)

Lemma filter_none {A : Type} (P : A -> Prop) `{!forall x, Decision (P x)}
    (l : list A) :
  (forall x, x ∈ l -> ~ P x) -> filter P l = [].
Proof.
  induction l as [|x l IH]; intros Hall; [done|].
  rewrite filter_cons, decide_False by (apply Hall; by left).
  apply IH. intros y Hy. apply Hall. by right.
Qed.

(** The previous output plays no part in what is computed. *)
Lemma table_lines_with_prev_output inp prev :
  table_lines (with_prev_output inp prev) = table_lines inp.
Proof. reflexivity. Qed.

Lemma bandwidth_state_Ok_any inp w w1 w0 :
  bandwidth_state inp w = (w1, Ok tt) ->
  exists w2, bandwidth_state inp w0 = (w2, Ok tt).
Proof.
  destruct (bandwidth_state_spec inp) as (lines & r & H).
  rewrite H. intros [= _ ->]. eexists. apply H.
Qed.

Lemma sat_gs_line_in inp x v :
  x ∈ sat_gs_items inp -> sat_to_gs_entry inp (dist_of inp) x = Ok v ->
  (sat_gs_key inp x, v) ∈ table_lines inp.
Proof.
  intros Hx Hv. unfold table_lines. apply elem_of_app. left.
  unfold sat_gs_lines, entries. apply list_elem_of_fmap. exists x.
  split; [|done]. unfold entry_of. by rewrite Hv.
Qed.

Lemma gs_gs_line_in inp x v :
  x ∈ gs_gs_items inp -> gs_to_gs_entry inp (cache_of inp) x = Ok v ->
  (gs_gs_key inp x, v) ∈ table_lines inp.
Proof.
  intros Hx Hv. unfold table_lines. apply elem_of_app. right.
  unfold gs_gs_lines, entries. apply list_elem_of_fmap. exists x.
  split; [|done]. unfold entry_of. by rewrite Hv.
Qed.

(** An epoch raises nothing in its two stages exactly when no decision
    raises and the comparison with the previous table raises for no line. *)
Lemma all_items_ok_alt inp :
  all_items_ok inp <->
  decisions_ok inp /\
  forall k v, (k, v) ∈ table_lines inp ->
              exists b, changed (prev_fstate_of inp) k v = Ok b.
Proof.
  unfold all_items_ok, decisions_ok, item_ok. rewrite !Forall_forall. split.
  - intros [H1 H2]. split; [split|].
    + intros x Hx. destruct (H1 x Hx) as (v & b & Hv & _). by exists v.
    + intros x Hx. destruct (H2 x Hx) as (v & b & Hv & _). by exists v.
    + intros k v [Hin|Hin]%elem_of_app.
      * apply list_elem_of_fmap in Hin as (x & [= -> ->] & Hx).
        destruct (H1 x Hx) as (v & b & Hv & Hb). exists b.
        unfold entry_of. by rewrite Hv.
      * apply list_elem_of_fmap in Hin as (x & [= -> ->] & Hx).
        destruct (H2 x Hx) as (v & b & Hv & Hb). exists b.
        unfold entry_of. by rewrite Hv.
  - intros [[H1 H2] Hc]. split.
    + intros x Hx. destruct (H1 x Hx) as (v & Hv).
      destruct (Hc (sat_gs_key inp x) v) as [b Hb]; [by apply sat_gs_line_in|].
      by exists v, b.
    + intros x Hx. destruct (H2 x Hx) as (v & Hv).
      destruct (Hc (gs_gs_key inp x) v) as [b Hb]; [by apply gs_gs_line_in|].
      by exists v, b.
Qed.

Lemma decisions_ok_with_prev_output inp prev :
  decisions_ok (with_prev_output inp prev) <-> decisions_ok inp.
Proof. done. Qed.

(** C7. Running the epoch again on the same input, with the output of the
    first run as previous output, writes no forwarding entry. *)
Theorem second_run_emits_nothing inp w w1 out1 w0 :
  algorithm_free_one_only_over_isls inp w = (w1, Ok out1) ->
  exists w2,
    algorithm_free_one_only_over_isls (with_prev_output inp (Some out1)) w0
      = (w2, Ok out1) /\
    fstate_file w2 = Some [].
Proof.
  intros H.
  pose proof (algorithm_Ok_spec _ _ _ _ H) as ([Hok _]%all_items_ok_alt & Hfs & _).
  apply algorithm_Ok in H as (Hcheck & w1' & Hbw & _).
  destruct (bandwidth_state_Ok_any _ _ _ w0 Hbw) as (w0' & Hbw0).
  assert (forall k v, (k, v) ∈ table_lines inp -> fstate out1 !! k = Some v) as Hin.
  { intros k v. rewrite Hfs. apply elem_of_table_lines. }
  eexists. split.
  - apply algorithm_Ok. split; [exact Hcheck|]. exists w0'. split; [exact Hbw0|].
    apply forwarding_state_Ok. split_and!; [|exact Hfs|done|reflexivity].
    apply all_items_ok_alt. split; [by apply decisions_ok_with_prev_output|].
    intros k v Hkv. rewrite table_lines_with_prev_output in Hkv.
    exists (bool_decide (v <> v)). by apply changed_lookup, Hin.
  - simpl. f_equal. apply filter_none. intros [k v] Hkv Hc.
    apply Hc. by apply Hin.
Qed.

Lemma second_run_emits_nothing_witness :
  exists w2,
    algorithm_free_one_only_over_isls
      (with_prev_output example_line (Some {| fstate := example_line_fstate |}))
      no_files
      = (w2, Ok {| fstate := example_line_fstate |}) /\
    fstate_file w2 = Some [].
Proof.
  apply (second_run_emits_nothing example_line no_files example_line_files
           {| fstate := example_line_fstate |} no_files).
  vm_compute. reflexivity.
Defined.

(** ** A previous table that lacks a key *)

Lemma first_failure {A : Type} (P : A -> Prop) `{!forall x, Decision (P x)}
    (l : list A) :
  ~ Forall P l ->
  exists pre x post, l = pre ++ x :: post /\ Forall P pre /\ ~ P x.
Proof.
  induction l as [|y l IH]; intros Hn.
  - destruct Hn. constructor.
  - destruct (decide (P y)) as [Hy|Hy].
    + destruct IH as (pre & x & post & -> & Hpre & Hx).
      { intros Hl. apply Hn. by constructor. }
      exists (y :: pre), x, post. split_and!; [done| |done]. by constructor.
    + exists [], y, l. split_and!; [done| |done]. constructor.
Qed.

Section TableLoopFailure.

Context {A : Type}.
Variable p : Fstate.
Variable key : A -> nat * nat.
Variable decision : A -> Result Entry.
Hypothesis p_not_empty : p <> ∅.

Lemma item_ok_present x :
  (exists v, decision x = Ok v) -> is_Some (p !! key x) ->
  item_ok (Some p) key decision x.
Proof.
  intros [v Hv] [old Hold]. exists v, (bool_decide (old <> v)).
  split; [done|]. by apply changed_lookup.
Qed.

(** The loop stops with a [KeyError] at the first item whose key the
    previous table lacks; the lines written until then are lines of keys
    that it holds. *)
Lemma table_loop_missing pre x post fs w :
  Forall (fun y => exists v, decision y = Ok v) (pre ++ x :: post) ->
  Forall (fun y => is_Some (p !! key y)) pre ->
  p !! key x = None ->
  for_eachM (pre ++ x :: post) (table_body (Some p) key decision) fs w =
  (write_lines (filter (is_changed (Some p)) (entries key decision pre)) w,
   Err (KeyError (KeyPair (key x).1 (key x).2))).
Proof.
  intros Hd Hpre Hx. rewrite for_eachM_app. unfold mbind, M_bind.
  apply Forall_app in Hd as [Hdpre Hdx]. apply Forall_cons in Hdx as [[v Hv] _].
  assert (Forall (item_ok (Some p) key decision) pre) as Hok.
  { rewrite Forall_forall in *. intros y Hy. apply item_ok_present; auto. }
  assert (for_eachM pre (table_body (Some p) key decision) fs w =
          (write_lines (filter (is_changed (Some p)) (entries key decision pre)) w,
           Ok (insert_all (entries key decision pre) fs))) as ->
    by (by apply table_loop_Ok).
  cbn [for_eachM]. unfold mbind, M_bind.
  rewrite table_body_eq, Hv, update_fstate_eq.
  by rewrite (changed_missing p (key x) v p_not_empty Hx).
Qed.

Lemma filter_changed_present (items : list A) line :
  Forall (fun y => is_Some (p !! key y)) items ->
  line ∈ filter (is_changed (Some p)) (entries key decision items) ->
  is_Some (p !! line.1).
Proof.
  intros HF [_ Hin]%list_elem_of_filter.
  apply list_elem_of_fmap in Hin as (y & -> & Hy).
  rewrite Forall_forall in HF. by apply HF.
Qed.

End TableLoopFailure.

Lemma forwarding_state_Err_first inp w w' e :
  for_eachM (sat_gs_items inp)
    (table_body (prev_fstate_of inp) (sat_gs_key inp)
                (sat_to_gs_entry inp (dist_of inp))) ∅
    {| gsl_if_bandwidth_file := gsl_if_bandwidth_file w; fstate_file := Some [] |}
  = (w', Err e) ->
  forwarding_state inp w = (w', Err e).
Proof.
  intros H. unfold forwarding_state.
  fold (dist_of inp). fold (prev_fstate_of inp).
  unfold mbind at 1, M_bind. unfold open_fstate at 1.
  unfold mbind at 1, M_bind.
  by rewrite satellites_to_ground_stations_eq, H.
Qed.

Lemma forwarding_state_Err_second inp w w1 fs1 w' e :
  for_eachM (sat_gs_items inp)
    (table_body (prev_fstate_of inp) (sat_gs_key inp)
                (sat_to_gs_entry inp (dist_of inp))) ∅
    {| gsl_if_bandwidth_file := gsl_if_bandwidth_file w; fstate_file := Some [] |}
  = (w1, Ok fs1) ->
  for_eachM (gs_gs_items inp)
    (table_body (prev_fstate_of inp) (gs_gs_key inp)
                (gs_to_gs_entry inp (cache_of inp))) fs1 w1
  = (w', Err e) ->
  forwarding_state inp w = (w', Err e).
Proof.
  intros H1 H2. unfold forwarding_state.
  fold (dist_of inp). fold (prev_fstate_of inp).
  unfold mbind at 1, M_bind. unfold open_fstate at 1.
  unfold mbind at 1, M_bind.
  rewrite satellites_to_ground_stations_eq, H1. fold (cache_of inp).
  unfold mbind at 1, M_bind.
  by rewrite ground_stations_to_ground_stations_eq, H2.
Qed.

Lemma algorithm_Err inp w w1 w' e :
  check_graph (sat_net_graph_without_gs inp) (len_satellites inp) = Ok tt ->
  bandwidth_state inp w = (w1, Ok tt) ->
  forwarding_state inp w1 = (w', Err e) ->
  algorithm_free_one_only_over_isls inp w = (w', Err e).
Proof.
  intros Hc Hb Hf. unfold algorithm_free_one_only_over_isls.
  unfold mbind at 1, M_bind. unfold lift at 1. rewrite Hc.
  unfold mbind at 1, M_bind. rewrite Hb.
  unfold mbind at 1, M_bind. by rewrite Hf.
Qed.

(** C10. When the previous table is not empty but lacks the key of a
    computed pair, the epoch stops with a [KeyError] for such a key instead
    of writing its entry as a new one; the lines written until then are
    lines of keys that the previous table holds. *)
Theorem missing_previous_key_raises inp w w1 out0 prev k :
  algorithm_free_one_only_over_isls (with_prev_output inp None) w = (w1, Ok out0) ->
  prev <> ∅ -> is_Some (fstate out0 !! k) -> prev !! k = None ->
  exists w2 k0,
    algorithm_free_one_only_over_isls
      (with_prev_output inp (Some {| fstate := prev |})) w
      = (w2, Err (KeyError (KeyPair k0.1 k0.2))) /\
    is_Some (fstate out0 !! k0) /\ prev !! k0 = None /\
    exists lines,
      fstate_file w2 = Some lines /\
      forall line, line ∈ lines -> is_Some (prev !! line.1).
Proof.
  intros H Hne Hk Hmiss.
  pose proof (algorithm_Ok_spec _ _ _ _ H) as ([Hok _]%all_items_ok_alt & Hfs & _).
  apply decisions_ok_with_prev_output in Hok as [Hd1 Hd2].
  rewrite table_lines_with_prev_output in Hfs.
  apply algorithm_Ok in H as (Hcheck & wb & Hbw & _).
  rewrite Hfs in Hk. rewrite Hfs.
  set (inp' := with_prev_output inp (Some {| fstate := prev |})).
  set (w0 := {| gsl_if_bandwidth_file := gsl_if_bandwidth_file wb;
                fstate_file := Some [] |}).
  destruct (decide (Forall (fun x => is_Some (prev !! sat_gs_key inp x))
                           (sat_gs_items inp))) as [Hall1|Hnot1].
  - assert (~ Forall (fun x => is_Some (prev !! gs_gs_key inp x)) (gs_gs_items inp))
      as Hnot2.
    { intros Hall2. apply eq_None_not_Some in Hmiss. apply Hmiss.
      destruct Hk as [v Hv]. apply elem_of_table_lines in Hv.
      unfold table_lines in Hv. apply elem_of_app in Hv as [Hv|Hv];
        apply list_elem_of_fmap in Hv as (x & [= -> _] & Hx).
      - rewrite Forall_forall in Hall1. by apply Hall1.
      - rewrite Forall_forall in Hall2. by apply Hall2. }
    apply first_failure in Hnot2 as (pre & x & post & Hitems & Hpre & Hx);
      [|apply _].
    apply eq_None_not_Some in Hx.
    assert (exists v, gs_to_gs_entry inp (cache_of inp) x = Ok v) as [v Hv].
    { rewrite Forall_forall in Hd2. apply Hd2. rewrite Hitems.
      apply elem_of_app. right. by left. }
    eexists _, (gs_gs_key inp x). split_and!.
    + eapply (algorithm_Err inp'); [exact Hcheck|exact Hbw|].
      eapply (forwarding_state_Err_second inp').
      * apply table_loop_Ok. split_and!; [|reflexivity..].
        rewrite Forall_forall in Hall1, Hd1. apply Forall_forall. intros y Hy.
        apply item_ok_present; [by apply (Hd1 y)|by apply Hall1].
      * change (gs_gs_items inp') with (gs_gs_items inp). rewrite Hitems.
        apply (table_loop_missing prev (gs_gs_key inp)
                 (gs_to_gs_entry inp (cache_of inp)) Hne pre x post);
          [by rewrite <- Hitems|done|done].
    + exists v. apply elem_of_table_lines, gs_gs_line_in; [|done].
      rewrite Hitems. apply elem_of_app. right. by left.
    + done.
    + eexists. split; [simpl; reflexivity|]. intros line.
      rewrite ?app_nil_l. intros [Hin|Hin]%elem_of_app.
      * by eapply (filter_changed_present prev (sat_gs_key inp)).
      * by eapply (filter_changed_present prev (gs_gs_key inp)).
  - apply first_failure in Hnot1 as (pre & x & post & Hitems & Hpre & Hx);
      [|apply _].
    apply eq_None_not_Some in Hx.
    assert (exists v, sat_to_gs_entry inp (dist_of inp) x = Ok v) as [v Hv].
    { rewrite Forall_forall in Hd1. apply Hd1. rewrite Hitems.
      apply elem_of_app. right. by left. }
    eexists _, (sat_gs_key inp x). split_and!.
    + eapply (algorithm_Err inp'); [exact Hcheck|exact Hbw|].
      eapply (forwarding_state_Err_first inp').
      change (sat_gs_items inp') with (sat_gs_items inp). rewrite Hitems.
      apply (table_loop_missing prev (sat_gs_key inp)
               (sat_to_gs_entry inp (dist_of inp)) Hne pre x post);
        [by rewrite <- Hitems|done|done].
    + exists v. apply elem_of_table_lines, sat_gs_line_in; [|done].
      rewrite Hitems. apply elem_of_app. right. by left.
    + done.
    + eexists. split; [simpl; reflexivity|]. intros line. rewrite ?app_nil_l.
      by eapply (filter_changed_present prev (sat_gs_key inp)).
Qed.

Lemma missing_previous_key_raises_witness :
  exists w2 k0,
    algorithm_free_one_only_over_isls
      (with_prev_output example_line (Some {| fstate := {[ (0, 3) := drop ]} |}))
      no_files
      = (w2, Err (KeyError (KeyPair k0.1 k0.2))) /\
    is_Some (example_line_fstate !! k0) /\
    ({[ (0, 3) := drop ]} : Fstate) !! k0 = None /\
    exists lines,
      fstate_file w2 = Some lines /\
      forall line, line ∈ lines ->
                   is_Some (({[ (0, 3) := drop ]} : Fstate) !! line.1).
Proof.
  apply (missing_previous_key_raises example_line no_files example_line_files
           {| fstate := example_line_fstate |} {[ (0, 3) := drop ]} (0, 4)).
  - vm_compute. reflexivity.
  - vm_compute. discriminate.
  - vm_compute. by eexists.
  - vm_compute. reflexivity.
Defined.

(** ** The check of the graph *)

Lemma check_neighbors (n_sat : nat) (nbrs : list nat) :
  for_each nbrs (fun n (_ : unit) =>
                   if decide (n_sat <= n) then Err (ValueError gs_link_msg)
                   else Ok tt) tt =
  if decide (Exists (fun n => n_sat <= n) nbrs)
  then Err (ValueError gs_link_msg) else Ok tt.
Proof.
  induction nbrs as [|n nbrs IH]; cbn [for_each].
  - rewrite decide_False; [done|]. by intros ?%Exists_nil.
  - destruct (decide (n_sat <= n)) as [Hn|Hn]; cbn.
    + rewrite decide_True; [done|]. by left.
    + rewrite IH. destruct (decide (Exists _ nbrs)) as [He|He].
      * rewrite decide_True; [done|]. by right.
      * rewrite decide_False; [done|]. by intros [?|?]%Exists_cons.
Qed.

(** One turn of the loop over the satellites. *)
Lemma check_satellite g n_sat sid :
  (nbrs ← neighbors g sid;
   for_each nbrs (fun n (_ : unit) =>
                    if decide (n_sat <= n) then Err (ValueError gs_link_msg)
                    else Ok tt) tt) =
  match assoc sid g with
  | None => Err (NetworkXError sid)
  | Some adj =>
      if decide (Exists (fun n => n_sat <= n) adj.*1)
      then Err (ValueError gs_link_msg) else Ok tt
  end.
Proof.
  unfold neighbors. destruct (assoc sid g) as [adj|]; cbn; [|done].
  apply check_neighbors.
Qed.

Lemma has_gs_link_Exists g n_sat sid adj :
  assoc sid g = Some adj ->
  has_gs_link g n_sat sid <-> Exists (fun n => n_sat <= n) adj.*1.
Proof.
  intros Ha. unfold has_gs_link. rewrite Exists_exists. split.
  - intros (adj' & n & Ha' & Hn & Hle). exists n. by simplify_eq.
  - intros (n & Hn & Hle). by exists adj, n.
Qed.

Lemma check_loop_ValueError g n_sat (l : list nat) msg :
  for_each l (fun sid (_ : unit) =>
                nbrs ← neighbors g sid;
                for_each nbrs (fun n (_ : unit) =>
                                 if decide (n_sat <= n)
                                 then Err (ValueError gs_link_msg)
                                 else Ok tt) tt) tt = Err (ValueError msg) <->
  msg = gs_link_msg /\
  exists pre sid post,
    l = pre ++ sid :: post /\
    Forall (fun j => is_Some (assoc j g)) pre /\
    has_gs_link g n_sat sid.
Proof.
  induction l as [|x l IH]; cbn [for_each].
  - split; [done|]. intros (_ & pre & sid & post & H & _). by destruct pre.
  - rewrite check_satellite. destruct (assoc x g) as [adj|] eqn:Ha.
    + destruct (decide (Exists _ adj.*1)) as [He|He]; cbn.
      * split.
        -- intros [= <-]. split; [done|]. exists [], x, l.
           split_and!; [done|constructor|]. by eapply has_gs_link_Exists.
        -- by intros [-> _].
      * rewrite IH. split.
        -- intros (-> & pre & sid & post & -> & Hpre & Hsid). split; [done|].
           exists (x :: pre), sid, post. split_and!; [done| |done].
           constructor; [by rewrite Ha|done].
        -- intros (-> & pre & sid & post & Hl & Hpre & Hsid). split; [done|].
           destruct pre as [|y pre]; simplify_eq/=.
           ++ exfalso. apply He. by eapply has_gs_link_Exists.
           ++ exists pre, sid, post. split_and!; [done| |done].
              by apply Forall_cons in Hpre as [_ ?].
    + cbn. split; [done|].
      intros (_ & pre & sid & post & Hl & Hpre & Hsid).
      destruct pre as [|y pre]; simplify_eq/=.
      * destruct Hsid as (adj & n & Ha' & _). congruence.
      * apply Forall_cons in Hpre as [[? Hy] _]. congruence.
Qed.

Lemma seq_split (a n : nat) (pre : list nat) (x : nat) (post : list nat) :
  seq a n = pre ++ x :: post <->
  a <= x < a + n /\ pre = seq a (x - a) /\ post = seq (S x) (a + n - S x).
Proof.
  split.
  - revert a n. induction pre as [|y pre IH]; intros a n H.
    + destruct n as [|n]; [done|]. injection H as -> <-.
      rewrite Nat.sub_diag. split_and!; [lia..|done|]. f_equal. lia.
    + destruct n as [|n]; [done|]. injection H as <- H.
      apply IH in H as (Hx & -> & ->). split_and!; [lia..| |f_equal; lia].
      replace (x - a) with (S (x - S a)) by lia. done.
  - intros (Hx & -> & ->).
    replace n with ((x - a) + S (a + n - S x)) at 1 by lia.
    rewrite seq_app. cbn [seq].
    replace (a + (x - a)) with x by lia. done.
Qed.

Lemma check_graph_ValueError g n_sat msg :
  check_graph g n_sat = Err (ValueError msg) <->
  (number_of_nodes g <> n_sat /\ msg = node_count_msg) \/
  (number_of_nodes g = n_sat /\ msg = gs_link_msg /\
   exists sid, sid < n_sat /\
               (forall j, j < sid -> is_Some (assoc j g)) /\
               has_gs_link g n_sat sid).
Proof.
  unfold check_graph. destruct (decide (number_of_nodes g <> n_sat)) as [Hn|Hn].
  - split.
    + intros [= <-]. by left.
    + intros [[_ ->]|[? _]]; [done|]. by destruct Hn.
  - change (for_each (seq 0 n_sat) _ tt = Err (ValueError msg)) with
      (for_each (seq 0 n_sat) (fun sid (_ : unit) =>
         nbrs ← neighbors g sid;
         for_each nbrs (fun n (_ : unit) =>
                          if decide (n_sat <= n)
                          then Err (ValueError gs_link_msg)
                          else Ok tt) tt) tt = Err (ValueError msg)).
    rewrite check_loop_ValueError. split.
    + intros (-> & pre & sid & post & (Hsid & -> & _)%seq_split & Hpre & Hlink).
      right. split; [lia|]. split; [done|]. exists sid. split_and!; [lia| |done].
      intros j Hj. rewrite Forall_forall in Hpre. apply Hpre, elem_of_seq. lia.
    + intros [[? _]|(_ & -> & sid & Hsid & Hpre & Hlink)]; [done|].
      split; [done|]. exists (seq 0 (sid - 0)), sid, (seq (S sid) (0 + n_sat - S sid)).
      split_and!; [apply seq_split; split_and!; [lia..|done|done]| |done].
      apply Forall_forall. intros j Hj%elem_of_seq. apply Hpre. lia.
Qed.

(** ** Which exceptions an epoch raises *)

Section RaisesOnly.

Variable P : Exception -> Prop.

Lemma raises_only_Ok {A : Type} (a : A) : raises_only P (Ok a).
Proof. by intros e. Qed.

Lemma raises_only_Err {A : Type} (e : Exception) : P e -> raises_only P (@Err A e).
Proof. by intros He e' [= <-]. Qed.

Lemma raises_only_subscript {A : Type} (o : option A) (e : Exception) :
  P e -> raises_only P (subscript o e).
Proof. intros He e'. by destruct o; intros [= <-]. Qed.

Lemma raises_only_bind {A B : Type} (r : Result A) (f : A -> Result B) :
  raises_only P r -> (forall a, raises_only P (f a)) -> raises_only P (r ≫= f).
Proof.
  intros Hr Hf e. destruct r as [a|e']; cbn; [apply Hf|].
  intros [= <-]. by apply Hr.
Qed.

Lemma raises_only_for_each {A St : Type} (l : list A)
    (body : A -> St -> Result St) (st : St) :
  (forall x st, raises_only P (body x st)) -> raises_only P (for_each l body st).
Proof.
  intros Hb. revert st. induction l as [|x l IH]; intros st; cbn [for_each].
  - apply raises_only_Ok.
  - apply raises_only_bind; [apply Hb|apply IH].
Qed.

Lemma raisesM_only_ret {A : Type} (a : A) : raisesM_only P (mret a).
Proof. by intros w w' e. Qed.

Lemma raisesM_only_lift {A : Type} (r : Result A) :
  raises_only P r -> raisesM_only P (lift r).
Proof. intros Hr w w' e [= _ H]. by apply Hr. Qed.

Lemma raisesM_only_bind {A B : Type} (m : M A) (f : A -> M B) :
  raisesM_only P m -> (forall a, raisesM_only P (f a)) -> raisesM_only P (m ≫= f).
Proof.
  intros Hm Hf w w' e [H|(a & w1 & _ & H)]%M_bind_Err.
  - by eapply Hm.
  - by eapply Hf.
Qed.

Lemma raisesM_only_for_eachM {A St : Type} (l : list A)
    (body : A -> St -> M St) (st : St) :
  (forall x st, raisesM_only P (body x st)) -> raisesM_only P (for_eachM l body st).
Proof.
  intros Hb. revert st. induction l as [|x l IH]; intros st; cbn [for_eachM].
  - apply raisesM_only_ret.
  - apply raisesM_only_bind; [apply Hb|apply IH].
Qed.

End RaisesOnly.

Lemma update_fstate_raises prev k v fs :
  raisesM_only not_ValueError (update_fstate prev k v fs).
Proof.
  intros w w' e. rewrite update_fstate_eq.
  destruct (changed prev k v) as [b|e'] eqn:E; [done|].
  intros [= _ <-]. by apply changed_Err in E as (? & _ & _ & _ & ->).
Qed.

Ltac raises :=
  repeat (intros;
    lazymatch goal with
    | |- raises_only _ (Ok _) => apply raises_only_Ok
    | |- raises_only _ (Err _) => apply raises_only_Err; exact I
    | |- raises_only _ (subscript _ _) => apply raises_only_subscript; exact I
    | |- raises_only _ (for_each _ _ _) => apply raises_only_for_each
    | |- raises_only _ (_ ≫= _) => apply raises_only_bind
    | |- raises_only _ (if ?b then _ else _) => destruct b
    | |- raises_only _ (match ?x with _ => _ end) => destruct x
    | |- raisesM_only _ (mret _) => apply raisesM_only_ret
    | |- raisesM_only _ (lift _) => apply raisesM_only_lift
    | |- raisesM_only _ (for_eachM _ _ _) => apply raisesM_only_for_eachM
    | |- raisesM_only _ (_ ≫= _) => apply raisesM_only_bind
    | |- raisesM_only _ (if ?b then _ else _) => destruct b
    | |- raisesM_only _ (match ?x with _ => _ end) => destruct x
    | |- raisesM_only _ open_fstate => by intros ? ? ?
    | |- raisesM_only _ open_gsl_if_bandwidth => by intros ? ? ?
    | |- raisesM_only _ (write_gsl_if_bandwidth _) => by intros ? ? ?
    | |- raisesM_only _ (write_fstate _) => by intros ? ? ?
    | |- raisesM_only _ (update_fstate _ _ _ _) => apply update_fstate_raises
    end).

Lemma sat_to_gs_decision_raises inp dist curr g :
  raises_only not_ValueError (sat_to_gs_decision inp dist curr g).
Proof.
  unfold sat_to_gs_decision, possibilities_sat_to_gs, next_hop_step,
    neighbors, matrix_get.
  raises.
Qed.

Lemma gs_to_gs_decision_raises inp cache s d :
  raises_only not_ValueError (gs_to_gs_decision inp cache s d).
Proof. unfold gs_to_gs_decision, possibilities_gs_to_gs. raises. Qed.


Lemma forwarding_state_raises inp :
  raisesM_only not_ValueError (forwarding_state inp).
Proof.
  unfold forwarding_state, satellites_to_ground_stations,
    ground_stations_to_ground_stations, sat_to_gs_turn, gs_to_gs_turn.
  raises; try apply sat_to_gs_decision_raises;
    try apply gs_to_gs_decision_raises.
Qed.

Lemma bandwidth_state_raises inp :
  raisesM_only not_ValueError (bandwidth_state inp).
Proof.
  unfold bandwidth_state, aggregate_max_bandwidth. raises.
Qed.

(** A [ValueError] comes from the check of the graph only. *)
Lemma algorithm_ValueError inp w w' msg :
  algorithm_free_one_only_over_isls inp w = (w', Err (ValueError msg)) <->
  check_graph (sat_net_graph_without_gs inp) (len_satellites inp)
    = Err (ValueError msg) /\ w' = w.
Proof.
  unfold algorithm_free_one_only_over_isls.
  unfold mbind at 1, M_bind. unfold lift at 1.
  destruct (check_graph _ _) as [[]|e].
  - split; [|by intros [? _]]. intros H. exfalso.
    assert (raisesM_only not_ValueError
              (bandwidth_state inp;;
               '(fs, _) ← forwarding_state inp; mret {| fstate := fs |})) as Hr.
    { raises; try apply bandwidth_state_raises;
        try apply forwarding_state_raises. }
    apply (Hr _ _ _ H).
  - split; [by intros [= <- <-]|by intros [[= <-] ->]].
Qed.

(** A failure of the check leaves the files as they were and returns no
    output. *)
Lemma check_failure_emits_nothing inp w e :
  check_graph (sat_net_graph_without_gs inp) (len_satellites inp) = Err e ->
  algorithm_free_one_only_over_isls inp w = (w, Err e).
Proof.
  intros H. unfold algorithm_free_one_only_over_isls.
  unfold mbind at 1, M_bind. unfold lift at 1. by rewrite H.
Qed.

(** C8, as amended. The epoch fails with a [ValueError] exactly when the
    number of nodes of the graph differs from the number of satellites, or
    some satellite, all ids below which are nodes of the graph, has a link
    to a node whose id is not below the number of satellites.  When the
    check of the graph fails, with this error or with the error of networkx
    for an id that is not a node, the files are left as they were and no
    output is returned. *)
Theorem topology_error_iff inp w :
  let g := sat_net_graph_without_gs inp in
  let n_sat := len_satellites inp in
  ((exists w' msg,
       algorithm_free_one_only_over_isls inp w = (w', Err (ValueError msg))) <->
   number_of_nodes g <> n_sat \/
   exists sid, sid < n_sat /\
               (forall j, j < sid -> is_Some (assoc j g)) /\
               has_gs_link g n_sat sid) /\
  (forall w' msg,
      algorithm_free_one_only_over_isls inp w = (w', Err (ValueError msg)) ->
      w' = w) /\
  (forall e,
      check_graph g n_sat = Err e ->
      algorithm_free_one_only_over_isls inp w = (w, Err e)).
Proof.
  intros g n_sat. split_and!.
  - split.
    + intros (w' & msg & [H _]%algorithm_ValueError).
      apply check_graph_ValueError in H as [[? _]|(_ & _ & ?)]; [by left|by right].
    + intros [Hn|Hs].
      * exists w, node_count_msg. apply algorithm_ValueError. split; [|done].
        apply check_graph_ValueError. by left.
      * destruct (decide (number_of_nodes g = n_sat)) as [Hn|Hn].
        -- exists w, gs_link_msg. apply algorithm_ValueError. split; [|done].
           apply check_graph_ValueError. by right.
        -- exists w, node_count_msg. apply algorithm_ValueError. split; [|done].
           apply check_graph_ValueError. by left.
  - by intros w' msg [_ ->]%algorithm_ValueError.
  - intros e. apply check_failure_emits_nothing.
Qed.

(** C8, as stated, fails on [example_gap]: satellite 1 has a link to node
    5, but the check asks networkx for the neighbours of satellite 0 first,
    and the epoch stops with the error of networkx, not with a
    [ValueError]. *)
Lemma topology_error_masked :
  let g := sat_net_graph_without_gs example_gap in
  algorithm_free_one_only_over_isls example_gap no_files
    = (no_files, Err (NetworkXError 0)) /\
  number_of_nodes g = 2 /\
  has_gs_link g 2 1 /\
  ~ ((exists w' msg,
         algorithm_free_one_only_over_isls example_gap no_files
           = (w', Err (ValueError msg))) <->
     (number_of_nodes g <> 2 \/ exists sid, sid < 2 /\ has_gs_link g 2 sid)).
Proof.
  assert (has_gs_link (sat_net_graph_without_gs example_gap) 2 1) as Hlink.
  { exists [(5, 1%Z)], 5. split_and!; [done| |lia]. by left. }
  split_and!; [done..|].
  intros [_ H]. destruct H as (w' & msg & H).
  - right. exists 1. split; [lia|done].
  - vm_compute in H. discriminate.
Qed.

(** ** Well-formed inputs *)

(** *** The distance matrix is square *)

Lemma square_lookup n A i j :
  square n A -> i < n -> j < n -> exists d, matrix_get A i j = Ok d.
Proof.
  intros [Hlen Hrows] Hi Hj. unfold matrix_get.
  destruct (lookup_lt_is_Some_2 A i) as [row Hrow]; [lia|].
  rewrite Hrow. cbn.
  rewrite Forall_forall in Hrows.
  assert (length row = n) as Hr by (eapply Hrows, list_elem_of_lookup_2, Hrow).
  destruct (lookup_lt_is_Some_2 row j) as [d Hd]; [lia|].
  exists d. by rewrite Hd.
Qed.

Lemma square_to_numpy_array g : square (number_of_nodes g) (to_numpy_array g).
Proof.
  unfold square, to_numpy_array, number_of_nodes. split.
  - by rewrite length_map, length_fmap.
  - apply Forall_forall. intros row (u & -> & _)%list_elem_of_fmap.
    by rewrite length_map, length_fmap.
Qed.

Lemma square_fill_diagonal n A : square n A -> square n (fill_diagonal A).
Proof.
  unfold square, fill_diagonal. intros [Hlen Hrows]. split.
  - by rewrite length_imap.
  - apply Forall_forall. intros row (i & Hi)%list_elem_of_lookup_1.
    rewrite list_lookup_imap in Hi.
    destruct (A !! i) as [r|] eqn:E; [|done]. injection Hi as <-.
    rewrite length_insert. rewrite Forall_forall in Hrows.
    eapply Hrows, list_elem_of_lookup_2, E.
Qed.

Lemma square_floyd_warshall_step n A i :
  i < n -> square n A -> square n (floyd_warshall_step A i).
Proof.
  unfold square, floyd_warshall_step. intros Hi [Hlen Hrows].
  rewrite Forall_forall in Hrows.
  destruct (lookup_lt_is_Some_2 A i) as [row_i Hrow]; [lia|].
  rewrite Hrow. cbn [from_option].
  assert (length row_i = n) as Hr by (eapply Hrows, list_elem_of_lookup_2, Hrow).
  split.
  - by rewrite length_map.
  - apply Forall_forall. intros row (row_j & -> & Hj)%list_elem_of_fmap.
    rewrite length_zip_with. unfold id. rewrite Hr, (Hrows _ Hj). lia.
Qed.

Lemma square_floyd_warshall_numpy g :
  square (number_of_nodes g) (floyd_warshall_numpy g).
Proof.
  unfold floyd_warshall_numpy.
  assert (forall l A, Forall (fun i => i < number_of_nodes g) l ->
                      square (number_of_nodes g) A ->
                      square (number_of_nodes g) (foldl floyd_warshall_step A l))
    as Hfold.
  { induction l as [|i l IH]; intros A Hl HA; [done|].
    apply Forall_cons in Hl as [Hi Hl]. cbn [foldl].
    apply IH; [done|]. by apply square_floyd_warshall_step. }
  apply Hfold.
  - apply Forall_forall. intros i Hi%elem_of_seq. lia.
  - apply square_fill_diagonal, square_to_numpy_array.
Qed.

(** *** Loops that raise nothing *)

Lemma for_each_total {A St : Type} (l : list A) (body : A -> St -> Result St) :
  (forall x st, x ∈ l -> exists st', body x st = Ok st') ->
  forall st, exists st', for_each l body st = Ok st'.
Proof.
  induction l as [|x l IH]; intros Hb st; cbn [for_each].
  - by exists st.
  - destruct (Hb x st) as [st1 ->]; [by left|]. cbn.
    apply IH. intros y st2 Hy. apply Hb. by right.
Qed.

Lemma check_graph_Ok g n_sat :
  number_of_nodes g = n_sat ->
  (forall sid, sid < n_sat -> is_Some (assoc sid g)) ->
  (forall sid adj n, sid < n_sat -> assoc sid g = Some adj -> n ∈ adj.*1 ->
                     n < n_sat) ->
  check_graph g n_sat = Ok tt.
Proof.
  intros Hn Hnodes Hlinks. unfold check_graph.
  rewrite decide_False by (intros H; by apply H).
  destruct (for_each_total (seq 0 n_sat)
              (fun sid (_ : unit) =>
                 nbrs ← neighbors g sid;
                 for_each nbrs (fun n (_ : unit) =>
                                  if decide (n_sat <= n)
                                  then Err (ValueError gs_link_msg)
                                  else Ok tt) tt)) with tt as [[] H]; [|exact H].
  intros sid [] Hsid%elem_of_seq. exists tt. rewrite check_satellite.
  destruct (Hnodes sid) as [adj Hadj]; [lia|]. rewrite Hadj.
  rewrite decide_False; [done|].
  intros (n & Hin & Hle)%Exists_exists.
  assert (n < n_sat) by (eapply Hlinks; [|done..]; lia). lia.
Qed.

Lemma for_eachM_total {A St : Type} (l : list A) (body : A -> St -> M St) :
  (forall x st w, x ∈ l -> exists st' w', body x st w = (w', Ok st')) ->
  forall st w, exists st' w', for_eachM l body st w = (w', Ok st').
Proof.
  induction l as [|x l IH]; intros Hb st w; cbn [for_eachM].
  - by exists st, w.
  - unfold mbind, M_bind.
    destruct (Hb x st w) as (st1 & w1 & ->); [by left|].
    apply IH. intros y st2 w2 Hy. apply Hb. by right.
Qed.

Section WellFormed.

Variable inp : Input.
Hypothesis wf : well_formed inp.

Lemma wf_matrix_get i j :
  i < len_satellites inp -> j < len_satellites inp ->
  exists d, matrix_get (dist_of inp) i j = Ok d.
Proof.
  apply square_lookup. rewrite <- (wf_number_of_nodes inp wf).
  apply square_floyd_warshall_numpy.
Qed.

Lemma wf_next_hop_step curr dst_sat adj n st :
  curr < len_satellites inp -> dst_sat < len_satellites inp ->
  assoc curr (sat_net_graph_without_gs inp) = Some adj -> n ∈ adj.*1 ->
  exists st', next_hop_step inp (dist_of inp) curr dst_sat n st = Ok st'.
Proof.
  intros Hc Hd Hadj Hn.
  destruct (wf_links inp wf curr adj n Hc Hadj Hn) as (Hlt & [i1 Hi1] & [i2 Hi2]).
  destruct (wf_matrix_get curr n Hc Hlt) as [d1 Hd1].
  destruct (wf_matrix_get n dst_sat Hlt Hd) as [d2 Hd2].
  unfold next_hop_step. rewrite Hd1, Hd2. cbn.
  destruct (DistOps.ltb _ _); [|by eexists].
  rewrite Hi1, Hi2. cbn. by eexists.
Qed.

Lemma wf_sat_to_gs_decision curr g :
  curr < len_satellites inp -> g < len_ground_stations inp ->
  exists r, sat_to_gs_decision inp (dist_of inp) curr g = Ok r.
Proof.
  intros Hc Hg. unfold sat_to_gs_decision.
  destruct (wf_visibility inp wf g Hg) as (vis & Hvis & Hsats).
  rewrite Hvis. cbn.
  assert (possibilities_sat_to_gs (dist_of inp) curr vis
          = Ok (sorted (candidates_sat_to_gs (dist_of inp) curr vis))) as ->.
  { apply possibilities_sat_to_gs_Ok. split; [|done].
    apply Forall_forall. intros [a s] Hin. apply wf_matrix_get; [done|].
    by eapply Hsats. }
  cbn. destruct (sorted _) as [|[c s] t] eqn:Es; [by eexists|].
  assert (s < len_satellites inp) as Hs.
  { apply sorted_head_least in Es as [Hin _].
    apply elem_of_candidates_sat_to_gs in Hin as (a & d & Hin & _).
    by eapply Hsats. }
  destruct (decide (curr <> s)) as [Hne|Heq].
  - destruct (wf_nodes inp wf curr Hc) as [adj Hadj].
    unfold neighbors. rewrite Hadj. cbn.
    destruct (for_each_total adj.*1 (next_hop_step inp (dist_of inp) curr s))
      with (drop, best_dist_init) as [[e b] ->]; [|cbn; by eexists].
    intros n st Hn. by eapply wf_next_hop_step.
  - destruct (wf_num_isls inp wf s Hs) as [n ->]. cbn. by eexists.
Qed.

Lemma wf_gs_to_gs_decision s d :
  s < len_ground_stations inp -> d < len_ground_stations inp ->
  exists e, gs_to_gs_decision inp (cache_of inp) s d = Ok e.
Proof.
  intros Hs Hd. unfold gs_to_gs_decision.
  destruct (wf_visibility inp wf s Hs) as (vis & Hvis & Hsats).
  rewrite Hvis. cbn.
  assert (possibilities_gs_to_gs (cache_of inp) (len_satellites inp + d) vis
          = Ok (sorted (candidates_gs_to_gs (cache_of inp)
                          (len_satellites inp + d) vis))) as ->.
  { apply possibilities_gs_to_gs_Ok. split; [|done].
    apply Forall_forall. intros [a sat] Hin. cbn [snd].
    rewrite cache_lookup; [done| |done]. by eapply Hsats. }
  cbn. destruct (sorted _) as [|[c sat] t] eqn:Es; [by eexists|].
  assert (sat < len_satellites inp) as Hsat.
  { apply sorted_head_least in Es as [Hin _].
    apply elem_of_candidates_gs_to_gs in Hin as (a & d' & Hin & _).
    by eapply Hsats. }
  destruct (wf_num_isls inp wf sat Hsat) as [n ->]. cbn. by eexists.
Qed.

Lemma wf_decisions_ok : decisions_ok inp.
Proof.
  split; apply Forall_forall.
  - intros [curr g] [Hc Hg]%elem_of_sat_gs_items.
    destruct (wf_sat_to_gs_decision curr g Hc Hg) as [[e d] Hr].
    exists e. unfold sat_to_gs_entry. cbn [fst snd]. by rewrite Hr.
  - intros [s d] (Hs & Hd & _)%elem_of_gs_gs_items.
    by apply wf_gs_to_gs_decision.
Qed.

Lemma wf_all_items_ok : all_items_ok inp.
Proof.
  apply all_items_ok_alt. split; [apply wf_decisions_ok|].
  intros k v Hkv. unfold prev_fstate_of, changed.
  destruct (prev_output inp) as [prev|] eqn:Hp; cbn; [|by eexists].
  destruct (decide (fstate prev = ∅)) as [He|Hne]; [by eexists|].
  destruct (wf_prev_output inp wf prev Hp Hne k v Hkv) as [old ->].
  cbn. by eexists.
Qed.

Lemma wf_aggregate_max_bandwidth node_id :
  node_id < len_satellites inp + len_ground_stations inp ->
  exists bw, aggregate_max_bandwidth inp node_id = Ok bw.
Proof.
  intros Hn. destruct (wf_bandwidth inp wf node_id Hn) as (info & bw & Hi & Hbw).
  exists bw. unfold aggregate_max_bandwidth. rewrite Hi. cbn. by rewrite Hbw.
Qed.

Lemma wf_bandwidth_state w :
  exists w1, bandwidth_state inp w = (w1, Ok tt).
Proof.
  unfold bandwidth_state. unfold mbind at 1, M_bind.
  unfold open_gsl_if_bandwidth at 1.
  destruct (decide (time_since_epoch_ns inp = 0%Z)); [|by eexists].
  unfold mbind at 1, M_bind.
  match goal with |- context [for_eachM ?l ?b tt ?w0] =>
    destruct (for_eachM_total l b) with tt w0 as ([] & w1 & ->) end.
  { intros node_id [] w' Hn%elem_of_seq.
    destruct (wf_num_isls inp wf node_id) as [n Hn']; [lia|].
    destruct (wf_aggregate_max_bandwidth node_id) as [bw Hbw]; [lia|].
    unfold mbind, M_bind, lift. rewrite Hn'. cbn. rewrite Hbw. cbn.
    by eexists _, _. }
  match goal with |- context [for_eachM ?l ?b tt ?w0] =>
    destruct (for_eachM_total l b) with tt w0 as ([] & w2 & ->) end.
  { intros node_id [] w' Hn%elem_of_seq.
    destruct (wf_aggregate_max_bandwidth node_id) as [bw Hbw]; [lia|].
    unfold mbind, M_bind, lift. rewrite Hbw. cbn. by eexists _, _. }
  by eexists.
Qed.

(** X1. On a well-formed input the epoch raises nothing: it returns the table
    and writes its files. *)
Theorem well_formed_epoch_succeeds w :
  exists w' out, algorithm_free_one_only_over_isls inp w = (w', Ok out).
Proof.
  destruct (wf_bandwidth_state w) as [w1 Hbw].
  eexists _, {| fstate := insert_all (table_lines inp) ∅ |}.
  apply algorithm_Ok. split.
  - apply check_graph_Ok; [apply wf|apply wf|].
    intros sid adj n Hs Hadj Hn. by eapply (wf_links inp wf).
  - exists w1. split; [done|]. apply forwarding_state_Ok.
    split_and!; [apply wf_all_items_ok|done..].
Qed.

End WellFormed.

Lemma example_line_well_formed : well_formed example_line.
Proof.
  split.
  - done.
  - intros sid Hs. simpl in Hs.
    destruct sid as [|[|[|sid]]]; [by eexists..|lia].
  - intros sid adj n Hs Hadj Hn. simpl in Hs.
    destruct sid as [|[|[|sid]]]; [..|lia]; injection Hadj as <-;
      repeat (apply elem_of_cons in Hn as [->|Hn]; [by vm_compute; split_and!; try lia; eexists|]);
      by apply elem_of_nil in Hn.
  - intros g Hg. simpl in Hg.
    destruct g as [|[|g]]; [..|lia]; eexists; (split; [reflexivity|]);
      intros a s [[= -> ->]|Hin%elem_of_nil]%elem_of_cons; simpl; try lia; done.
  - intros sid Hs. simpl in Hs.
    destruct sid as [|[|[|sid]]]; [by eexists..|lia].
  - intros node_id Hn. simpl in Hn.
    do 5 (destruct node_id as [|node_id]; [by eexists _, _|]). lia.
  - intros prev Hp. done.
Qed.

Lemma well_formed_epoch_succeeds_witness :
  exists w' out, algorithm_free_one_only_over_isls example_line no_files = (w', Ok out).
Proof.
  apply (well_formed_epoch_succeeds example_line example_line_well_formed no_files).
Defined.

(** ** Floyd-Warshall: a first hop towards every reachable satellite *)

Ltac dist_solve :=
  intros;
  repeat match goal with x : Dist |- _ => destruct x end;
  unfold DistOps.min, DistOps.leb, DistOps.ltb, DistOps.add in *;
  repeat case_match; simplify_eq;
  rewrite ?Z.ltb_lt, ?Z.ltb_ge, ?Z.leb_le, ?Z.leb_gt in *;
  try done; try lia.

Lemma min_nonneg (a b c : Dist) :
  DistOps.leb (Fin 0) a = true -> DistOps.leb (Fin 0) b = true ->
  DistOps.leb (Fin 0) c = true ->
  DistOps.leb (Fin 0) (DistOps.min a (DistOps.add b c)) = true.
Proof. dist_solve. Qed.

Lemma min_zero (b c : Dist) :
  DistOps.leb (Fin 0) b = true -> DistOps.leb (Fin 0) c = true ->
  DistOps.min (Fin 0) (DistOps.add b c) = Fin 0.
Proof. dist_solve. Qed.

Lemma min_le_trans (a x a0 : Dist) :
  DistOps.leb a a0 = true -> DistOps.leb (DistOps.min a x) a0 = true.
Proof. dist_solve. Qed.

Lemma add_zero_not_less (b : Dist) :
  DistOps.ltb (DistOps.add b (Fin 0)) b = false.
Proof. dist_solve. Qed.

Lemma less_add_finite (a b c : Dist) :
  DistOps.ltb (DistOps.add b c) a = true -> c <> Inf.
Proof. dist_solve. Qed.

(** The first hop of the way to [k] is a first hop of the way over [k]. *)
Lemma hop_over (a b c e f g : Dist) :
  DistOps.ltb (DistOps.add b c) a = true ->
  DistOps.leb (DistOps.add e f) c = true ->
  DistOps.leb (DistOps.add e (DistOps.min g (DistOps.add b f)))
              (DistOps.min a (DistOps.add b c)) = true.
Proof. dist_solve. Qed.

(** A first hop stays one when the way behind it gets shorter. *)
Lemma hop_kept (a b c e f g : Dist) :
  DistOps.ltb (DistOps.add b c) a = false ->
  DistOps.leb (DistOps.add e g) a = true ->
  DistOps.leb (DistOps.add e (DistOps.min g (DistOps.add b f)))
              (DistOps.min a (DistOps.add b c)) = true.
Proof. dist_solve. Qed.

Lemma min_not_less (a x : Dist) :
  DistOps.ltb x a = false -> DistOps.min a x = a.
Proof. dist_solve. Qed.

Lemma hop_shorter (a e f g0 : Dist) :
  DistOps.leb g0 e = true -> DistOps.leb (DistOps.add e f) a = true ->
  DistOps.leb (DistOps.add g0 f) a = true.
Proof. dist_solve. Qed.

Lemma matrix_at_Ok A i j d : matrix_get A i j = Ok d -> matrix_at A i j = d.
Proof. unfold matrix_at. by intros ->. Qed.

Lemma matrix_at_lookup A i j :
  matrix_at A i j = default Inf (A !! i ≫= fun row => row !! j).
Proof.
  unfold matrix_at, matrix_get.
  destruct (A !! i) as [row|]; cbn; [|done]. by destruct (row !! j).
Qed.

Lemma matrix_at_step n A k i j :
  square n A -> k < n -> i < n -> j < n ->
  matrix_at (floyd_warshall_step A k) i j =
  DistOps.min (matrix_at A i j)
              (DistOps.add (matrix_at A k j) (matrix_at A i k)).
Proof.
  intros [Hlen Hrows] Hk Hi Hj. rewrite !matrix_at_lookup.
  unfold floyd_warshall_step. rewrite Forall_forall in Hrows.
  destruct (lookup_lt_is_Some_2 A k) as [row_k Hrk]; [lia|].
  destruct (lookup_lt_is_Some_2 A i) as [row_i Hri]; [lia|].
  assert (length row_k = n) by (eapply Hrows, list_elem_of_lookup_2, Hrk).
  assert (length row_i = n) by (eapply Hrows, list_elem_of_lookup_2, Hri).
  destruct (lookup_lt_is_Some_2 row_k j) as [a_kj Hkj]; [lia|].
  destruct (lookup_lt_is_Some_2 row_i j) as [a_ij Hij]; [lia|].
  destruct (lookup_lt_is_Some_2 row_i k) as [a_ik Hik]; [lia|].
  rewrite list_lookup_fmap, Hri, Hrk. cbn.
  rewrite lookup_zip_with, Hij, Hkj, Hik. done.
Qed.

Lemma matrix_at_fill_diagonal n A i j :
  square n A -> i < n -> j < n ->
  matrix_at (fill_diagonal A) i j = if decide (i = j) then Fin 0 else matrix_at A i j.
Proof.
  intros [Hlen Hrows] Hi Hj. rewrite !matrix_at_lookup.
  unfold fill_diagonal. rewrite list_lookup_imap. rewrite Forall_forall in Hrows.
  destruct (lookup_lt_is_Some_2 A i) as [row Hr]; [lia|].
  assert (length row = n) by (eapply Hrows, list_elem_of_lookup_2, Hr).
  rewrite Hr. cbn. destruct (decide (i = j)) as [->|Hne].
  - rewrite list_lookup_insert_eq by lia. done.
  - by rewrite list_lookup_insert_ne.
Qed.

Lemma matrix_at_to_numpy_array g i j :
  nodes_in_order g -> i < number_of_nodes g -> j < number_of_nodes g ->
  matrix_at (to_numpy_array g) i j = edge_weight g i j.
Proof.
  intros Ho Hi Hj. rewrite matrix_at_lookup. unfold to_numpy_array.
  rewrite Ho.
  change (map ?f ?l) with (f <$> l).
  rewrite list_lookup_fmap, lookup_seq_lt by done. cbn.
  rewrite list_lookup_fmap, lookup_seq_lt by done. done.
Qed.

Lemma matrix_at_initial g i j :
  nodes_in_order g -> i < number_of_nodes g -> j < number_of_nodes g ->
  matrix_at (fill_diagonal (to_numpy_array g)) i j =
  if decide (i = j) then Fin 0 else edge_weight g i j.
Proof.
  intros Ho Hi Hj.
  rewrite (matrix_at_fill_diagonal _ _ _ _ (square_to_numpy_array g)) by done.
  destruct (decide (i = j)); [done|]. by apply matrix_at_to_numpy_array.
Qed.

Lemma floyd_warshall_inv_init g :
  nodes_in_order g -> nonneg_weights g ->
  floyd_warshall_inv (number_of_nodes g)
    (fill_diagonal (to_numpy_array g)) (fill_diagonal (to_numpy_array g)).
Proof.
  intros Ho Hw.
  split; [apply square_fill_diagonal, square_to_numpy_array|].
  intros i j Hi Hj.
  assert (matrix_at (fill_diagonal (to_numpy_array g)) j j = Fin 0) as Hjj.
  { rewrite matrix_at_initial by done. by destruct (decide (j = j)). }
  assert (matrix_at (fill_diagonal (to_numpy_array g)) i i = Fin 0) as Hii.
  { rewrite matrix_at_initial by done. by destruct (decide (i = i)). }
  split_and!.
  - rewrite matrix_at_initial by done. destruct (decide (i = j)); [done|].
    specialize (Hw i j). destruct (edge_weight g i j); [|done].
    by apply Z.leb_le.
  - done.
  - destruct (matrix_at _ i j); [by apply Z.leb_le|done].
  - intros Hne Hfin. exists j. split_and!; [done|done|done|].
    rewrite Hjj. destruct (matrix_at _ i j); [|done]. cbn. apply Z.leb_le. lia.
Qed.

Lemma floyd_warshall_inv_step n A0 A k :
  k < n -> floyd_warshall_inv n A0 A ->
  floyd_warshall_inv n A0 (floyd_warshall_step A k).
Proof.
  intros Hk [Hsq Hinv]. split; [by apply square_floyd_warshall_step|].
  intros i j Hi Hj.
  rewrite !(matrix_at_step n) by done.
  destruct (Hinv i j Hi Hj) as (Hij0 & Hii & Hijle & Hijhop).
  destruct (Hinv k j Hk Hj) as (Hkj0 & Hkk & _ & _).
  destruct (Hinv i k Hi Hk) as (Hik0 & _ & _ & Hikhop).
  destruct (Hinv k i Hk Hi) as (Hki0 & _ & _ & _).
  split_and!.
  - by apply min_nonneg.
  - rewrite Hii. by apply min_zero.
  - by apply min_le_trans.
  - intros Hne Hfin.
    destruct (DistOps.ltb (DistOps.add (matrix_at A k j) (matrix_at A i k))
                          (matrix_at A i j)) eqn:Hlt.
    + assert (i <> k) as Hik.
      { intros ->. by rewrite Hkk, add_zero_not_less in Hlt. }
      destruct Hikhop as (m & Hm & Hmi & Hm0 & Hle);
        [done|by eapply less_add_finite|].
      exists m. split_and!; [done..|].
      rewrite (matrix_at_step n) by done. by apply hop_over.
    + rewrite min_not_less in Hfin by done.
      destruct Hijhop as (m & Hm & Hmi & Hm0 & Hle); [done..|].
      exists m. split_and!; [done..|].
      rewrite (matrix_at_step n) by done. by apply hop_kept.
Qed.

Lemma floyd_warshall_numpy_inv g :
  nodes_in_order g -> nonneg_weights g ->
  floyd_warshall_inv (number_of_nodes g)
    (fill_diagonal (to_numpy_array g)) (floyd_warshall_numpy g).
Proof.
  intros Ho Hw. unfold floyd_warshall_numpy.
  assert (forall l A,
             Forall (fun k => k < number_of_nodes g) l ->
             floyd_warshall_inv (number_of_nodes g)
               (fill_diagonal (to_numpy_array g)) A ->
             floyd_warshall_inv (number_of_nodes g)
               (fill_diagonal (to_numpy_array g)) (foldl floyd_warshall_step A l))
    as Hfold.
  { induction l as [|k l IH]; intros A Hl HA; [done|].
    apply Forall_cons in Hl as [Hk Hl]. cbn [foldl].
    apply IH; [done|]. by apply floyd_warshall_inv_step. }
  apply Hfold.
  - apply Forall_forall. intros k Hk%elem_of_seq. lia.
  - by apply floyd_warshall_inv_init.
Qed.

(** A satellite at a finite distance from another one has a neighbour over
    which the way is no longer than this distance. *)
Lemma floyd_warshall_first_hop g i j :
  nodes_in_order g -> nonneg_weights g ->
  i < number_of_nodes g -> j < number_of_nodes g -> i <> j ->
  matrix_at (floyd_warshall_numpy g) i j <> Inf ->
  exists m, m < number_of_nodes g /\ m <> i /\ edge_weight g i m <> Inf /\
            DistOps.leb
              (DistOps.add (matrix_at (floyd_warshall_numpy g) i m)
                           (matrix_at (floyd_warshall_numpy g) m j))
              (matrix_at (floyd_warshall_numpy g) i j) = true.
Proof.
  intros Ho Hw Hi Hj Hne Hfin.
  destruct (floyd_warshall_numpy_inv g Ho Hw) as [Hsq Hinv].
  destruct (Hinv i j Hi Hj) as (_ & _ & _ & Hhop).
  destruct (Hhop Hne Hfin) as (m & Hm & Hmi & Hm0 & Hle).
  destruct (Hinv i m Hi Hm) as (Him0 & _ & Himle & _).
  destruct (Hinv m j Hm Hj) as (Hmj0 & _ & _ & _).
  rewrite (matrix_at_fill_diagonal _ _ _ _ (square_to_numpy_array g)) in Hm0, Hle, Himle
    by done.
  rewrite decide_False in Hm0, Hle, Himle by done.
  rewrite matrix_at_to_numpy_array in Hm0, Hle, Himle by done.
  exists m. split_and!; [done..|]. by eapply hop_shorter.
Qed.

Lemma assoc_Some_elem {V : Type} (k : nat) (l : list (nat * V)) (v : V) :
  assoc k l = Some v -> k ∈ l.*1.
Proof.
  induction l as [|[k' v'] l IH]; cbn; [done|].
  destruct (decide (k = k')) as [->|Hne]; [intros _; by left|].
  intros H. right. by apply IH.
Qed.

Lemma edge_weight_neighbor g i m :
  edge_weight g i m <> Inf ->
  exists adj, assoc i g = Some adj /\ m ∈ adj.*1.
Proof.
  unfold edge_weight. destruct (assoc i g) as [adj|]; [|done].
  destruct (assoc m adj) as [w|] eqn:E; [|done].
  intros _. exists adj. split; [done|]. by eapply assoc_Some_elem.
Qed.

Lemma square_get_lt n A i j d :
  square n A -> matrix_get A i j = Ok d -> i < n /\ j < n.
Proof.
  intros [Hlen Hrows] H. unfold matrix_get in H.
  destruct (A !! i) as [row|] eqn:Hr; [|done]. cbn in H.
  destruct (row !! j) as [d'|] eqn:Hd; [|done].
  apply lookup_lt_Some in Hd. rewrite Forall_forall in Hrows.
  rewrite (Hrows row) in Hd by (by eapply list_elem_of_lookup_2).
  apply lookup_lt_Some in Hr. lia.
Qed.

Lemma path_via_at n A curr dst m :
  square n A -> curr < n -> dst < n -> m < n ->
  path_via A curr dst m = DistOps.add (matrix_at A curr m) (matrix_at A m dst).
Proof.
  intros Hsq Hc Hd Hm. unfold path_via, matrix_at.
  destruct (square_lookup n A curr m Hsq Hc Hm) as [d1 ->].
  destruct (square_lookup n A m dst Hsq Hm Hd) as [d2 ->]. done.
Qed.

(** Below the bound, a satellite at a finite distance from the selected
    one has a neighbour that passes the test of line 153. *)
Lemma neighbor_below_bound inp curr dst_sat d :
  nodes_in_order (sat_net_graph_without_gs inp) ->
  nonneg_weights (sat_net_graph_without_gs inp) ->
  below_bound inp ->
  curr <> dst_sat ->
  matrix_get (dist_of inp) curr dst_sat = Ok (Fin d) ->
  exists nbrs n,
    neighbors (sat_net_graph_without_gs inp) curr = Ok nbrs /\ n ∈ nbrs /\
    DistOps.ltb (path_via (dist_of inp) curr dst_sat n) best_dist_init = true.
Proof.
  intros Ho Hw Hb Hne Hd.
  pose proof (square_floyd_warshall_numpy (sat_net_graph_without_gs inp)) as Hsq.
  fold (dist_of inp) in Hsq.
  destruct (square_get_lt _ _ _ _ _ Hsq Hd) as [Hc Hs].
  destruct (floyd_warshall_first_hop _ curr dst_sat Ho Hw Hc Hs Hne)
    as (m & Hm & _ & Hedge & Hle).
  { fold (dist_of inp). by rewrite (matrix_at_Ok _ _ _ _ Hd). }
  fold (dist_of inp) in Hle.
  destruct (edge_weight_neighbor _ _ _ Hedge) as (adj & Hadj & Hin).
  exists adj.*1, m. split_and!.
  - unfold neighbors. by rewrite Hadj.
  - done.
  - rewrite (path_via_at _ _ _ _ _ Hsq) by done.
    destruct (Hb curr dst_sat) as [Hlt|Hinf].
    + rewrite (matrix_at_Ok _ _ _ _ Hd) in Hlt, Hle.
      unfold best_dist_init in *.
      destruct (DistOps.add _ _) as [x|]; [|done].
      cbn in *. apply Z.ltb_lt. apply Z.ltb_lt in Hlt. apply Z.leb_le in Hle. lia.
    + by rewrite (matrix_at_Ok _ _ _ _ Hd) in Hinf.
Qed.

(** X2. Below the bound, and for a graph whose nodes were added in the order
    of their ids and whose links have no negative length, the entry of a
    satellite is the drop entry exactly when no satellite in range of the
    ground station is at a finite distance. *)
Theorem drop_iff_unreachable_below_bound inp w w' out curr g :
  algorithm_free_one_only_over_isls inp w = (w', Ok out) ->
  nodes_in_order (sat_net_graph_without_gs inp) ->
  nonneg_weights (sat_net_graph_without_gs inp) ->
  below_bound inp ->
  curr < len_satellites inp -> g < len_ground_stations inp ->
  exists vis,
    ground_station_satellites_in_range inp !! g = Some vis /\
    (fstate out !! (curr, len_satellites inp + g) = Some drop <->
     forall a s, (a, s) ∈ vis -> matrix_get (dist_of inp) curr s = Ok Inf).
Proof.
  intros (_ & w1 & _ & Hrun)%algorithm_Ok Ho Hw Hb Hc Hg.
  destruct (sat_gs_item_decision _ _ _ _ _ _ _ Hrun Hc Hg) as (e & d & Hd & _).
  destruct (selected_sat_to_gs_cases _ _ _ _ _ _ Hd) as (vis & Hvis & Hsel).
  exists vis. split; [done|].
  rewrite (sat_to_gs_drop_iff _ _ _ _ _ _ _ Hrun Hc Hg).
  destruct (selected_sat_to_gs _ _ _ _) as [[c s]|].
  - destruct Hsel as (_ & (a & d' & Hin & Hd' & _) & _). split.
    + intros [Hne Hall]. exfalso.
      destruct (neighbor_below_bound inp curr s d' Ho Hw Hb Hne Hd')
        as (nbrs & n & Hn & Hnin & Hlt).
      by rewrite (Hall _ _ Hn Hnin) in Hlt.
    + intros Hall. specialize (Hall _ _ Hin). congruence.
  - by destruct Hsel as [_ Hall].
Qed.

Lemma example_line_nonneg_weights :
  nonneg_weights (sat_net_graph_without_gs example_line).
Proof.
  intros u v. unfold edge_weight. simpl.
  repeat (case_decide; simplify_eq/=; try lia); try done.
Qed.

Lemma example_line_below_bound : below_bound example_line.
Proof.
  intros i j.
  destruct (decide (i < 3 /\ j < 3)) as [[Hi Hj]|Hn].
  - left. destruct i as [|[|[|i]]]; [..|lia];
      (destruct j as [|[|[|j]]]; [..|lia]); by vm_compute.
  - right. unfold matrix_at.
    destruct (matrix_get (dist_of example_line) i j) as [d|] eqn:E; [|done].
    apply (square_get_lt 3) in E; [lia|].
    apply (square_floyd_warshall_numpy (sat_net_graph_without_gs example_line)).
Qed.

Lemma drop_iff_unreachable_below_bound_witness :
  exists vis,
    ground_station_satellites_in_range example_line !! 0 = Some vis /\
    (example_line_fstate !! (2, len_satellites example_line + 0) = Some drop <->
     forall a s, (a, s) ∈ vis -> matrix_get (dist_of example_line) 2 s = Ok Inf).
Proof.
  apply (drop_iff_unreachable_below_bound example_line no_files example_line_files
           {| fstate := example_line_fstate |} 2 0).
  - vm_compute. reflexivity.
  - reflexivity.
  - exact example_line_nonneg_weights.
  - exact example_line_below_bound.
  - simpl. lia.
  - simpl. lia.
Defined.

(** X3. Below the bound, when the selected satellite is another one, the next
    hop is the first neighbour, in the order of enumeration, over which the
    way to the selected satellite is the shortest, with the interface of
    [curr] towards it and its interface towards [curr]. *)
Theorem next_hop_below_bound inp w w' out curr g c dst_sat :
  algorithm_free_one_only_over_isls inp w = (w', Ok out) ->
  nodes_in_order (sat_net_graph_without_gs inp) ->
  nonneg_weights (sat_net_graph_without_gs inp) ->
  below_bound inp ->
  curr < len_satellites inp -> g < len_ground_stations inp ->
  selected_sat_to_gs inp (dist_of inp) curr g = Some (c, dst_sat) ->
  curr <> dst_sat ->
  exists nbrs i n if_out if_in,
    neighbors (sat_net_graph_without_gs inp) curr = Ok nbrs /\
    nbrs !! i = Some n /\
    sat_neighbor_to_if inp !! (curr, n) = Some if_out /\
    sat_neighbor_to_if inp !! (n, curr) = Some if_in /\
    fstate out !! (curr, len_satellites inp + g) = Some (Z.of_nat n, if_out, if_in) /\
    (forall j m, j < i -> nbrs !! j = Some m ->
                 DistOps.ltb (path_via (dist_of inp) curr dst_sat n)
                             (path_via (dist_of inp) curr dst_sat m) = true) /\
    (forall m, m ∈ nbrs ->
               DistOps.ltb (path_via (dist_of inp) curr dst_sat m)
                           (path_via (dist_of inp) curr dst_sat n) = false).
Proof.
  intros (_ & w1 & _ & Hrun)%algorithm_Ok Ho Hw Hb Hc Hg Hsel Hne.
  destruct (sat_gs_item_decision _ _ _ _ _ _ _ Hrun Hc Hg) as (e & d & Hd & _).
  destruct (selected_sat_to_gs_cases _ _ _ _ _ _ Hd) as (vis & Hvis & Hcases).
  rewrite Hsel in Hcases. destruct Hcases as (_ & (a & d' & _ & Hd' & _) & _).
  destruct (neighbor_below_bound inp curr dst_sat d' Ho Hw Hb Hne Hd')
    as (nbrs & n0 & Hn & Hn0 & Hlt).
  destruct (sat_to_gs_next_hop _ _ _ _ _ _ _ _ _ _ _ Hrun Hc Hg Hsel Hne Hn Hn0 Hlt)
    as (i & n & o1 & o2 & H).
  by exists nbrs, i, n, o1, o2.
Qed.

Lemma next_hop_below_bound_witness :
  selected_sat_to_gs example_line (dist_of example_line) 2 0 = Some (Fin 7, 0) /\
  exists nbrs i n if_out if_in,
    neighbors (sat_net_graph_without_gs example_line) 2 = Ok nbrs /\
    nbrs !! i = Some n /\
    sat_neighbor_to_if example_line !! (2, n) = Some if_out /\
    sat_neighbor_to_if example_line !! (n, 2) = Some if_in /\
    example_line_fstate !! (2, len_satellites example_line + 0)
      = Some (Z.of_nat n, if_out, if_in) /\
    (forall j m, j < i -> nbrs !! j = Some m ->
                 DistOps.ltb (path_via (dist_of example_line) 2 0 n)
                             (path_via (dist_of example_line) 2 0 m) = true) /\
    (forall m, m ∈ nbrs ->
               DistOps.ltb (path_via (dist_of example_line) 2 0 m)
                           (path_via (dist_of example_line) 2 0 n) = false).
Proof.
  split; [vm_compute; reflexivity|].
  apply (next_hop_below_bound example_line no_files example_line_files
           {| fstate := example_line_fstate |} 2 0 (Fin 7) 0).
  - vm_compute. reflexivity.
  - reflexivity.
  - exact example_line_nonneg_weights.
  - exact example_line_below_bound.
  - simpl. lia.
  - simpl. lia.
  - vm_compute. reflexivity.
  - lia.
Defined.

(** ** Floyd-Warshall computes the shortest-path distances *)









Lemma add_nonneg (a b : Dist) :
  DistOps.leb (Fin 0) a = true -> DistOps.leb (Fin 0) b = true ->
  DistOps.leb (Fin 0) (DistOps.add a b) = true.
Proof. dist_solve. Qed.







Lemma walk_length_nonneg g u p :
  nonneg_weights g -> DistOps.leb (Fin 0) (walk_length g u p) = true.
Proof.
  intros Hw. revert u. induction p as [|v p IH]; intros u; simpl; [done|].
  apply add_nonneg; [|apply IH].
  specialize (Hw u v). destruct (edge_weight g u v); simpl; [by apply Z.leb_le|done].
Qed.









(** ** The distance cached for the second stage *)





(** * Further properties of the epoch *)

(** ** The returned table and the previous output *)

(** X4. The table an epoch returns is the same whatever the previous output and
    whatever the files were before. *)
Theorem returned_table_independent_of_previous inp prev w w1 out1 w0 w2 out2 :
  algorithm_free_one_only_over_isls inp w = (w1, Ok out1) ->
  algorithm_free_one_only_over_isls (with_prev_output inp prev) w0 = (w2, Ok out2) ->
  out2 = out1.
Proof.
  intros (_ & H1 & _)%algorithm_Ok_spec (_ & H2 & _)%algorithm_Ok_spec.
  rewrite table_lines_with_prev_output in H2.
  destruct out1, out2. simpl in *. congruence.
Qed.

Lemma returned_table_independent_of_previous_witness :
  (algorithm_free_one_only_over_isls example_line no_files).2
    = Ok {| fstate := example_line_fstate |} /\
  (algorithm_free_one_only_over_isls
     (with_prev_output example_line (Some {| fstate := example_line_stale |}))
     no_files).2
    = Ok {| fstate := example_line_fstate |} /\
  {| fstate := example_line_fstate |} = {| fstate := example_line_fstate |}.
Proof.
  split_and!; [vm_compute; reflexivity..|].
  eapply (returned_table_independent_of_previous example_line
            (Some {| fstate := example_line_stale |}) no_files _ _ no_files).
  - vm_compute. reflexivity.
  - vm_compute. reflexivity.
Defined.

Lemma filter_changed_keys_NoDup inp prev :
  NoDup (filter (is_changed prev) (table_lines inp)).*1.
Proof.
  eapply sublist_NoDup; [apply NoDup_table_lines_keys|].
  apply fmap_sublist, sublist_filter.
Qed.

(** X5. The lines written are the difference between the previous table and the
    new one: assigning them, in order, to the previous table gives the new
    table on every computed key and leaves the other keys as they were. *)
Theorem emitted_lines_update_previous inp w w' out lines :
  algorithm_free_one_only_over_isls inp w = (w', Ok out) ->
  fstate_file w' = Some lines ->
  insert_all lines (previous_table inp) = fstate out ∪ previous_table inp.
Proof.
  intros (_ & Hfs & Hw)%algorithm_Ok_spec Hlines.
  rewrite Hw in Hlines. injection Hlines as <-. rewrite Hfs.
  apply map_eq. intros k. rewrite lookup_union.
  destruct (insert_all (table_lines inp) ∅ !! k) as [v|] eqn:Hk.
  - apply elem_of_table_lines in Hk.
    destruct (decide (is_changed (prev_fstate_of inp) (k, v))) as [Hc|Hc].
    + rewrite (insert_all_lookup _ _ k v).
      * by destruct (previous_table inp !! k).
      * apply filter_changed_keys_NoDup.
      * by apply list_elem_of_filter.
    + assert (previous_table inp !! k = Some v) as Hprev.
      { unfold previous_table, is_changed in *.
        destruct (prev_fstate_of inp) as [p|]; [|by destruct Hc]. simpl in *.
        destruct (decide (p !! k = Some v)); [done|by destruct Hc]. }
      rewrite insert_all_lookup_notin; [by rewrite Hprev|].
      intros ([k' v'] & -> & [Hc' Hin]%list_elem_of_filter)%list_elem_of_fmap.
      simpl in *. apply elem_of_table_lines in Hk, Hin.
      assert (v' = v) as -> by congruence. done.
  - rewrite insert_all_lookup_notin; [by destruct (previous_table inp !! k)|].
    intros ([k' v'] & -> & [_ Hin]%list_elem_of_filter)%list_elem_of_fmap.
    apply elem_of_table_lines in Hin. simpl in *. congruence.
Qed.

Lemma emitted_lines_update_previous_witness :
  insert_all [((0, 3), (3, 1, 0)%Z)]
             (previous_table (with_prev_output example_line
                                (Some {| fstate := example_line_stale |})))
  = example_line_fstate
    ∪ previous_table (with_prev_output example_line
                        (Some {| fstate := example_line_stale |})).
Proof.
  eapply (emitted_lines_update_previous
            (with_prev_output example_line (Some {| fstate := example_line_stale |}))
            no_files _ {| fstate := example_line_fstate |}).
  - vm_compute. reflexivity.
  - vm_compute. reflexivity.
Defined.

(** ** The shape of the entries of a satellite *)

Lemma next_hop_loop_neighbor inp dist curr dst_sat nbrs e0 b0 e b :
  for_each nbrs (next_hop_step inp dist curr dst_sat) (e0, b0) = Ok (e, b) ->
  e = e0 \/
  exists n if_out if_in,
    n ∈ nbrs /\
    sat_neighbor_to_if inp !! (curr, n) = Some if_out /\
    sat_neighbor_to_if inp !! (n, curr) = Some if_in /\
    e = (Z.of_nat n, if_out, if_in).
Proof.
  intros [(-> & _)|(i & n & o1 & o2 & Hi & Ho1 & Ho2 & -> & _)]%next_hop_loop.
  - by left.
  - right. exists n, o1, o2. split_and!; try done.
    by eapply list_elem_of_lookup_2.
Qed.

(** X6. The entry of a satellite for a ground station is the drop entry, or
    the ground station itself, reached over the access interface of the
    satellite from interface 0 of the ground station, or a neighbour of the
    satellite in the graph with the two interfaces of their link: a
    satellite never forwards to a node it has no link to. *)
Theorem sat_entry_shape inp w w' fs cache curr g e :
  forwarding_state inp w = (w', Ok (fs, cache)) ->
  curr < len_satellites inp -> g < len_ground_stations inp ->
  fs !! (curr, len_satellites inp + g) = Some e ->
  e = drop \/
  (exists n_isls,
      num_isls_per_sat inp !! curr = Some n_isls /\
      e = (Z.of_nat (len_satellites inp + g), n_isls, 0%Z)) \/
  (exists adj n if_out if_in,
      assoc curr (sat_net_graph_without_gs inp) = Some adj /\
      n ∈ adj.*1 /\
      sat_neighbor_to_if inp !! (curr, n) = Some if_out /\
      sat_neighbor_to_if inp !! (n, curr) = Some if_in /\
      e = (Z.of_nat n, if_out, if_in)).
Proof.
  intros Hrun Hc Hg He.
  destruct (sat_gs_item_decision _ _ _ _ _ _ _ Hrun Hc Hg) as (e' & d & Hd & Hfs & _).
  assert (e' = e) as -> by congruence.
  apply sat_to_gs_decision_Ok in Hd as (vis & _ & _ & Hd).
  destruct (sorted _) as [|[c s] t]; [left; by destruct Hd|].
  destruct Hd as [_ Hd]. destruct (decide (curr <> s)) as [Hne|Heq].
  - destruct Hd as (nbrs & best & Hn & Hl).
    unfold neighbors in Hn. apply Result_bind_Ok in Hn as (adj & Hadj%subscript_Ok & [= <-]).
    apply next_hop_loop_neighbor in Hl as [->|(n & o1 & o2 & ?)]; [by left|].
    right. right. by exists adj, n, o1, o2.
  - destruct Hd as (n & Hn & ->). right. left.
    assert (curr = s) as -> by (destruct (decide (curr = s)); [done|by destruct Heq]).
    by exists n.
Qed.

Lemma sat_entry_shape_witness :
  (1, 0, 1)%Z = drop \/
  (exists n_isls,
      num_isls_per_sat example_line !! 2 = Some n_isls /\
      (1, 0, 1)%Z = (Z.of_nat (len_satellites example_line + 0), n_isls, 0%Z)) \/
  (exists adj n if_out if_in,
      assoc 2 (sat_net_graph_without_gs example_line) = Some adj /\
      n ∈ adj.*1 /\
      sat_neighbor_to_if example_line !! (2, n) = Some if_out /\
      sat_neighbor_to_if example_line !! (n, 2) = Some if_in /\
      (1, 0, 1)%Z = (Z.of_nat n, if_out, if_in)).
Proof.
  apply (sat_entry_shape example_line no_files example_line_world
           example_line_fstate example_line_cache 2 0).
  - vm_compute. reflexivity.
  - simpl. lia.
  - simpl. lia.
  - vm_compute. reflexivity.
Defined.

(** X7. When the satellite selected for a ground station is the satellite
    itself, its entry delivers to the ground station: the next hop is the
    node of the ground station, the egress interface is the one after the
    links of the satellite, the ingress interface is 0. *)
Theorem sat_entry_direct_delivery inp w w' fs cache curr g c :
  forwarding_state inp w = (w', Ok (fs, cache)) ->
  curr < len_satellites inp -> g < len_ground_stations inp ->
  selected_sat_to_gs inp (dist_of inp) curr g = Some (c, curr) ->
  exists n_isls,
    num_isls_per_sat inp !! curr = Some n_isls /\
    fs !! (curr, len_satellites inp + g)
      = Some (Z.of_nat (len_satellites inp + g), n_isls, 0%Z).
Proof.
  intros Hrun Hc Hg Hsel.
  destruct (sat_gs_item_decision _ _ _ _ _ _ _ Hrun Hc Hg) as (e & d & Hd & Hfs & _).
  destruct (selected_sat_to_gs_eq _ _ _ _ _ _ Hd) as (vis & Hvis & Hsel').
  rewrite Hsel in Hsel'.
  apply sat_to_gs_decision_Ok in Hd as (vis' & Hvis' & _ & Hd).
  assert (vis' = vis) as -> by congruence.
  destruct (sorted _) as [|[c' s] t]; [done|]. injection Hsel' as <- <-.
  destruct Hd as [_ Hd]. rewrite decide_False in Hd by (intros H; by apply H).
  destruct Hd as (n & Hn & ->). by exists n.
Qed.

Lemma sat_entry_direct_delivery_witness :
  exists n_isls,
    num_isls_per_sat example_line !! 0 = Some n_isls /\
    example_line_fstate !! (0, len_satellites example_line + 0)
      = Some (Z.of_nat (len_satellites example_line + 0), n_isls, 0%Z).
Proof.
  apply (sat_entry_direct_delivery example_line no_files example_line_world
           example_line_fstate example_line_cache 0 0 (Fin 5)).
  - vm_compute. reflexivity.
  - simpl. lia.
  - simpl. lia.
  - vm_compute. reflexivity.
Defined.

(** ** Ground stations out of range, satellite ids out of range *)

Lemma cache_of_lookup_Some inp s node d :
  cache_of inp !! (s, node) = Some d -> s < len_satellites inp.
Proof.
  intros H%insert_all_lookup_Some. unfold sat_gs_distances in H.
  apply list_elem_of_fmap in H as ([curr g] & [= -> _ _] & Hin%elem_of_sat_gs_items).
  tauto.
Qed.

(** X8. A ground station with an empty visibility list is cut off: every
    satellite drops what is for it and caches an infinite distance to it,
    and its entry for any other ground station, like the entry of any other
    ground station for it, is the drop entry. *)
Theorem empty_visibility_drops inp w w' fs cache g :
  forwarding_state inp w = (w', Ok (fs, cache)) ->
  g < len_ground_stations inp ->
  ground_station_satellites_in_range inp !! g = Some [] ->
  (forall curr, curr < len_satellites inp ->
                fs !! (curr, len_satellites inp + g) = Some drop /\
                cache !! (curr, len_satellites inp + g) = Some Inf) /\
  (forall g', g' < len_ground_stations inp -> g' <> g ->
              fs !! (len_satellites inp + g, len_satellites inp + g') = Some drop /\
              fs !! (len_satellites inp + g', len_satellites inp + g) = Some drop).
Proof.
  intros Hrun Hg Hvis.
  assert (forall curr, curr < len_satellites inp ->
                       fs !! (curr, len_satellites inp + g) = Some drop /\
                       cache !! (curr, len_satellites inp + g) = Some Inf) as Hsat.
  { intros curr Hc.
    destruct (sat_gs_item_decision _ _ _ _ _ _ _ Hrun Hc Hg) as (e & d & Hd & -> & ->).
    unfold sat_to_gs_decision in Hd. rewrite Hvis in Hd. cbn in Hd.
    by injection Hd as <- <-. }
  split; [exact Hsat|]. intros g' Hg' Hne. split.
  - destruct (gs_gs_item_decision _ _ _ _ _ g g' Hrun Hg Hg') as (e & Hd & ->);
      [done|].
    unfold gs_to_gs_decision in Hd. rewrite Hvis in Hd. cbn in Hd.
    by injection Hd as <-.
  - destruct (gs_gs_item_decision _ _ _ _ _ g' g Hrun Hg' Hg Hne) as (e & Hd & ->).
    apply gs_to_gs_decision_Ok in Hd as (vis & _ & _ & Hd).
    destruct (sorted _) as [|[c s] t] eqn:Es; [by subst|]. exfalso.
    apply sorted_head_least in Es as [Hin _].
    apply elem_of_candidates_gs_to_gs in Hin as (a & d & _ & Hc & _).
    cbn [snd] in Hc.
    assert (s < len_satellites inp) as Hs.
    { apply forwarding_state_Ok in Hrun as (_ & _ & -> & _).
      by eapply cache_of_lookup_Some. }
    destruct (Hsat s Hs) as [_ Hinf]. congruence.
Qed.

Lemma empty_visibility_drops_witness :
  exists fs cache,
    (forwarding_state example_out_of_range no_files).2 = Ok (fs, cache) /\
    (forall curr, curr < len_satellites example_out_of_range ->
                  fs !! (curr, len_satellites example_out_of_range + 1) = Some drop /\
                  cache !! (curr, len_satellites example_out_of_range + 1) = Some Inf) /\
    (forall g', g' < len_ground_stations example_out_of_range -> g' <> 1 ->
                fs !! (len_satellites example_out_of_range + 1,
                       len_satellites example_out_of_range + g') = Some drop /\
                fs !! (len_satellites example_out_of_range + g',
                       len_satellites example_out_of_range + 1) = Some drop).
Proof.
  eexists _, _. split; [vm_compute; reflexivity|].
  eapply (empty_visibility_drops example_out_of_range no_files).
  - vm_compute. reflexivity.
  - simpl. lia.
  - reflexivity.
Defined.

Lemma check_graph_number_of_nodes g n_sat :
  check_graph g n_sat = Ok tt -> number_of_nodes g = n_sat.
Proof.
  unfold check_graph. destruct (decide (number_of_nodes g <> n_sat)); [done|].
  intros _. by destruct (decide (number_of_nodes g = n_sat)).
Qed.

(** X9. A visibility list that names a satellite id not below the number of
    satellites makes the epoch raise, as soon as there is a satellite to
    look from: no table is returned. *)
Theorem visibility_out_of_range_raises inp w g vis a s :
  0 < len_satellites inp -> g < len_ground_stations inp ->
  ground_station_satellites_in_range inp !! g = Some vis ->
  (a, s) ∈ vis -> len_satellites inp <= s ->
  exists w' e, algorithm_free_one_only_over_isls inp w = (w', Err e).
Proof.
  intros Hs Hg Hvis Hin Hle.
  destruct (algorithm_free_one_only_over_isls inp w) as [w' [out|e]] eqn:H;
    [exfalso|by eexists _, _].
  apply algorithm_Ok in H as (Hn%check_graph_number_of_nodes & w1 & _ & Hrun).
  destruct (sat_gs_item_decision _ _ _ _ _ _ _ Hrun Hs Hg) as (e & d & Hd & _).
  apply sat_to_gs_decision_Ok in Hd as (vis' & Hvis' & HF & _).
  assert (vis' = vis) as -> by congruence.
  rewrite Forall_forall in HF. destruct (HF _ Hin) as [d' Hd'].
  apply (square_get_lt (len_satellites inp)) in Hd' as [_ Hlt]; [simpl in Hlt; lia|].
  rewrite <- Hn. apply square_floyd_warshall_numpy.
Qed.

Lemma visibility_out_of_range_raises_witness :
  exists w' e,
    algorithm_free_one_only_over_isls example_bad_visibility no_files = (w', Err e).
Proof.
  apply (visibility_out_of_range_raises example_bad_visibility no_files 1
           [(Fin 5, 7)] (Fin 5) 7).
  - simpl. lia.
  - simpl. lia.
  - reflexivity.
  - by left.
  - simpl. lia.
Defined.

(** ** The bandwidth file *)

(** A bandwidth loop that completes has written, in order, the line of
    every element. *)
Lemma bandwidth_loop_Ok (mk : nat -> Result BandwidthLine) (l : list nat) w w' :
  for_eachM l (fun node_id (_ : unit) =>
                 line ← lift (mk node_id); write_gsl_if_bandwidth line) tt w
  = (w', Ok tt) ->
  exists lines,
    Forall2 (fun node_id line => mk node_id = Ok line) l lines /\
    w' = {| gsl_if_bandwidth_file := (fun f => f ++ lines) <$> gsl_if_bandwidth_file w;
            fstate_file := fstate_file w |}.
Proof.
  revert w. induction l as [|x l IH]; intros w; cbn [for_eachM].
  - intros [= <-]. exists []. split; [done|].
    destruct w as [[b|] f]; simpl; by rewrite ?app_nil_r.
  - rewrite M_bind_Ok. intros ([] & w1 & Hx & Hl).
    apply M_bind_Ok in Hx as (line & w0 & Hmk & Hw).
    unfold lift in Hmk. destruct (mk x) as [line'|] eqn:E; [|done].
    injection Hmk as <- <-. injection Hw as <-.
    apply IH in Hl as (lines & HF & ->). exists (line' :: lines).
    split; [by constructor|]. simpl.
    destruct (gsl_if_bandwidth_file w); simpl; [|done].
    by rewrite <- app_assoc.
Qed.

(** X10. When the epoch succeeds, the bandwidth file has been written anew.  At
    time 0 it holds one line per node, in the order of the node ids: for a
    satellite its number of ISLs and its bandwidth, for a ground station 0
    and its bandwidth.  At any other time it is empty. *)
Theorem bandwidth_file_contents inp w w' out :
  algorithm_free_one_only_over_isls inp w = (w', Ok out) ->
  exists lines,
    gsl_if_bandwidth_file w' = Some lines /\
    if decide (time_since_epoch_ns inp = 0%Z) then
      length lines = len_satellites inp + len_ground_stations inp /\
      forall node_id line,
        lines !! node_id = Some line ->
        exists info bw,
          list_gsl_interfaces_info inp !! node_id = Some info /\
          info !! "aggregate_max_bandwidth" = Some bw /\
          if decide (node_id < len_satellites inp) then
            exists n_isls, num_isls_per_sat inp !! node_id = Some n_isls /\
                           line = (node_id, n_isls, bw)
          else line = (node_id, 0%Z, bw)
    else lines = [].
Proof.
  intros (_ & w1 & Hbw & Hrun)%algorithm_Ok.
  apply forwarding_state_Ok in Hrun as (_ & _ & _ & ->). cbn [gsl_if_bandwidth_file].
  unfold bandwidth_state in Hbw.
  apply M_bind_Ok in Hbw as ([] & w0 & Hopen & Hbw).
  injection Hopen as <-.
  destruct (decide (time_since_epoch_ns inp = 0%Z)) as [_|_].
  2:{ injection Hbw as <-. by exists []. }
  apply M_bind_Ok in Hbw as ([] & w2 & H1 & H2).
  apply bandwidth_loop_Ok in H1 as (l1 & HF1 & ->).
  apply bandwidth_loop_Ok in H2 as (l2 & HF2 & ->). cbn.
  exists (l1 ++ l2). split; [done|].
  pose proof (Forall2_length _ _ _ HF1) as Hl1. rewrite length_seq in Hl1.
  pose proof (Forall2_length _ _ _ HF2) as Hl2. rewrite length_seq in Hl2.
  split; [rewrite length_app; lia|].
  intros node_id line Hline.
  assert (forall bw, aggregate_max_bandwidth inp node_id = Ok bw ->
            exists info, list_gsl_interfaces_info inp !! node_id = Some info /\
                         info !! "aggregate_max_bandwidth" = Some bw) as Hagg.
  { intros bw. unfold aggregate_max_bandwidth.
    intros (info & Hi%subscript_Ok & Hb%subscript_Ok)%Result_bind_Ok.
    by exists info. }
  destruct (decide (node_id < len_satellites inp)) as [Hlt|Hge].
  - rewrite lookup_app_l in Hline by lia.
    destruct (Forall2_lookup_r _ _ _ _ _ HF1 Hline) as (x & Hx & Hmk).
    apply lookup_seq in Hx as [-> _]. simpl in Hmk.
    apply Result_bind_Ok in Hmk as (n & Hn%subscript_Ok & Hmk).
    apply Result_bind_Ok in Hmk as (bw & Hb & [= <-]).
    destruct (Hagg bw Hb) as (info & Hi & Hbw).
    exists info, bw. split_and!; [done..|]. by exists n.
  - rewrite lookup_app_r in Hline by lia.
    destruct (Forall2_lookup_r _ _ _ _ _ HF2 Hline) as (x & Hx & Hmk).
    apply lookup_seq in Hx as [-> _].
    apply Result_bind_Ok in Hmk as (bw & Hb & [= <-]).
    replace (len_satellites inp + (node_id - length l1)) with node_id in * by lia.
    destruct (Hagg bw Hb) as (info & Hi & Hbw).
    by exists info, bw.
Qed.

Lemma bandwidth_file_contents_witness :
  exists lines,
    gsl_if_bandwidth_file example_line_files = Some lines /\
    if decide (time_since_epoch_ns example_line = 0%Z) then
      length lines = len_satellites example_line + len_ground_stations example_line /\
      forall node_id line,
        lines !! node_id = Some line ->
        exists info bw,
          list_gsl_interfaces_info example_line !! node_id = Some info /\
          info !! "aggregate_max_bandwidth" = Some bw /\
          if decide (node_id < len_satellites example_line) then
            exists n_isls, num_isls_per_sat example_line !! node_id = Some n_isls /\
                           line = (node_id, n_isls, bw)
          else line = (node_id, 0%Z, bw)
    else lines = [].
Proof.
  apply (bandwidth_file_contents example_line no_files example_line_files
           {| fstate := example_line_fstate |}).
  vm_compute. reflexivity.
Defined.

(** ** The order of the lines written *)

Lemma StronglySorted_seq a n : StronglySorted lt (seq a n).
Proof.
  revert a. induction n as [|n IH]; intros a; simpl; constructor; [apply IH|].
  apply Forall_forall. intros x Hx%elem_of_seq. lia.
Qed.

Lemma StronglySorted_sublist {A : Type} (R : relation A) (l1 l2 : list A) :
  l1 `sublist_of` l2 -> StronglySorted R l2 -> StronglySorted R l1.
Proof.
  induction 1 as [|x l1 l2 Hs IH|x l1 l2 Hs IH]; [done|..];
    intros [HF Hl]%StronglySorted_cons.
  - apply StronglySorted_cons. split; [|by apply IH].
    rewrite Forall_forall in *. intros y Hy. apply HF.
    by eapply elem_of_sublist.
  - by apply IH.
Qed.

Lemma StronglySorted_pairs (l : list nat) (f : nat -> list nat) :
  StronglySorted lt l -> (forall x, StronglySorted lt (f x)) ->
  StronglySorted key_lt (pairs l f).
Proof.
  intros Hl Hf. unfold pairs. induction l as [|x l IH]; [constructor|].
  apply StronglySorted_cons in Hl as [Hx Hl]. rewrite bind_cons.
  apply StronglySorted_app_2.
  - intros p q (y & -> & _)%list_elem_of_fmap Hq.
    apply (elem_of_pairs l f q) in Hq as [Hq _].
    rewrite Forall_forall in Hx. left. simpl. by apply Hx.
  - apply (StronglySorted_fmap _ lt); [|done].
    intros a b Hab. right. simpl. done.
  - by apply IH.
Qed.

Lemma table_keys_StronglySorted inp :
  StronglySorted key_lt (table_lines inp).*1.
Proof.
  rewrite table_lines_keys. apply StronglySorted_app_2.
  - intros p q (curr & g & Hc & _ & ->)%elem_of_sat_gs_keys
      ([s d] & -> & _)%list_elem_of_fmap.
    left. simpl. lia.
  - apply (StronglySorted_fmap _ key_lt).
    + intros [a b] [c d] [H|[H1 H2]]; [left|right]; simpl in *; lia.
    + apply StronglySorted_pairs; [apply StronglySorted_seq|].
      intros _. apply StronglySorted_seq.
  - apply (StronglySorted_fmap _ key_lt).
    + intros [a b] [c d] [H|[H1 H2]]; [left|right]; simpl in *; lia.
    + apply StronglySorted_pairs; [apply StronglySorted_seq|].
      intros x. eapply StronglySorted_sublist; [|apply StronglySorted_seq].
      apply sublist_filter.
Qed.

(** X11. The lines of the forwarding-state file come in strictly ascending order
    of their keys (current node, then destination): the lines of the
    satellites before those of the ground stations, and no key twice. *)
Theorem emitted_lines_in_key_order inp w w' out lines :
  algorithm_free_one_only_over_isls inp w = (w', Ok out) ->
  fstate_file w' = Some lines ->
  StronglySorted key_lt lines.*1.
Proof.
  intros (_ & _ & Hw)%algorithm_Ok_spec Hlines.
  rewrite Hw in Hlines. injection Hlines as <-.
  eapply StronglySorted_sublist; [|apply table_keys_StronglySorted].
  apply fmap_sublist, sublist_filter.
Qed.

Lemma emitted_lines_in_key_order_witness :
  exists lines,
    fstate_file example_line_files = Some lines /\
    StronglySorted key_lt lines.*1.
Proof.
  eexists. split; [reflexivity|].
  eapply (emitted_lines_in_key_order example_line no_files example_line_files).
  - vm_compute. reflexivity.
  - reflexivity.
Defined.

(** ** Every hop leads closer to the selected satellite *)

Lemma positive_nonneg_weights g : positive_weights g -> nonneg_weights g.
Proof.
  intros H u v. specialize (H u v). destruct (edge_weight g u v); [lia|done].
Qed.

Lemma min_positive (a b c : Dist) :
  DistOps.ltb (Fin 0) a = true ->
  DistOps.leb (Fin 0) b = true -> DistOps.leb (Fin 0) c = true ->
  DistOps.ltb (Fin 0) b = true \/ DistOps.ltb (Fin 0) c = true ->
  DistOps.ltb (Fin 0) (DistOps.min a (DistOps.add b c)) = true.
Proof. intros ? ? ? [?|?]; dist_solve. Qed.

Lemma hop_closer (x y z p q : Dist) :
  DistOps.ltb (Fin 0) x = true ->
  DistOps.ltb (DistOps.add p q) (DistOps.add x y) = false ->
  DistOps.leb (DistOps.add p q) z = true ->
  z <> Inf ->
  DistOps.ltb y z = true.
Proof. dist_solve. Qed.

(** With links of positive length, two different satellites are at a
    positive distance from each other. *)
Lemma floyd_warshall_positive g i j :
  nodes_in_order g -> positive_weights g ->
  i < number_of_nodes g -> j < number_of_nodes g -> i <> j ->
  DistOps.ltb (Fin 0) (matrix_at (floyd_warshall_numpy g) i j) = true.
Proof.
  intros Ho Hw Hi Hj Hne. unfold floyd_warshall_numpy.
  set (A0 := fill_diagonal (to_numpy_array g)).
  set (N := number_of_nodes g) in *.
  assert (forall l A,
             Forall (fun k => k < N) l ->
             (floyd_warshall_inv N A0 A /\
              forall i j, i < N -> j < N -> i <> j ->
                          DistOps.ltb (Fin 0) (matrix_at A i j) = true) ->
             (floyd_warshall_inv N A0 (foldl floyd_warshall_step A l) /\
              forall i j, i < N -> j < N -> i <> j ->
                          DistOps.ltb (Fin 0)
                            (matrix_at (foldl floyd_warshall_step A l) i j) = true))
    as Hfold.
  { induction l as [|k l IH]; intros A Hl HA; [done|].
    apply Forall_cons in Hl as [Hk Hl]. cbn [foldl].
    apply IH; [done|]. destruct HA as [Hinv Hpos].
    split; [by apply floyd_warshall_inv_step|].
    intros i' j' Hi' Hj' Hne'. destruct Hinv as [Hsq Hinv].
    rewrite (matrix_at_step N) by done.
    destruct (Hinv k j' Hk Hj') as (Hkj & _).
    destruct (Hinv i' k Hi' Hk) as (Hik & _).
    apply min_positive; [by apply Hpos|done..|].
    destruct (decide (k = j')) as [->|Hkj'].
    - right. by apply Hpos.
    - left. by apply Hpos. }
  apply Hfold; [| |done..].
  - apply Forall_forall. intros k Hk%elem_of_seq. unfold N. lia.
  - split; [by apply floyd_warshall_inv_init, positive_nonneg_weights|].
    intros i' j' Hi' Hj' Hne'. unfold A0.
    rewrite matrix_at_initial, decide_False by done.
    specialize (Hw i' j').
    destruct (edge_weight g i' j'); simpl; [by apply Z.ltb_lt|done].
Qed.

Lemma elem_assoc_Some {V : Type} (k : nat) (l : list (nat * V)) :
  k ∈ l.*1 -> is_Some (assoc k l).
Proof.
  induction l as [|[k' v] l IH]; simpl; [by intros ?%elem_of_nil|].
  intros [->|Hin]%elem_of_cons.
  - by rewrite decide_True.
  - destruct (decide (k = k')); [done|by apply IH].
Qed.

(** X12. With links of positive length and no link from a satellite to itself,
    an entry of a satellite that forwards to another satellite names a
    satellite strictly closer to the selected one: following the entries
    for one ground station never comes back to a satellite. *)
Theorem next_hop_is_closer inp w w' out curr g c dst_sat e :
  algorithm_free_one_only_over_isls inp w = (w', Ok out) ->
  nodes_in_order (sat_net_graph_without_gs inp) ->
  positive_weights (sat_net_graph_without_gs inp) ->
  no_self_loops (sat_net_graph_without_gs inp) ->
  curr < len_satellites inp -> g < len_ground_stations inp ->
  selected_sat_to_gs inp (dist_of inp) curr g = Some (c, dst_sat) ->
  curr <> dst_sat ->
  fstate out !! (curr, len_satellites inp + g) = Some e -> e <> drop ->
  exists n, e.1.1 = Z.of_nat n /\ n < len_satellites inp /\
            DistOps.ltb (matrix_at (dist_of inp) n dst_sat)
                        (matrix_at (dist_of inp) curr dst_sat) = true.
Proof.
  intros (HN%check_graph_number_of_nodes & w1 & _ & Hrun)%algorithm_Ok
    Ho Hw Hloops Hc Hg Hsel Hne Hfs Hnd.
  pose proof (positive_nonneg_weights _ Hw) as Hw0.
  pose proof (square_floyd_warshall_numpy (sat_net_graph_without_gs inp)) as Hsq.
  fold (dist_of inp) in Hsq.
  destruct (sat_gs_item_decision _ _ _ _ _ _ _ Hrun Hc Hg) as (e' & d & Hd & Hfs' & _).
  assert (e' = e) as -> by congruence.
  destruct (selected_sat_to_gs_cases _ _ _ _ _ _ Hd) as (vis & Hvis & Hcases).
  rewrite Hsel in Hcases. destruct Hcases as (_ & (a & d' & _ & Hd' & _) & _).
  destruct (selected_sat_to_gs_eq _ _ _ _ _ _ Hd) as (vis' & Hvis' & Hsel').
  assert (vis' = vis) as -> by congruence. rewrite Hsel in Hsel'.
  apply sat_to_gs_decision_Ok in Hd as (vis' & Hvis'' & _ & Hd).
  assert (vis' = vis) as -> by congruence.
  destruct (sorted _) as [|[c' s'] t]; [done|]. injection Hsel' as <- <-.
  destruct Hd as [_ Hd]. rewrite decide_True in Hd by done.
  destruct Hd as (nbrs & best & Hnb & Hl).
  apply next_hop_loop in Hl
    as [(-> & _)|(i & n & o1 & o2 & Hi & _ & _ & -> & -> & Hlt & _ & Hmin)];
    [done|].
  exists n. split; [done|].
  unfold path_via in Hlt.
  destruct (matrix_get (dist_of inp) curr n) as [x|] eqn:Ex; [|done].
  destruct (matrix_get (dist_of inp) n dst_sat) as [y|] eqn:Ey; [|done].
  destruct (square_get_lt _ _ _ _ _ Hsq Ex) as [Hc' Hn'].
  destruct (square_get_lt _ _ _ _ _ Hsq Ey) as [_ Hs'].
  split; [lia|].
  destruct (floyd_warshall_first_hop _ curr dst_sat Ho Hw0 Hc' Hs' Hne)
    as (m & Hm & _ & Hedge & Hle).
  { fold (dist_of inp). by rewrite (matrix_at_Ok _ _ _ _ Hd'). }
  fold (dist_of inp) in Hle.
  destruct (edge_weight_neighbor _ _ _ Hedge) as (adj & Hadj & Hin).
  unfold neighbors in Hnb. rewrite Hadj in Hnb. injection Hnb as <-.
  specialize (Hmin m Hin).
  rewrite !(path_via_at _ _ _ _ _ Hsq) in Hmin by done.
  assert (curr <> n) as Hcn.
  { intros <-. apply list_elem_of_lookup_2, elem_assoc_Some in Hi as [wt Hwt].
    specialize (Hloops curr). unfold edge_weight in Hloops.
    by rewrite Hadj, Hwt in Hloops. }
  pose proof (floyd_warshall_positive _ curr n Ho Hw Hc' Hn' Hcn) as Hpos.
  fold (dist_of inp) in Hpos.
  eapply hop_closer; [exact Hpos|exact Hmin|exact Hle|].
  by rewrite (matrix_at_Ok _ _ _ _ Hd').
Qed.

Lemma example_line_positive_weights :
  positive_weights (sat_net_graph_without_gs example_line).
Proof.
  intros u v. unfold edge_weight. simpl.
  repeat (case_decide; simplify_eq/=; try lia); try done.
Qed.

Lemma example_line_no_self_loops :
  no_self_loops (sat_net_graph_without_gs example_line).
Proof.
  intros u. unfold edge_weight. simpl.
  repeat (case_decide; simplify_eq/=; try lia); try done.
Qed.

Lemma next_hop_is_closer_witness :
  exists n, (1, 0, 1)%Z.1.1 = Z.of_nat n /\ n < len_satellites example_line /\
            DistOps.ltb (matrix_at (dist_of example_line) n 0)
                        (matrix_at (dist_of example_line) 2 0) = true.
Proof.
  apply (next_hop_is_closer example_line no_files example_line_files
           {| fstate := example_line_fstate |} 2 0 (Fin 7) 0 (1, 0, 1)%Z).
  - vm_compute. reflexivity.
  - reflexivity.
  - exact example_line_positive_weights.
  - exact example_line_no_self_loops.
  - simpl. lia.
  - simpl. lia.
  - vm_compute. reflexivity.
  - lia.
  - vm_compute. reflexivity.
  - done.
Defined.

(** ** From a ground station onwards *)

(** X13. Below the bound, for a graph whose nodes were added in the order
    of their ids and whose links have no negative length, and with
    distances that add up exactly, the satellite a ground station hands a
    packet to does not drop it: it has an entry for the destination that
    forwards. *)
Theorem gs_route_continues inp w w' out g1 g2 e :
  algorithm_free_one_only_over_isls inp w = (w', Ok out) ->
  nodes_in_order (sat_net_graph_without_gs inp) ->
  nonneg_weights (sat_net_graph_without_gs inp) ->
  below_bound inp ->
  g1 < len_ground_stations inp -> g2 < len_ground_stations inp -> g1 <> g2 ->
  fstate out !! (len_satellites inp + g1, len_satellites inp + g2) = Some e ->
  e <> drop ->
  exists s e', e.1.1 = Z.of_nat s /\ s < len_satellites inp /\
               fstate out !! (s, len_satellites inp + g2) = Some e' /\
               e' <> drop.
Proof.
  intros (_ & w1 & _ & Hrun)%algorithm_Ok Ho Hw Hb Hg1 Hg2 Hne Hfs Hnd.
  destruct (gs_gs_item_decision _ _ _ _ _ _ _ Hrun Hg1 Hg2 Hne) as (e0 & Hd & Hfs0).
  assert (e0 = e) as -> by congruence.
  apply gs_to_gs_decision_Ok in Hd as (vis & _ & _ & Hd).
  destruct (sorted _) as [|[c s] t] eqn:Es; [done|].
  destruct Hd as (n & _ & ->).
  apply sorted_head_least in Es as [Hin _].
  apply elem_of_candidates_gs_to_gs in Hin as (a & d & _ & Hc & _).
  cbn [snd] in Hc.
  assert (s < len_satellites inp) as Hs.
  { by eapply cache_of_lookup_Some. }
  destruct (sat_gs_item_decision _ _ _ _ _ _ _ Hrun Hs Hg2)
    as (e' & d0 & Hd0 & Hfs' & Hc').
  assert (d0 = Fin d) as -> by congruence.
  exists s, e'. split_and!; [done..|].
  intros ->.
  apply (sat_to_gs_drop_iff _ _ _ _ _ _ _ Hrun Hs Hg2) in Hfs'.
  destruct (selected_sat_to_gs_cases _ _ _ _ _ _ Hd0) as (vis' & _ & Hsel).
  destruct (selected_sat_to_gs _ _ _ _) as [[c' s']|]; [|by destruct Hsel].
  destruct Hsel as (_ & (a' & d' & _ & Hd' & _) & _).
  destruct Hfs' as [Hne' Hall].
  destruct (neighbor_below_bound inp s s' d' Ho Hw Hb Hne' Hd')
    as (nbrs & m & Hn & Hm & Hlt).
  by rewrite (Hall _ _ Hn Hm) in Hlt.
Qed.

Lemma gs_route_continues_witness :
  exists s e', (0, 0, 1)%Z.1.1 = Z.of_nat s /\ s < len_satellites example_line /\
               example_line_fstate !! (s, len_satellites example_line + 1) = Some e' /\
               e' <> drop.
Proof.
  apply (gs_route_continues example_line no_files example_line_files
           {| fstate := example_line_fstate |} 0 1 (0, 0, 1)%Z).
  - vm_compute. reflexivity.
  - reflexivity.
  - exact example_line_nonneg_weights.
  - exact example_line_below_bound.
  - simpl. lia.
  - simpl. lia.
  - lia.
  - vm_compute. reflexivity.
  - done.
Defined.

(** ** A node without bandwidth *)

Lemma bandwidth_state_Ok_info inp w w1 node_id :
  bandwidth_state inp w = (w1, Ok tt) ->
  time_since_epoch_ns inp = 0%Z ->
  node_id < len_satellites inp + len_ground_stations inp ->
  exists info bw, list_gsl_interfaces_info inp !! node_id = Some info /\
                  info !! "aggregate_max_bandwidth" = Some bw.
Proof.
  intros Hbw Ht Hn. unfold bandwidth_state in Hbw.
  apply M_bind_Ok in Hbw as ([] & w0 & _ & Hbw).
  rewrite decide_True in Hbw by done.
  apply M_bind_Ok in Hbw as ([] & w2 & H1 & H2).
  apply bandwidth_loop_Ok in H1 as (l1 & HF1 & _).
  apply bandwidth_loop_Ok in H2 as (l2 & HF2 & _).
  assert (exists bw, aggregate_max_bandwidth inp node_id = Ok bw) as [bw Hb].
  { destruct (decide (node_id < len_satellites inp)) as [Hlt|Hge].
    - destruct (Forall2_lookup_l _ _ _ node_id node_id HF1) as (line & _ & Hmk);
        [by apply lookup_seq|].
      simpl in Hmk. apply Result_bind_Ok in Hmk as (n & _ & Hmk).
      apply Result_bind_Ok in Hmk as (bw & Hb & _). by exists bw.
    - destruct (Forall2_lookup_l _ _ _ (node_id - len_satellites inp) node_id HF2)
        as (line & _ & Hmk); [apply lookup_seq; lia|].
      apply Result_bind_Ok in Hmk as (bw & Hb & _). by exists bw. }
  unfold aggregate_max_bandwidth in Hb.
  apply Result_bind_Ok in Hb as (info & Hi%subscript_Ok & Hb%subscript_Ok).
  by exists info, bw.
Qed.

(** X14. At time 0 the bandwidth of every node is read before any forwarding
    state is computed: when a node has none, the epoch raises and the
    forwarding-state file is not even opened. *)
Theorem missing_bandwidth_raises inp w node_id :
  time_since_epoch_ns inp = 0%Z ->
  node_id < len_satellites inp + len_ground_stations inp ->
  (forall info, list_gsl_interfaces_info inp !! node_id = Some info ->
                info !! "aggregate_max_bandwidth" = None) ->
  exists w' e, algorithm_free_one_only_over_isls inp w = (w', Err e) /\
               fstate_file w' = fstate_file w.
Proof.
  intros Ht Hn Hnone. unfold algorithm_free_one_only_over_isls.
  unfold mbind at 1, M_bind. unfold lift at 1.
  destruct (check_graph _ _) as [[]|e]; [|by eexists _, _].
  unfold mbind at 1, M_bind.
  destruct (bandwidth_state_spec inp) as (lines & r & Hbw).
  destruct r as [[]|e].
  - destruct (bandwidth_state_Ok_info inp w _ node_id (Hbw w) Ht Hn)
      as (info & bw & Hi & Hb).
    rewrite (Hnone info Hi) in Hb. done.
  - rewrite Hbw. by eexists _, _.
Qed.

Lemma missing_bandwidth_raises_witness :
  exists w' e,
    algorithm_free_one_only_over_isls example_no_bandwidth no_files = (w', Err e) /\
    fstate_file w' = fstate_file no_files.
Proof.
  apply (missing_bandwidth_raises example_no_bandwidth no_files 4).
  - reflexivity.
  - simpl. lia.
  - intros info. simpl. done.
Defined.

(** ** The first epoch *)

Lemma filter_all {A : Type} (P : A -> Prop) `{!forall x, Decision (P x)}
    (l : list A) :
  (forall x, x ∈ l -> P x) -> filter P l = l.
Proof.
  induction l as [|x l IH]; intros Hall; [done|].
  rewrite filter_cons, decide_True by (apply Hall; by left).
  f_equal. apply IH. intros y Hy. apply Hall. by right.
Qed.

(** X15. Without a previous table, or with an empty one, every entry of the
    table is written: the file has one line for each computed pair. *)
Theorem first_epoch_writes_whole_table inp w w' out lines :
  algorithm_free_one_only_over_isls inp w = (w', Ok out) ->
  (forall prev, prev_output inp = Some prev -> fstate prev = ∅) ->
  fstate_file w' = Some lines ->
  length lines = len_satellites inp * len_ground_stations inp +
                 len_ground_stations inp * (len_ground_stations inp - 1) /\
  forall k v, (k, v) ∈ lines <-> fstate out !! k = Some v.
Proof.
  intros (_ & Hfs & Hw)%algorithm_Ok_spec Hprev Hlines.
  rewrite Hw in Hlines. injection Hlines as <-.
  assert (filter (is_changed (prev_fstate_of inp)) (table_lines inp) = table_lines inp)
    as ->.
  { apply filter_all. intros [k v] _. unfold is_changed, prev_fstate_of.
    destruct (prev_output inp) as [prev|] eqn:E; [|done]. simpl.
    by rewrite (Hprev prev), lookup_empty. }
  split; [apply length_table_lines|].
  intros k v. rewrite Hfs. apply elem_of_table_lines.
Qed.

Lemma first_epoch_writes_whole_table_witness :
  exists lines,
    fstate_file example_line_files = Some lines /\
    length lines = len_satellites example_line * len_ground_stations example_line +
                   len_ground_stations example_line *
                   (len_ground_stations example_line - 1) /\
    forall k v, (k, v) ∈ lines <-> example_line_fstate !! k = Some v.
Proof.
  eexists. split; [reflexivity|].
  eapply (first_epoch_writes_whole_table example_line no_files example_line_files
            {| fstate := example_line_fstate |}).
  - vm_compute. reflexivity.
  - intros prev. simpl. done.
  - reflexivity.
Defined.
